(** * MCP chat client: connection and target management

    A shallow embedding of [scripts/mcp-client.js] (the multi-target version:
    [McpChatClient], [connectWithFallback], [buildTransportAttempts],
    [pickPrimaryArgument] and [ChatTargetManager]) together with the
    properties of its connection core.

    Conventions of the embedding
    - JS strings are [string]s over ASCII code units; [trim] and
      [toLowerCase] are written out for that alphabet.
    - A JS object used as a dictionary (tool arguments, schema properties,
      the manager's [Map] of clients) is a [gmap string _].
    - An awaited promise is observed through its settlement, [settled A].
    - The RPC library (Client, the two transports, [URL]) is not part of the
      repository: its answers are the fields of an [Sdk] record, so every
      statement is quantified over what the collaborator may answer.
    - Side effects that matter (factory calls, connects, warnings, close
      calls) are appended to an event log. *)

From stdpp Require Import gmap strings list fin_maps pretty.
From Stdlib Require Import Ascii.

Local Open Scope string_scope.
Local Open Scope list_scope.

(** ** JavaScript values and strings *)

Module Js.

(** Argument values as they come out of JSON: scalars, and one opaque
    constructor for arrays and objects (always truthy). *)
Inductive value :=
| VStr (s : string)
| VNum (n : Z)
| VBool (b : bool)
| VNull
| VObj (json : string).

#[global] Instance value_eq_dec : EqDecision value.
Proof. solve_decision. Defined.

(** [Boolean(v)] *)
Definition truthy (v : value) : bool :=
  match v with
  | VStr s => negb (String.eqb s "")
  | VNum n => negb (Z.eqb n 0)
  | VBool b => b
  | VNull => false
  | VObj _ => true
  end.

(** [Boolean] of a value that may be [undefined], which is falsy. *)
Definition truthy_opt (v : option value) : bool :=
  match v with
  | Some v => truthy v
  | None => false
  end.

(** [Boolean(o[k])] *)
Definition truthy_at (o : gmap string value) (k : string) : bool :=
  truthy_opt (o !! k).

(** White space removed by [String.prototype.trim], ASCII part:
    TAB, LF, VT, FF, CR and SPACE. *)
Definition is_space (a : ascii) : bool :=
  let n := nat_of_ascii a in
  (((9 <=? n) && (n <=? 13)) || (n =? 32))%nat.

Fixpoint trim_start (s : string) : string :=
  match s with
  | String a rest => if is_space a then trim_start rest else s
  | EmptyString => EmptyString
  end.

(** Dropping trailing white space: a character is kept when it is not a
    space or when something is kept after it. *)
Fixpoint trim_end (s : string) : string :=
  match s with
  | EmptyString => EmptyString
  | String a rest =>
      match trim_end rest with
      | EmptyString => if is_space a then EmptyString else String a EmptyString
      | kept => String a kept
      end
  end.

Definition trim (s : string) : string := trim_end (trim_start s).

Definition lower_ascii (a : ascii) : ascii :=
  let n := nat_of_ascii a in
  if ((65 <=? n) && (n <=? 90))%nat then ascii_of_nat (n + 32) else a.

Fixpoint toLowerCase (s : string) : string :=
  match s with
  | EmptyString => EmptyString
  | String a rest => String (lower_ascii a) (toLowerCase rest)
  end.

(** [a ?? b] on optional values. *)
Definition nullish {A} (a : option A) (b : A) : A :=
  match a with Some x => x | None => b end.

(** [a ?? b] when [b] may itself be absent. *)
Definition nullish_opt {A} (a b : option A) : option A :=
  match a with Some x => Some x | None => b end.

(** A non-empty string is truthy. *)
Definition nonempty (s : string) : bool := negb (String.eqb s "").

End Js.

Infix "??" := Js.nullish (at level 61, left associativity).
Infix "???" := Js.nullish_opt (at level 61, left associativity).

(** ** Errors and settlements *)

(** The program raises plain [Error] objects told apart by their message;
    each constructor stands for one message of the source. *)
Inductive error :=
| MissingApiKey                       (* 'Missing API key. Set MCP_API_KEY ...' *)
| ToolNotExposed (toolName : string)  (* 'Tool "<toolName>" is not exposed by the MCP server.' *)
| NoTransportAttempts                 (* 'No transport attempts configured. ...' *)
| AllTransportsFailed                 (* 'All transports failed to connect.' *)
| QuestionEmpty                       (* 'Question cannot be empty.' *)
| ClientNotConnected                  (* 'Client is not connected.' *)
| UnknownTarget (name : string)       (* 'Unknown target "<name>".' *)
| NoTargetConfigured                  (* 'At least one MCP target must be configured.' *)
| SdkError (message : string).        (* raised by the RPC library or by [new URL] *)

#[global] Instance error_eq_dec : EqDecision error.
Proof. solve_decision. Defined.

(** How an awaited promise (or a call that may throw) ends. *)
Inductive settled (A : Type) :=
| Fulfilled (a : A)
| Rejected (e : error).
Arguments Fulfilled {A} a.
Arguments Rejected {A} e.

Definition is_fulfilled {A} (r : settled A) : bool :=
  match r with Fulfilled _ => true | Rejected _ => false end.

(** ** Tool descriptors and primary-argument inference *)

(** A property descriptor of an input schema: a JS object (hence truthy)
    with the value of its [type] field when that is a string. *)
Record PropSchema := { prop_type : option string }.

(** [inputSchema]: its [type] field and its [properties] object, either of
    which may be missing. *)
Record Schema := {
  schema_type : option string;
  properties : option (gmap string PropSchema)
}.

Record Tool := {
  tool_name : string;
  inputSchema : option Schema
}.

(** [props[key]?.type === 'string'] *)
Definition is_string_prop (p : PropSchema) : bool :=
  match prop_type p with
  | Some t => String.eqb t "string"
  | None => false
  end.

(** A one-element array's element, [None] for any other length. *)
Definition the_only {A} (l : list A) : option A :=
  match l with
  | [x] => Some x
  | _ => None
  end.

(** [schema.properties ?? {}] *)
Definition schemaProps (s : Schema) : gmap string PropSchema :=
  properties s ?? ∅.

(** The properties kept by [entries.filter(...)]: those of string type. *)
Definition stringProps (props : gmap string PropSchema) : gmap string PropSchema :=
  filter (λ kv, is_string_prop kv.2 = true) props.

(** [pickPrimaryArgument(schema)]; [None] is the source's [null]. *)
Definition pickPrimaryArgument (schema : option Schema) : option string :=
  match schema with
  | None => None
  | Some s =>
      if negb (bool_decide (schema_type s = Some "object")) then None
      else
        let props := schemaProps s in
        if bool_decide (is_Some (props !! "query")) then Some "query"
        else if bool_decide (is_Some (props !! "question")) then Some "question"
        else
          let entries := (map_to_list props).*1 in
          match the_only entries with
          | Some k => Some k
          | None =>
              let stringOnly := (map_to_list (stringProps props)).*1 in
              the_only stringOnly
          end
  end.

(** ** Transport selection *)

(** The closure stored in an attempt's [create] field: the transport class
    it will construct, the URL it will parse and the headers it captured. *)
Inductive Factory :=
| NewStreamableHTTP (url : string) (requestInit : gmap string string)
| NewSSE (url : string) (eventSourceInit requestInit : gmap string string).

Definition factory_url (f : Factory) : string :=
  match f with
  | NewStreamableHTTP u _ => u
  | NewSSE u _ _ => u
  end.

Record Attempt := { label : string; create : Factory }.

(** The argument object of [connectWithFallback] and
    [buildTransportAttempts]. *)
Record InitOptions := {
  io_headers : gmap string string;
  io_requestInit : gmap string string;
  io_transportPreference : string;
  io_sseUrl : string;
  io_streamableUrl : string
}.

(** The two attempts [buildTransportAttempts] can push. *)
Definition streamableAttempt (o : InitOptions) : Attempt :=
  {| label := "streamable-http @ " +:+ io_streamableUrl o;
     create := NewStreamableHTTP (io_streamableUrl o) (io_requestInit o) |}.

Definition sseAttempt (o : InitOptions) : Attempt :=
  {| label := "sse @ " +:+ io_sseUrl o;
     create := NewSSE (io_sseUrl o) (io_headers o) (io_requestInit o) |}.

Definition buildTransportAttempts (o : InitOptions) : list Attempt :=
  let normalizedPreference :=
    if bool_decide (io_transportPreference o ∈ ["sse"; "streamable"])
    then io_transportPreference o else "auto" in
  let attempts := [] in
  let attempts :=
    if String.eqb normalizedPreference "streamable" || String.eqb normalizedPreference "auto"
    then attempts ++ [streamableAttempt o]
    else attempts in
  let attempts :=
    if String.eqb normalizedPreference "sse" || String.eqb normalizedPreference "auto"
    then attempts ++ [sseAttempt o]
    else attempts in
  attempts.

(** ** The RPC library, as seen by the client *)

(** The [Client] object constructed for an attempt, and the transport a
    factory built. *)
Inductive ClientHandle := ClientFor (attemptLabel : string).
Inductive TransportHandle := BuiltBy (f : Factory).

Record CallRequest := { call_name : string; call_arguments : gmap string Js.value }.

(** The structured result of a tool call, kept opaque. *)
Record ToolResult := { content : list Js.value }.

Record Sdk := {
  (** [new URL(u)]: [Some e] when the constructor throws. *)
  newURL : string → option error;
  (** [candidateClient.connect(candidateTransport)] *)
  clientConnect : TransportHandle → settled unit;
  (** [client.close()] and [transport.close()] *)
  clientClose : ClientHandle → settled unit;
  transportClose : TransportHandle → settled unit;
  (** [client.listTools()] and [client.callTool(request)] *)
  listTools : ClientHandle → settled (list Tool);
  callTool : ClientHandle → CallRequest → settled ToolResult
}.

Inductive event :=
| EvSequence                                           (* connectWithFallback entered *)
| EvCreate (attemptLabel : string)                     (* attempt.create() *)
| EvConnect (attemptLabel : string)                    (* candidateClient.connect(...) *)
| EvWarn (attemptLabel : string) (e : error)           (* console.warn('Transport "..." failed: ...') *)
| EvClientClose (h : ClientHandle) (r : settled unit)  (* close() called, outcome swallowed *)
| EvTransportClose (h : TransportHandle) (r : settled unit)
| EvListTools (h : ClientHandle)
| EvCallTool (h : ClientHandle) (request : CallRequest).

(** [attempt.create()]: the factory parses its URL and constructs the
    transport; a URL that does not parse makes it throw. *)
Definition invoke (sdk : Sdk) (f : Factory) : settled TransportHandle :=
  match newURL sdk (factory_url f) with
  | Some e => Rejected e
  | None => Fulfilled (BuiltBy f)
  end.

Record Connection := {
  conn_client : ClientHandle;
  conn_transport : TransportHandle;
  conn_connectionLabel : string
}.

(** The [for (const attempt of attempts)] loop of [connectWithFallback] with
    its [lastError] variable, followed by the final [throw]. The factory is
    called before the [try] block is entered. *)
Fixpoint tryAttempts (sdk : Sdk) (attempts : list Attempt) (lastError : option error)
  : settled Connection * list event :=
  match attempts with
  | [] => (Rejected (lastError ?? AllTransportsFailed), [])
  | attempt :: rest =>
      let candidateClient := ClientFor (label attempt) in
      match invoke sdk (create attempt) with
      | Rejected thrown => (Rejected thrown, [EvCreate (label attempt)])
      | Fulfilled candidateTransport =>
          match clientConnect sdk candidateTransport with
          | Fulfilled _ =>
              (Fulfilled {| conn_client := candidateClient;
                            conn_transport := candidateTransport;
                            conn_connectionLabel := label attempt |},
               [EvCreate (label attempt); EvConnect (label attempt)])
          | Rejected err =>
              let '(r, evs) := tryAttempts sdk rest (Some err) in
              (r, [EvCreate (label attempt); EvConnect (label attempt);
                   EvWarn (label attempt) err;
                   EvClientClose candidateClient (clientClose sdk candidateClient);
                   EvTransportClose candidateTransport (transportClose sdk candidateTransport)]
                  ++ evs)
          end
      end
  end.

Definition connectWithFallback (sdk : Sdk) (initOptions : InitOptions)
  : settled Connection * list event :=
  let attempts := buildTransportAttempts initOptions in
  if bool_decide (length attempts = 0) then (Rejected NoTransportAttempts, [])
  else tryAttempts sdk attempts None.

(** ** The session client, [McpChatClient] *)

(** [process.env], with [MCP_EXTRA_ARGS] already passed through
    [safeParseJson] ([None] when unset or not valid JSON). *)
Record Env := {
  MCP_SSE_URL : option string;
  MCP_SERVER_URL : option string;
  MCP_STREAMABLE_URL : option string;
  MCP_API_KEY : option string;
  CISCO_DOCS_API_KEY : option string;
  X_API_KEY : option string;
  MCP_TOOL_NAME : option string;
  MCP_TRANSPORT : option string;
  MCP_EXTRA_ARGS : option (gmap string Js.value);
  MCP_PRODUCT : option string;
  DOCS_PRODUCT : option string
}.

Definition empty_env : Env :=
  {| MCP_SSE_URL := None; MCP_SERVER_URL := None; MCP_STREAMABLE_URL := None;
     MCP_API_KEY := None; CISCO_DOCS_API_KEY := None; X_API_KEY := None;
     MCP_TOOL_NAME := None; MCP_TRANSPORT := None; MCP_EXTRA_ARGS := None;
     MCP_PRODUCT := None; DOCS_PRODUCT := None |}.

(** The constructor's [options] object. *)
Record Options := {
  opt_sseUrl : option string;
  opt_streamableUrl : option string;
  opt_apiKey : option string;
  opt_toolName : option string;
  opt_transportPreference : option string;
  opt_staticArgs : option (gmap string Js.value);
  opt_product : option string;
  opt_useProcessEnv : option bool
}.

Definition no_options : Options :=
  {| opt_sseUrl := None; opt_streamableUrl := None; opt_apiKey := None;
     opt_toolName := None; opt_transportPreference := None;
     opt_staticArgs := None; opt_product := None; opt_useProcessEnv := None |}.

(** The suspended body of [#connectInternal]: which [await] it stopped at. *)
Inductive Task :=
| AwaitFallback (initOptions : InitOptions)   (* await connectWithFallback({...}) *)
| AwaitListTools (h : ClientHandle).          (* await this.client.listTools() *)

(** The promise stored in [connectPromise]. A pending promise of an async
    function is its suspended body; a promise of [#connectInternal] that is
    stored and settled can only be the one rejected before the [try]. *)
Inductive Promise :=
| Pending (k : Task)
| RejectedWith (e : error).

Record McpChatClient := {
  sseUrl : string;
  streamableUrl : string;
  apiKey : option string;
  toolName : string;
  transportPreference : string;
  staticArgs : gmap string Js.value;
  productFilter : option string;
  client : option ClientHandle;
  transport : option TransportHandle;
  connectionLabel : string;
  primaryArgKey : string;
  selectedTool : option Tool;
  connectPromise : option Promise
}.

Definition DEFAULT_SSE_URL := "https://docs-ai.cloudapps.cisco.com/mcp/sse".
Definition DEFAULT_TOOL_NAME := "ask_cisco_documentation".

(** [urlString.replace(/\/sse\/?$/i, '')]: the match, if any, is the suffix
    [/sse] or [/sse/] in any letter case. *)
Fixpoint dropSseSuffix (s : string) : string :=
  match s with
  | EmptyString => EmptyString
  | String a rest =>
      let low := Js.toLowerCase s in
      if String.eqb low "/sse" || String.eqb low "/sse/" then EmptyString
      else String a (dropSseSuffix rest)
  end.

Definition stripSseSuffix (urlString : string) : string :=
  if negb (Js.nonempty urlString) then urlString else dropSseSuffix urlString.

(** [value.trim() || null] *)
Definition trimmedOrNull (value : string) : option string :=
  if Js.nonempty (Js.trim value) then Some (Js.trim value) else None.

(** [new McpChatClient(options)] under the ambient [process.env]. *)
Definition newMcpChatClient (processEnv : Env) (options : Options) : McpChatClient :=
  let useEnv := negb (bool_decide (opt_useProcessEnv options = Some false)) in
  let env := if useEnv then processEnv else empty_env in
  let sseUrl_ :=
    opt_sseUrl options ??? MCP_SSE_URL env ??? MCP_SERVER_URL env ?? DEFAULT_SSE_URL in
  let initialProduct := opt_product options ??? MCP_PRODUCT env ??? DOCS_PRODUCT env ?? "" in
  {| sseUrl := sseUrl_;
     (* [stripSseSuffix] returns a string here, so the literal that closes
        the source's [??] chain is never reached *)
     streamableUrl :=
       opt_streamableUrl options ??? MCP_STREAMABLE_URL env ?? stripSseSuffix sseUrl_;
     apiKey :=
       opt_apiKey options ??? MCP_API_KEY env ??? CISCO_DOCS_API_KEY env ??? X_API_KEY env;
     toolName := opt_toolName options ??? MCP_TOOL_NAME env ?? DEFAULT_TOOL_NAME;
     transportPreference :=
       Js.toLowerCase (opt_transportPreference options ??? MCP_TRANSPORT env ?? "auto");
     staticArgs := opt_staticArgs options ??? MCP_EXTRA_ARGS env ?? ∅;
     productFilter := trimmedOrNull initialProduct;
     client := None;
     transport := None;
     connectionLabel := "";
     primaryArgKey := "query";
     selectedTool := None;
     connectPromise := None |}.

Definition isConnected (this : McpChatClient) : bool :=
  bool_decide (is_Some (client this)).

Definition getProductFilter (this : McpChatClient) : option string := productFilter this.

Definition getConnectionLabel (this : McpChatClient) : string := connectionLabel this.

(** Field assignments. *)
Definition set_productFilter (v : option string) (this : McpChatClient) : McpChatClient :=
  {| sseUrl := sseUrl this; streamableUrl := streamableUrl this; apiKey := apiKey this;
     toolName := toolName this; transportPreference := transportPreference this;
     staticArgs := staticArgs this; productFilter := v;
     client := client this; transport := transport this;
     connectionLabel := connectionLabel this; primaryArgKey := primaryArgKey this;
     selectedTool := selectedTool this; connectPromise := connectPromise this |}.

Definition set_connectPromise (p : option Promise) (this : McpChatClient) : McpChatClient :=
  {| sseUrl := sseUrl this; streamableUrl := streamableUrl this; apiKey := apiKey this;
     toolName := toolName this; transportPreference := transportPreference this;
     staticArgs := staticArgs this; productFilter := productFilter this;
     client := client this; transport := transport this;
     connectionLabel := connectionLabel this; primaryArgKey := primaryArgKey this;
     selectedTool := selectedTool this; connectPromise := p |}.

(** [this.client = ...; this.transport = ...; this.connectionLabel = ...] *)
Definition set_connection (c : option ClientHandle) (t : option TransportHandle)
    (l : string) (this : McpChatClient) : McpChatClient :=
  {| sseUrl := sseUrl this; streamableUrl := streamableUrl this; apiKey := apiKey this;
     toolName := toolName this; transportPreference := transportPreference this;
     staticArgs := staticArgs this; productFilter := productFilter this;
     client := c; transport := t; connectionLabel := l;
     primaryArgKey := primaryArgKey this;
     selectedTool := selectedTool this; connectPromise := connectPromise this |}.

Definition set_selectedTool (t : option Tool) (this : McpChatClient) : McpChatClient :=
  {| sseUrl := sseUrl this; streamableUrl := streamableUrl this; apiKey := apiKey this;
     toolName := toolName this; transportPreference := transportPreference this;
     staticArgs := staticArgs this; productFilter := productFilter this;
     client := client this; transport := transport this;
     connectionLabel := connectionLabel this; primaryArgKey := primaryArgKey this;
     selectedTool := t; connectPromise := connectPromise this |}.

Definition set_primaryArgKey (k : string) (this : McpChatClient) : McpChatClient :=
  {| sseUrl := sseUrl this; streamableUrl := streamableUrl this; apiKey := apiKey this;
     toolName := toolName this; transportPreference := transportPreference this;
     staticArgs := staticArgs this; productFilter := productFilter this;
     client := client this; transport := transport this;
     connectionLabel := connectionLabel this; primaryArgKey := k;
     selectedTool := selectedTool this; connectPromise := connectPromise this |}.

(** [value?.trim() ? value.trim() : null], returning the stored filter. *)
Definition setProductFilter (value : option string) (this : McpChatClient)
  : option string * McpChatClient :=
  let v := match value with
           | Some s => trimmedOrNull s
           | None => None
           end in
  (v, set_productFilter v this).

(** [!this.apiKey]: absent or empty. *)
Definition apiKey_missing (this : McpChatClient) : bool :=
  match apiKey this with
  | Some k => negb (Js.nonempty k)
  | None => true
  end.

(** The [headers] and [requestInit] objects and the three fields that
    [#connectInternal] hands to [connectWithFallback]. *)
Definition initOptionsOf (this : McpChatClient) : InitOptions :=
  let headers : gmap string string := {[ "X-API-Key" := apiKey this ?? "" ]} in
  {| io_headers := headers;
     io_requestInit := <[ "Content-Type" := "application/json" ]> headers;
     io_transportPreference := transportPreference this;
     io_sseUrl := sseUrl this;
     io_streamableUrl := streamableUrl this |}.

(** [#connectInternal()] up to its first suspension. Without an API key the
    function throws before entering [try], so the promise it returns is
    already rejected and the [finally] block never runs. Otherwise it is
    suspended on [connectWithFallback], called with the options read at this
    point. *)
Definition connectInternal_start (this : McpChatClient) : Promise * list event :=
  if apiKey_missing this then (RejectedWith MissingApiKey, [])
  else (Pending (AwaitFallback (initOptionsOf this)), [EvSequence]).

(** The [finally] block followed by the settlement of the async function. *)
Definition finish (r : settled unit) (this : McpChatClient)
  : settled unit * McpChatClient :=
  (r, set_connectPromise None this).

(** [#connectInternal] resumed when [connectWithFallback] settles: on
    success the three handles are stored and [listTools] is awaited (second
    component [inr]); on failure the function ends through [finally]. *)
Definition afterFallback (sdk : Sdk) (initOptions : InitOptions) (this : McpChatClient)
  : (settled unit + ClientHandle) * McpChatClient * list event :=
  match connectWithFallback sdk initOptions with
  | (Rejected e, evs) =>
      let '(r, this') := finish (Rejected e) this in (inl r, this', evs)
  | (Fulfilled conn, evs) =>
      let this1 := set_connection (Some (conn_client conn)) (Some (conn_transport conn))
                     (conn_connectionLabel conn) this in
      (inr (conn_client conn),
       set_connectPromise (Some (Pending (AwaitListTools (conn_client conn)))) this1,
       evs ++ [EvListTools (conn_client conn)])
  end.

(** [tools.find((tool) => tool.name === this.toolName)] *)
Definition findTool (tools : list Tool) (wanted : string) : option Tool :=
  List.find (λ tool, String.eqb (tool_name tool) wanted) tools.

(** [#connectInternal] resumed when [listTools()] settles. *)
Definition afterListTools (sdk : Sdk) (h : ClientHandle) (this : McpChatClient)
  : settled unit * McpChatClient :=
  match listTools sdk h with
  | Rejected e => finish (Rejected e) this
  | Fulfilled tools =>
      let this1 := set_selectedTool (findTool tools (toolName this)) this in
      match selectedTool this1 with
      | None => finish (Rejected (ToolNotExposed (toolName this1))) this1
      | Some tool =>
          finish (Fulfilled ())
            (set_primaryArgKey
               (pickPrimaryArgument (inputSchema tool) ?? primaryArgKey this1) this1)
      end
  end.

(** Awaiting a pending [connectPromise] with nothing else interleaved: the
    suspended body runs to its end. *)
Definition awaitTask (sdk : Sdk) (k : Task) (this : McpChatClient)
  : settled unit * McpChatClient * list event :=
  match k with
  | AwaitFallback initOptions =>
      match afterFallback sdk initOptions this with
      | (inl r, this1, evs) => (r, this1, evs)
      | (inr h, this1, evs) => (afterListTools sdk h this1, evs)
      end
  | AwaitListTools h => (afterListTools sdk h this, [])
  end.

(** [connect()], run to completion. *)
Definition connect (sdk : Sdk) (this : McpChatClient)
  : settled unit * McpChatClient * list event :=
  if isConnected this then (Fulfilled (), this, [])
  else
    let '(p, evs0) :=
      match connectPromise this with
      | Some p => (p, [])
      | None => connectInternal_start this
      end in
    let this0 := set_connectPromise (Some p) this in
    match p with
    | RejectedWith e => (Rejected e, this0, evs0)
    | Pending k =>
        let '(r, this1, evs) := awaitTask sdk k this0 in (r, this1, evs0 ++ evs)
    end.

(** The argument object built by [ask]: [{...staticArgs, ...argOverrides}],
    then the question under the primary key, then the product filter when
    it is set and [args.product] is falsy. *)
Definition buildArgs (this : McpChatClient) (trimmed : string)
    (argOverrides : gmap string Js.value) : gmap string Js.value :=
  let args := argOverrides ∪ staticArgs this in
  let args := <[ primaryArgKey this := Js.VStr trimmed ]> args in
  match productFilter this with
  | Some filter =>
      if Js.nonempty filter && negb (Js.truthy_at args "product")
      then <[ "product" := Js.VStr filter ]> args
      else args
  | None => args
  end.

(** [if (!this.client) { await this.connect(); }] *)
Definition ensureConnected (sdk : Sdk) (this : McpChatClient)
  : settled unit * McpChatClient * list event :=
  if isConnected this then (Fulfilled (), this, []) else connect sdk this.

(** [ask(question, argOverrides)], run to completion; [question] is [None]
    for a nullish argument. *)
Definition ask (sdk : Sdk) (question : option string)
    (argOverrides : gmap string Js.value) (this : McpChatClient)
  : settled ToolResult * McpChatClient * list event :=
  match Js.trim <$> question with
  | None => (Rejected QuestionEmpty, this, [])
  | Some trimmed =>
      if negb (Js.nonempty trimmed) then (Rejected QuestionEmpty, this, [])
      else
        let '(r, this1, evs) := ensureConnected sdk this in
        match r with
        | Rejected e => (Rejected e, this1, evs)
        | Fulfilled _ =>
            match client this1, selectedTool this1 with
            | Some h, Some _ =>
                let request := {| call_name := toolName this1;
                                  call_arguments := buildArgs this1 trimmed argOverrides |} in
                (callTool sdk h request, this1, evs ++ [EvCallTool h request])
            | _, _ => (Rejected ClientNotConnected, this1, evs)
            end
        end
  end.

(** [close()]: both handles are closed when present, whatever their
    [close] answers, and four fields are reset. *)
Definition close (sdk : Sdk) (this : McpChatClient) : McpChatClient * list event :=
  let evs1 := match client this with
              | Some h => [EvClientClose h (clientClose sdk h)]
              | None => []
              end in
  let evs2 := match transport this with
              | Some t => [EvTransportClose t (transportClose sdk t)]
              | None => []
              end in
  (set_selectedTool None (set_connection None None "" this), evs1 ++ evs2).

(** ** Interleaved [connect()] calls

    JavaScript runs one task at a time; other calls on the same object can
    run only while [#connectInternal] is suspended at one of its two
    [await]s. A schedule is a sequence of [connect()] calls by numbered
    callers and of resumptions of the suspended body. [connectWithFallback]
    never reads the object, so its run between the call and the first
    resumption is taken as one step. *)

Inductive action :=
| Call (caller : nat)   (* some caller invokes connect() *)
| Resume.               (* the awaited operation settles and the body continues *)

Record Runtime := {
  this_ : McpChatClient;
  waiting : list nat;                     (* callers suspended in [await this.connectPromise] *)
  outcomes : list (nat * settled unit);   (* settled connect() calls, oldest first *)
  trace : list event
}.

Definition boot (this : McpChatClient) : Runtime :=
  {| this_ := this; waiting := []; outcomes := []; trace := [] |}.

(** One [connect()] call up to its [await]. *)
Definition step_call (caller : nat) (rt : Runtime) : Runtime :=
  let this := this_ rt in
  if isConnected this then
    {| this_ := this; waiting := waiting rt;
       outcomes := outcomes rt ++ [(caller, Fulfilled ())]; trace := trace rt |}
  else
    let '(p, evs0) :=
      match connectPromise this with
      | Some p => (p, [])
      | None => connectInternal_start this
      end in
    let this0 := set_connectPromise (Some p) this in
    match p with
    | RejectedWith e =>
        {| this_ := this0; waiting := waiting rt;
           outcomes := outcomes rt ++ [(caller, Rejected e)]; trace := trace rt ++ evs0 |}
    | Pending _ =>
        {| this_ := this0; waiting := waiting rt ++ [caller];
           outcomes := outcomes rt; trace := trace rt ++ evs0 |}
    end.

(** The promise of [#connectInternal] settles with [r]: every caller
    awaiting it resumes with that settlement. *)
Definition settle_waiters (r : settled unit) (this : McpChatClient) (evs : list event)
    (rt : Runtime) : Runtime :=
  {| this_ := this; waiting := [];
     outcomes := outcomes rt ++ ((λ w, (w, r)) <$> waiting rt);
     trace := trace rt ++ evs |}.

(** The suspended body, if there is one, continues to its next [await] or
    to its end. *)
Definition step_resume (sdk : Sdk) (rt : Runtime) : Runtime :=
  match connectPromise (this_ rt) with
  | Some (Pending (AwaitFallback initOptions)) =>
      match afterFallback sdk initOptions (this_ rt) with
      | (inl r, this1, evs) => settle_waiters r this1 evs rt
      | (inr _, this1, evs) =>
          {| this_ := this1; waiting := waiting rt; outcomes := outcomes rt;
             trace := trace rt ++ evs |}
      end
  | Some (Pending (AwaitListTools h)) =>
      let '(r, this1) := afterListTools sdk h (this_ rt) in settle_waiters r this1 [] rt
  | _ => rt
  end.

Definition step (sdk : Sdk) (rt : Runtime) (a : action) : Runtime :=
  match a with
  | Call caller => step_call caller rt
  | Resume => step_resume sdk rt
  end.

Definition run (sdk : Sdk) (schedule : list action) (rt : Runtime) : Runtime :=
  fold_left (step sdk) schedule rt.

(** The settlement a caller's [connect()] ended with, if it has ended. *)
Definition outcome_of (caller : nat) (rt : Runtime) : option (settled unit) :=
  snd <$> List.find (λ o, Nat.eqb (fst o) caller) (outcomes rt).

(** Number of fallback sequences started so far. *)
Definition is_sequence (e : event) : bool :=
  match e with EvSequence => true | _ => false end.

Definition sequences (evs : list event) : nat :=
  length (List.filter is_sequence evs).

(** ** The target registry, [ChatTargetManager] *)

(** An entry of the constructor's [targets] array and its normal form. *)
Record TargetEntry := {
  entry_name : string;
  entry_options : option Options;
  entry_useProcessEnv : option bool
}.

Record Target := {
  name : string;
  options : Options;
  useProcessEnv : bool
}.

(** A reference to a [McpChatClient] object: its index in the store. *)
Definition Ref := nat.

Record ChatTargetManager := {
  targets : list Target;
  clients : gmap string Ref;      (* the Map from target name to client *)
  defaultTargetName : string
}.

(** The objects the registry's methods act on: every [McpChatClient]
    constructed so far, in construction order, and the manager itself. *)
Record World := {
  store : list McpChatClient;
  manager : ChatTargetManager
}.

(** Methods as state transformers that may throw. *)
Definition M (A : Type) : Type := World → settled A * World.

#[global] Instance M_ret : MRet M := λ A a w, (Fulfilled a, w).
#[global] Instance M_bind : MBind M := λ A B f m w,
  match m w with
  | (Fulfilled a, w') => f a w'
  | (Rejected e, w') => (Rejected e, w')
  end.

Definition throw {A} (e : error) : M A := λ w, (Rejected e, w).
Definition getManager : M ChatTargetManager := λ w, (Fulfilled (manager w), w).
Definition putManager (m : ChatTargetManager) : M unit :=
  λ w, (Fulfilled (), {| store := store w; manager := m |}).
(** [new McpChatClient(options)]: a new object at the end of the store. *)
Definition allocClient (processEnv : Env) (o : Options) : M Ref :=
  λ w, (Fulfilled (length (store w)),
        {| store := store w ++ [newMcpChatClient processEnv o]; manager := manager w |}).
Definition readClient (r : Ref) : M (option McpChatClient) :=
  λ w, (Fulfilled (store w !! r), w).

(** [new ChatTargetManager(targets)]; [None] for a nullish argument. *)
Definition newChatTargetManager (entries : option (list TargetEntry))
  : settled ChatTargetManager :=
  match entries with
  | None | Some [] => Rejected NoTargetConfigured
  | Some (first :: rest) =>
      let normalize (target : TargetEntry) : Target :=
        {| name := entry_name target;
           options := entry_options target ?? no_options;
           useProcessEnv := entry_useProcessEnv target ?? false |} in
      Fulfilled {| targets := normalize <$> (first :: rest);
                   clients := ∅;
                   defaultTargetName := entry_name first |}
  end.

Definition findTarget (m : ChatTargetManager) (wanted : string) : option Target :=
  List.find (λ t, String.eqb (name t) wanted) (targets m).

Definition getTargetNames (m : ChatTargetManager) : list string := name <$> targets m.

Definition hasTarget (m : ChatTargetManager) (wanted : string) : bool :=
  existsb (λ t, String.eqb (name t) wanted) (targets m).

Definition setDefaultTarget (wanted : string) : M unit :=
  m ← getManager;
  if negb (hasTarget m wanted) then throw (UnknownTarget wanted)
  else putManager {| targets := targets m; clients := clients m;
                     defaultTargetName := wanted |}.

Definition getDefaultTarget : M string :=
  m ← getManager; mret (defaultTargetName m).

(** [{ ...target.options, useProcessEnv: target.useProcessEnv }] *)
Definition clientOptions (target : Target) : Options :=
  let o := options target in
  {| opt_sseUrl := opt_sseUrl o; opt_streamableUrl := opt_streamableUrl o;
     opt_apiKey := opt_apiKey o; opt_toolName := opt_toolName o;
     opt_transportPreference := opt_transportPreference o;
     opt_staticArgs := opt_staticArgs o; opt_product := opt_product o;
     opt_useProcessEnv := Some (useProcessEnv target) |}.

(** [getClient(targetName)]; the result is the reference held by the Map. *)
Definition getClient (processEnv : Env) (targetName : option string) : M Ref :=
  m ← getManager;
  let wanted := targetName ?? defaultTargetName m in
  match findTarget m wanted with
  | None => throw (UnknownTarget wanted)
  | Some target =>
      match clients m !! wanted with
      | Some r => mret r
      | None =>
          r ← allocClient processEnv (clientOptions target);
          putManager {| targets := targets m; clients := <[ wanted := r ]> (clients m);
                        defaultTargetName := defaultTargetName m |};;
          mret r
      end
  end.

(** [closeAll()]: every cached client is closed, then the Map is cleared. *)
Definition closeAll (sdk : Sdk) : M unit :=
  λ w,
    let closeAt (h : list McpChatClient) (r : Ref) :=
      match h !! r with
      | Some c => <[ r := (close sdk c).1 ]> h
      | None => h
      end in
    (Fulfilled (),
     {| store := fold_left closeAt (map_to_list (clients (manager w))).*2 (store w);
        manager := {| targets := targets (manager w); clients := ∅;
                      defaultTargetName := defaultTargetName (manager w) |} |}).

Record Summary := {
  sum_name : string;
  sum_productFilter : option string;
  sum_connected : bool;
  sum_connectionLabel : string
}.

(** [getTargetSummary(name)]; [None] is the source's [null]. *)
Definition getTargetSummary (wanted : string) : M (option Summary) :=
  m ← getManager;
  match findTarget m wanted with
  | None => mret None
  | Some target =>
      cached ← match clients m !! wanted with
               | Some r => readClient r
               | None => mret None
               end;
      mret (Some {| sum_name := wanted;
                    sum_productFilter :=
                      (cached ≫= getProductFilter) ??? opt_product (options target);
                    sum_connected := (isConnected <$> cached) ?? false;
                    sum_connectionLabel := (getConnectionLabel <$> cached) ?? "" |})
  end.

(** ** Histories *)

(** What one attempt of the fallback sequence ends with: the factory may
    throw, and the connect over the built transport may be rejected. *)
Definition attemptResult (sdk : Sdk) (a : Attempt) : settled unit :=
  match invoke sdk (create a) with
  | Rejected e => Rejected e
  | Fulfilled t => clientConnect sdk t
  end.

(** The factory of the attempt returns a transport. *)
Definition builds (sdk : Sdk) (a : Attempt) : Prop :=
  newURL sdk (factory_url (create a)) = None.

(** The attempt does not produce a connection. *)
Definition fails (sdk : Sdk) (a : Attempt) : Prop :=
  is_fulfilled (attemptResult sdk a) = false.

(** Labels of the attempts whose factory was called, in order. *)
Definition created (evs : list event) : list string :=
  omap (λ e, match e with EvCreate l => Some l | _ => None end) evs.

(** Labels that were warned about, in order. *)
Definition warned (evs : list event) : list string :=
  omap (λ e, match e with EvWarn l _ => Some l | _ => None end) evs.

(** Sequential use of one session client: each operation runs to its end
    before the next starts, each against whatever the servers answer then. *)
Inductive sessionOp :=
| DoConnect (sdk : Sdk)
| DoClose (sdk : Sdk).

Definition execSession (this : McpChatClient) (o : sessionOp) : McpChatClient :=
  match o with
  | DoConnect sdk => (connect sdk this).1.2
  | DoClose sdk => (close sdk this).1
  end.

Definition runSession (ops : list sessionOp) (this : McpChatClient) : McpChatClient :=
  fold_left execSession ops this.

(** Use of a registry: its own methods, and anything that changes the state
    of one client object (a connect that fails, a new filter, a close). *)
Inductive registryOp :=
| OpGetClient (targetName : option string)
| OpSetDefaultTarget (wanted : string)
| OpGetTargetSummary (wanted : string)
| OpOnClient (r : Ref) (change : McpChatClient → McpChatClient)
| OpCloseAll (sdk : Sdk).

Definition isCloseAll (o : registryOp) : bool :=
  match o with OpCloseAll _ => true | _ => false end.

Definition execRegistry (processEnv : Env) (w : World) (o : registryOp) : World :=
  match o with
  | OpGetClient targetName => (getClient processEnv targetName w).2
  | OpSetDefaultTarget wanted => (setDefaultTarget wanted w).2
  | OpGetTargetSummary wanted => (getTargetSummary wanted w).2
  | OpOnClient r change =>
      {| store := match store w !! r with
                  | Some c => <[ r := change c ]> (store w)
                  | None => store w
                  end;
         manager := manager w |}
  | OpCloseAll sdk => (closeAll sdk w).2
  end.

Definition runRegistry (processEnv : Env) (ops : list registryOp) (w : World) : World :=
  fold_left (execRegistry processEnv) ops w.

(** ** Scenarios used as concrete inputs *)

Definition propsOf (l : list (string * option string)) : gmap string PropSchema :=
  list_to_map ((λ kt, (kt.1, {| prop_type := kt.2 |})) <$> l).

Definition objectSchema (l : list (string * option string)) : Schema :=
  {| schema_type := Some "object"; properties := Some (propsOf l) |}.

Definition docsTool (s : Schema) : Tool :=
  {| tool_name := DEFAULT_TOOL_NAME; inputSchema := Some s |}.

Definition otherTool : Tool :=
  {| tool_name := "search_bugs"; inputSchema := Some (objectSchema [("query", Some "string")]) |}.

(** A server that accepts both transports and advertises [tools]. *)
Definition reachable (tools : list Tool) : Sdk :=
  {| newURL := λ _, None;
     clientConnect := λ _, Fulfilled ();
     clientClose := λ _, Fulfilled ();
     transportClose := λ _, Fulfilled ();
     listTools := λ _, Fulfilled tools;
     callTool := λ _ _, Fulfilled {| content := [] |} |}.

(** A server that answers on the SSE endpoint only; closing a handle that
    never connected is rejected as well. *)
Definition sseOnly (tools : list Tool) : Sdk :=
  {| newURL := λ _, None;
     clientConnect := λ t, match t with
                           | BuiltBy (NewSSE _ _ _) => Fulfilled ()
                           | BuiltBy (NewStreamableHTTP _ _) => Rejected (SdkError "HTTP 404")
                           end;
     clientClose := λ _, Rejected (SdkError "Not connected");
     transportClose := λ _, Rejected (SdkError "Not connected");
     listTools := λ _, Fulfilled tools;
     callTool := λ _ _, Fulfilled {| content := [] |} |}.

(** No endpoint answers. *)
Definition unreachable : Sdk :=
  {| newURL := λ _, None;
     clientConnect := λ t, match t with
                           | BuiltBy (NewSSE _ _ _) => Rejected (SdkError "ECONNREFUSED sse")
                           | BuiltBy (NewStreamableHTTP _ _) => Rejected (SdkError "ECONNREFUSED http")
                           end;
     clientClose := λ _, Fulfilled ();
     transportClose := λ _, Fulfilled ();
     listTools := λ _, Rejected (SdkError "Not connected");
     callTool := λ _ _, Rejected (SdkError "Not connected") |}.

(** As [reachable], with a [URL] constructor that insists on a scheme. *)
Definition strictUrls (tools : list Tool) : Sdk :=
  {| newURL := λ u, if String.prefix "http" u then None else Some (SdkError "Invalid URL");
     clientConnect := λ _, Fulfilled ();
     clientClose := λ _, Fulfilled ();
     transportClose := λ _, Fulfilled ();
     listTools := λ _, Fulfilled tools;
     callTool := λ _ _, Fulfilled {| content := [] |} |}.

Definition withKey : Options :=
  {| opt_sseUrl := None; opt_streamableUrl := None; opt_apiKey := Some "secret";
     opt_toolName := None; opt_transportPreference := None;
     opt_staticArgs := None; opt_product := None; opt_useProcessEnv := Some false |}.

(** A fresh client with a key and the default endpoints. *)
Definition freshClient : McpChatClient := newMcpChatClient empty_env withKey.


(** The value an argument name receives from the first three sources, read
    in decreasing precedence: the question under the primary key, then the
    caller's overrides, then the static arguments. *)
Definition mergedArg (this : McpChatClient) (trimmed : string)
    (argOverrides : gmap string Js.value) (k : string) : option Js.value :=
  if decide (k = primaryArgKey this) then Some (Js.VStr trimmed)
  else match argOverrides !! k with
       | Some v => Some v
       | None => staticArgs this !! k
       end.

(** The spec's sample schema [{a: string, b: number}]. *)
Definition abSchema : Schema := objectSchema [("a", Some "string"); ("b", Some "number")].

(** Properties [{question, other}] in a schema that does not declare
    [type: 'object']. *)
Definition untypedSchema : Schema :=
  {| schema_type := None;
     properties := Some (propsOf [("question", Some "string"); ("other", Some "string")]) |}.

(** A client configured with the product filter [ACI], connected to a
    server that advertises the documentation tool. *)
Definition aciClient : McpChatClient :=
  (connect (reachable [docsTool (objectSchema [("query", Some "string")])])
     (newMcpChatClient empty_env
        {| opt_sseUrl := None; opt_streamableUrl := None; opt_apiKey := Some "secret";
           opt_toolName := None; opt_transportPreference := None;
           opt_staticArgs := None; opt_product := Some " ACI ";
           opt_useProcessEnv := Some false |})).1.2.

(** What an attempt whose connect is rejected leaves in the log: the factory
    call, the connect, the warning, and the two close calls. *)
Definition failureEvents (sdk : Sdk) (a : Attempt) : list event :=
  match clientConnect sdk (BuiltBy (create a)) with
  | Rejected err =>
      [EvCreate (label a); EvConnect (label a); EvWarn (label a) err;
       EvClientClose (ClientFor (label a)) (clientClose sdk (ClientFor (label a)));
       EvTransportClose (BuiltBy (create a)) (transportClose sdk (BuiltBy (create a)))]
  | Fulfilled _ => []
  end.

(** A client whose streamable endpoint was configured without a scheme. *)
Definition schemelessClient : McpChatClient :=
  newMcpChatClient empty_env
    {| opt_sseUrl := None; opt_streamableUrl := Some "docs.example.com/mcp";
       opt_apiKey := Some "secret"; opt_toolName := None;
       opt_transportPreference := None; opt_staticArgs := None; opt_product := None;
       opt_useProcessEnv := Some false |}.

(** A client constructed without any key. *)
Definition keylessClient : McpChatClient :=
  newMcpChatClient empty_env no_options.

(** Two entries under the same name, as in the spec's sample, with a key
    so that their client can try to connect. *)
Definition twinEntries : list TargetEntry :=
  [ {| entry_name := "A"; entry_options := Some withKey; entry_useProcessEnv := None |};
    {| entry_name := "A"; entry_options := None; entry_useProcessEnv := None |} ].

Definition managerOf (entries : list TargetEntry) : ChatTargetManager :=
  match newChatTargetManager (Some entries) with
  | Fulfilled m => m
  | Rejected _ => {| targets := []; clients := ∅; defaultTargetName := "" |}
  end.

Definition twinWorld : World := {| store := []; manager := managerOf twinEntries |}.

(** A target configured with a product, whose client was never requested. *)
Definition aciWorld : World :=
  {| store := [];
     manager := managerOf
       [ {| entry_name := "Docs";
            entry_options := Some
              {| opt_sseUrl := None; opt_streamableUrl := None; opt_apiKey := Some "secret";
                 opt_toolName := None; opt_transportPreference := None;
                 opt_staticArgs := None; opt_product := Some "ACI";
                 opt_useProcessEnv := None |};
            entry_useProcessEnv := None |} ] |}.

(** The spec's sample [{a: number, b: number}], from which nothing is
    inferred, and a schema whose only property is [topic]. *)
Definition numbersSchema : Schema := objectSchema [("a", Some "number"); ("b", Some "number")].
Definition topicSchema : Schema := objectSchema [("topic", Some "string")].

(** Strings of ASCII characters. On these the white space [Js.trim] removes
    is all the white space [String.prototype.trim] removes. *)
Fixpoint isAscii (s : string) : bool :=
  match s with
  | EmptyString => true
  | String c rest => (nat_of_ascii c <? 128)%nat && isAscii rest
  end.

(** A suffix that the pattern [/\/sse\/?$/i] matches. *)
Definition isSseSuffix (sfx : string) : Prop :=
  Js.toLowerCase sfx = "/sse" ∨ Js.toLowerCase sfx = "/sse/".

(** Client handles whose [close] was called, in order. *)
Definition closedClients (evs : list event) : list ClientHandle :=
  omap (λ e, match e with EvClientClose h _ => Some h | _ => None end) evs.

(** Transports whose [close] was called, in order. *)
Definition closedTransports (evs : list event) : list TransportHandle :=
  omap (λ e, match e with EvTransportClose h _ => Some h | _ => None end) evs.

(** The tool calls made, in order. *)
Definition toolCalls (evs : list event) : list (ClientHandle * CallRequest) :=
  omap (λ e, match e with EvCallTool h request => Some (h, request) | _ => None end) evs.

(** The callers named by a schedule, in order. *)
Definition callersOf (schedule : list action) : list nat :=
  omap (λ a, match a with Call caller => Some caller | Resume => None end) schedule.

(** Callers wait only while a body is suspended. *)
Definition waitersHaveBody (rt : Runtime) : Prop :=
  waiting rt = [] ∨ ∃ k, connectPromise (this_ rt) = Some (Pending k).

(** ** Formatting a tool result, [formatResultContent] *)

(** A content chunk, reduced to the three fields the formatter reads. *)
Record Chunk := {
  chunk_type : option string;
  chunk_text : option string;
  chunk_data : option Js.value
}.

(** The result as the formatter sees it: its [content] array, when it has
    one, and the whole result as a value, for the dump. *)
Record Formattable := {
  fr_content : option (list Chunk);
  fr_value : Js.value
}.

(** [v ?? {}] on values: [null] and [undefined] give the empty object. *)
Definition orEmptyObject (v : option Js.value) : Js.value :=
  match v with
  | None | Some Js.VNull => Js.VObj "{}"
  | Some v => v
  end.

(** The separator of [sections.join], two line feeds. *)
Definition blankLine : string := String (ascii_of_nat 10) (String (ascii_of_nat 10) "").

Definition noTextHeader : string :=
  "Tool returned no text content. Inspect full payload below:".

(** One turn of the loop over [content]: what it pushes to [sections].
    [stringify v] stands for [JSON.stringify(v, null, 2)]. *)
Definition renderChunk (stringify : Js.value → string) (chunk : Chunk) : list string :=
  match chunk_type chunk with
  | Some type =>
      if String.eqb type "text" then
        match Js.trim <$> chunk_text chunk with
        | Some trimmed => if Js.nonempty trimmed then [trimmed] else []
        | None => []
        end
      else if String.eqb type "object" then
        [stringify (orEmptyObject (chunk_data chunk))]
      else ["[" +:+ type +:+ " content not rendered]"]
  | None => ["[undefined content not rendered]"]
  end.

Definition renderContent (stringify : Js.value → string) (content : list Chunk)
  : list string :=
  concat (renderChunk stringify <$> content).

(** [formatResultContent(result)]; [None] is a nullish result. *)
Definition formatResultContent (stringify : Js.value → string)
    (result : option Formattable) : string :=
  let content := (result ≫= fr_content) ?? [] in
  let sections := renderContent stringify content in
  let sections :=
    match sections with
    | [] => [noTextHeader; stringify (orEmptyObject (fr_value <$> result))]
    | _ => sections
    end in
  String.concat blankLine sections.

(** A text chunk that the loop skips: no text, or only white space. *)
Definition blankText (chunk : Chunk) : bool :=
  match chunk_type chunk with
  | Some type =>
      String.eqb type "text" && negb (Js.nonempty (Js.trim (chunk_text chunk ?? "")))
  | None => false
  end.

(** ** Command lines *)

(** [arg.slice(n)] *)
Fixpoint slice (n : nat) (s : string) : string :=
  match n, s with
  | S n', String _ rest => slice n' rest
  | _, _ => s
  end.

(** [arg.split('=').slice(1).join('=')]: what follows the first [=]. *)
Fixpoint afterFirstEquals (s : string) : string :=
  match s with
  | EmptyString => EmptyString
  | String c rest => if Ascii.eqb c "="%char then rest else afterFirstEquals rest
  end.

Definition isOneOf (names : list string) (arg : string) : bool :=
  bool_decide (arg ∈ names).

Record CliArgs := {
  cli_question : string;
  productFromCli : option string;
  targetFromCli : option string
}.

(** The [for] loop of the chatbot's [parseCliArgs], with its three
    variables. A flag that takes the next element consumes it ([i += 1]);
    when there is none the value is the empty string. *)
Fixpoint parseCliArgs_loop (rawArgs remaining : list string)
    (productValue targetValue : option string)
  : list string * option string * option string :=
  match rawArgs with
  | [] => (remaining, productValue, targetValue)
  | arg :: rest =>
      if isOneOf ["--product"; "-p"] arg then
        match rest with
        | [] => (remaining, Some "", targetValue)
        | value :: rest' => parseCliArgs_loop rest' remaining (Some value) targetValue
        end
      else if String.prefix "--product=" arg then
        parseCliArgs_loop rest remaining (Some (slice 10 arg)) targetValue
      else if isOneOf ["--server"; "--target"; "-s"] arg then
        match rest with
        | [] => (remaining, productValue, Some "")
        | value :: rest' => parseCliArgs_loop rest' remaining productValue (Some value)
        end
      else if String.prefix "--server=" arg || String.prefix "--target=" arg then
        parseCliArgs_loop rest remaining productValue (Some (afterFirstEquals arg))
      else parseCliArgs_loop rest (remaining ++ [arg]) productValue targetValue
  end.

Definition parseCliArgs (rawArgs : list string) : CliArgs :=
  let '(remaining, productValue, targetValue) := parseCliArgs_loop rawArgs [] None None in
  {| cli_question := Js.trim (String.concat " " remaining);
     productFromCli := productValue;
     targetFromCli := Js.trim <$> targetValue |}.

(** An element the chatbot's loop keeps as a word of the question. *)
Definition plainWord (arg : string) : bool :=
  negb (isOneOf ["--product"; "-p"] arg)
  && negb (String.prefix "--product=" arg)
  && negb (isOneOf ["--server"; "--target"; "-s"] arg)
  && negb (String.prefix "--server=" arg || String.prefix "--target=" arg).

(** The pieces of a chatbot command line: a word of the question, or a
    product flag or a target flag, in either of its forms, with its value. *)
Inductive CliItem :=
| Word (word : string)
| ProductFlag (flag value : string)     (* [--product VALUE], [-p VALUE] *)
| ProductEquals (value : string)        (* [--product=VALUE] *)
| TargetFlag (flag value : string)      (* [--server VALUE], [--target VALUE], [-s VALUE] *)
| TargetEquals (flag value : string).   (* [--server=VALUE], [--target=VALUE] *)

Definition cliItemOk (item : CliItem) : bool :=
  match item with
  | Word word => plainWord word
  | ProductFlag flag _ => isOneOf ["--product"; "-p"] flag
  | ProductEquals _ => true
  | TargetFlag flag _ => isOneOf ["--server"; "--target"; "-s"] flag
  | TargetEquals flag _ => isOneOf ["--server"; "--target"] flag
  end.

(** The elements of [process.argv] a piece is typed as. *)
Definition cliElements (item : CliItem) : list string :=
  match item with
  | Word word => [word]
  | ProductFlag flag value => [flag; value]
  | ProductEquals value => ["--product=" +:+ value]
  | TargetFlag flag value => [flag; value]
  | TargetEquals flag value => [flag +:+ "=" +:+ value]
  end.

(** The words, the product values and the target values of a line, in
    order. *)
Definition cliWords (items : list CliItem) : list string :=
  omap (λ item, match item with Word word => Some word | _ => None end) items.

Definition cliProducts (items : list CliItem) : list string :=
  omap (λ item, match item with
                | ProductFlag _ value | ProductEquals value => Some value
                | _ => None
                end) items.

Definition cliTargets (items : list CliItem) : list string :=
  omap (λ item, match item with
                | TargetFlag _ value | TargetEquals _ value => Some value
                | _ => None
                end) items.

(** A question between and around flags of every form. *)
Definition mixedLine : list CliItem :=
  [Word "How"; TargetEquals "--server" " CDETs "; Word "do"; ProductFlag "-p" "Cisco ACI";
   TargetFlag "-s" "Docs AI Hub"; Word "I"; ProductEquals "NX-OS"; Word "upgrade?"].

Record ServerCliOptions := {
  srv_port : option string;
  srv_product : option string;
  srv_target : option string
}.

(** The loop of the web server's [parseServerCliArgs]: elements that are no
    flag are skipped, and [--port] takes the next element as it is. *)
Fixpoint parseServerCliArgs_loop (rawArgs : list string)
    (port product target : option string)
  : option string * option string * option string :=
  match rawArgs with
  | [] => (port, product, target)
  | arg :: rest =>
      if isOneOf ["--port"; "-P"] arg then
        match rest with
        | [] => (None, product, target)
        | value :: rest' => parseServerCliArgs_loop rest' (Some value) product target
        end
      else if String.prefix "--port=" arg then
        parseServerCliArgs_loop rest (Some (slice 7 arg)) product target
      else if isOneOf ["--product"; "-p"] arg then
        match rest with
        | [] => (port, Some "", target)
        | value :: rest' => parseServerCliArgs_loop rest' port (Some value) target
        end
      else if String.prefix "--product=" arg then
        parseServerCliArgs_loop rest port (Some (slice 10 arg)) target
      else if isOneOf ["--server"; "--target"; "-s"] arg then
        match rest with
        | [] => (port, product, Some "")
        | value :: rest' => parseServerCliArgs_loop rest' port product (Some value)
        end
      else if String.prefix "--server=" arg || String.prefix "--target=" arg then
        parseServerCliArgs_loop rest port product (Some (afterFirstEquals arg))
      else parseServerCliArgs_loop rest port product target
  end.

(** [trimmed ? trimmed : undefined] on an option that was set. *)
Definition trimmedOrUndefined (v : option string) : option string :=
  v ≫= trimmedOrNull.

Definition parseServerCliArgs (rawArgs : list string) : ServerCliOptions :=
  let '(port, product, target) := parseServerCliArgs_loop rawArgs None None None in
  {| srv_port := port;
     srv_product := trimmedOrUndefined product;
     srv_target := trimmedOrUndefined target |}.

(** An element the server's loop passes over. *)
Definition noServerFlag (arg : string) : bool :=
  negb (isOneOf ["--port"; "-P"] arg)
  && negb (String.prefix "--port=" arg)
  && negb (isOneOf ["--product"; "-p"] arg)
  && negb (String.prefix "--product=" arg)
  && negb (isOneOf ["--server"; "--target"; "-s"] arg)
  && negb (String.prefix "--server=" arg || String.prefix "--target=" arg).

(** ** Targets from the environment, [loadTargetsFromEnv] *)

(** [safeParseJson(payload)]: [null] without parsing for a missing or empty
    payload, and [null] when [JSON.parse] throws. [parse] stands for
    [JSON.parse] read at the type the caller uses the result at, [None]
    when it throws. *)
Definition safeParseJson {A} (parse : string → option A) (payload : option string)
  : option A :=
  match payload with
  | Some text => if Js.nonempty text then parse text else None
  | None => None
  end.

(** The value of [extraArgs] or [staticArgs] in an entry. *)
Inductive RawArgs :=
| ArgsText (json : string)
| ArgsObject (props : gmap string Js.value)
| ArgsOther.                      (* a number or a boolean *)

(** An element of the [MCP_TARGETS] array that is an object, reduced to the
    fields [normalizeTargetEntry] reads. A field that is missing or [null]
    is [None]; the others are strings. *)
Record RawEntry := {
  raw_name : option string;
  raw_apiKey : option string;
  raw_sseUrl : option string;
  raw_serverUrl : option string;
  raw_streamableUrl : option string;
  raw_transportPreference : option string;
  raw_transport : option string;
  raw_toolName : option string;
  raw_product : option string;
  raw_extraArgs : option RawArgs;
  raw_staticArgs : option RawArgs
}.

Definition generatedName (index : nat) : string := "target-" +:+ pretty (index + 1).

(** [normalizeTargetEntry(entry, index)]; an element that is not an object
    is [None], and so is the [null] the function returns for it. *)
Definition normalizeTargetEntry (parseProps : string → option (gmap string Js.value))
    (entry : option RawEntry) (index : nat) : option TargetEntry :=
  match entry with
  | None => None
  | Some entry =>
      let name_ := (raw_name entry ≫= trimmedOrNull) ?? generatedName index in
      let rawArgs := raw_extraArgs entry ??? raw_staticArgs entry in
      let parsedArgs :=
        match rawArgs with
        | Some (ArgsText text) => safeParseJson parseProps (Some text) ?? ∅
        | Some (ArgsObject props) => props
        | Some ArgsOther | None => ∅
        end in
      Some {| entry_name := name_;
              entry_options := Some
                {| opt_sseUrl := raw_sseUrl entry ??? raw_serverUrl entry;
                   opt_streamableUrl := raw_streamableUrl entry;
                   opt_apiKey := raw_apiKey entry;
                   opt_toolName := raw_toolName entry;
                   opt_transportPreference :=
                     raw_transportPreference entry ??? raw_transport entry;
                   opt_staticArgs := Some parsedArgs;
                   opt_product := raw_product entry;
                   opt_useProcessEnv := None |};
              entry_useProcessEnv := Some false |}
  end.

Definition defaultTargets : list TargetEntry :=
  [ {| entry_name := "Docs AI Hub"; entry_options := Some no_options;
       entry_useProcessEnv := Some true |};
    {| entry_name := "CDETs"; entry_options := Some no_options;
       entry_useProcessEnv := Some true |} ].

(** [loadTargetsFromEnv()]. [parsed] is [safeParseJson(process.env.MCP_TARGETS)]
    when that is an array, with its elements that are objects, and [None]
    otherwise. *)
Definition loadTargetsFromEnv (parseProps : string → option (gmap string Js.value))
    (parsed : option (list (option RawEntry))) : list TargetEntry :=
  let targets :=
    match parsed with
    | Some entries =>
        omap id (imap (λ idx entry, normalizeTargetEntry parseProps entry idx) entries)
    | None => []
    end in
  match targets with
  | [] => defaultTargets
  | _ => targets
  end.

(** The target [t] carries what the [MCP_TARGETS] object [raw] says. *)
Definition loadedFrom (t : TargetEntry) (raw : RawEntry) : Prop :=
  entry_useProcessEnv t = Some false
  ∧ (∀ n, raw_name raw ≫= trimmedOrNull = Some n → entry_name t = n)
  ∧ (raw_name raw ≫= trimmedOrNull = None → ∃ index, entry_name t = generatedName index)
  ∧ ∃ o, entry_options t = Some o
         ∧ opt_apiKey o = raw_apiKey raw
         ∧ opt_product o = raw_product raw
         ∧ opt_toolName o = raw_toolName raw
         ∧ opt_sseUrl o = raw_sseUrl raw ??? raw_serverUrl raw
         ∧ opt_streamableUrl o = raw_streamableUrl raw
         ∧ opt_transportPreference o = raw_transportPreference raw ??? raw_transport raw.

(** The objects of the parsed [MCP_TARGETS] value, when it is an array. *)
Definition objectsOf (parsed : option (list (option RawEntry))) : list RawEntry :=
  match parsed with
  | Some entries => omap id entries
  | None => []
  end.

(** An [MCP_TARGETS] object with a blank name. *)
Definition namelessEntry : RawEntry :=
  {| raw_name := Some "  "; raw_apiKey := Some "k2"; raw_sseUrl := None;
     raw_serverUrl := Some "https://bugs.example.com/mcp/sse"; raw_streamableUrl := None;
     raw_transportPreference := None; raw_transport := Some "sse";
     raw_toolName := None; raw_product := None;
     raw_extraArgs := Some (ArgsText "{}"); raw_staticArgs := None |}.

(** ** The web server's handler of [POST /api/ask] *)

(** The parsed request body, which is any JSON value. [handleAsk] reads
    the three properties [question], [product] and [target] of it: reading
    them of [null] throws, and of every other value gives the property or
    [undefined]. [None] as a body is [null]; [None] as a field is
    [undefined]. *)
Record AskBody := {
  body_question : option Js.value;
  body_product : option Js.value;
  body_target : option Js.value
}.

(** What is sent for a request: the 200 payload, or a status with the error
    whose message is the payload. [Threw] is a [TypeError] that leaves
    [handleAsk]: the request listener catches it and sends status 500 with
    its message. *)
Inductive Response :=
| Answered (answer connectionLabel : string) (productFilter : option string) (target : string)
| Failed (status : nat) (e : error)
| Threw.

(** [v?.trim()] on a property of the body: a nullish property gives
    [undefined] and a string its trimmed text; any other value has no
    [trim] to call, and the outer [None] is the [TypeError] thrown then. *)
Definition optionalTrim (v : option Js.value) : option (option string) :=
  match v with
  | None | Some Js.VNull => Some None
  | Some (Js.VStr s) => Some (Some (Js.trim s))
  | Some _ => None
  end.

(** [body.question ?? ''] *)
Definition questionOf (body : AskBody) : Js.value :=
  match body_question body with
  | None | Some Js.VNull => Js.VStr ""
  | Some v => v
  end.

(** What does not change between requests: the environment the clients are
    constructed in, the default target fixed at start-up and the product
    given on the server's command line. *)
Record ServerConfig := {
  cfg_env : Env;
  cfg_defaultTarget : string;
  cfg_product : option string
}.

(** [s] is a string that is truthy. *)
Definition truthyString (s : option string) : bool :=
  match s with
  | Some s => Js.nonempty s
  | None => false
  end.

(** The filter [handleAsk] sets before connecting, if any. *)
Definition applyRequestFilter (cfg : ServerConfig) (product : option string)
    (targetName : string) (c : McpChatClient) : McpChatClient :=
  if truthyString product then (setProductFilter product c).2
  else if truthyString (cfg_product cfg) && String.eqb targetName (cfg_defaultTarget cfg)
       then (setProductFilter (cfg_product cfg) c).2
       else c.

(** [handleAsk(req, res)] for one request handled to its end. [body] is what
    [readRequestBody] settled with, [render] is [formatResultContent] on the
    tool's result. The three properties are read, and [trim] is called on
    the product and on the target, before the [try] block; [trim] is called
    on the question after the target has been checked. The reference
    [getClient] returns always designates an object; the last case of the
    match on the store is there for totality. *)
Definition handleAsk (cfg : ServerConfig) (sdk : Sdk) (render : ToolResult → string)
    (body : settled (option AskBody)) (w : World) : Response * World * list event :=
  match body with
  | Rejected e => (Failed 400 e, w, [])
  | Fulfilled None => (Threw, w, [])
  | Fulfilled (Some body) =>
      match optionalTrim (body_product body), optionalTrim (body_target body) with
      | None, _ | _, None => (Threw, w, [])
      | Some product, Some requestedTarget =>
          if truthyString requestedTarget
             && negb (hasTarget (manager w) (requestedTarget ?? ""))
          then (Failed 400 (UnknownTarget (requestedTarget ?? "")), w, [])
          else
            let targetName :=
              if truthyString requestedTarget then requestedTarget ?? ""
              else cfg_defaultTarget cfg in
            match questionOf body with
            | Js.VStr question =>
                if negb (Js.nonempty (Js.trim question)) then (Failed 400 QuestionEmpty, w, [])
                else
                  match getClient (cfg_env cfg) (Some targetName) w with
                  | (Rejected e, w1) => (Failed 500 e, w1, [])
                  | (Fulfilled r, w1) =>
                      match store w1 !! r with
                      | None => (Failed 500 ClientNotConnected, w1, [])
                      | Some c =>
                          let c1 := applyRequestFilter cfg product targetName c in
                          let '(connected, c2, evs1) := connect sdk c1 in
                          match connected with
                          | Rejected e =>
                              (Failed 500 e,
                               {| store := <[ r := c2 ]> (store w1);
                                  manager := manager w1 |}, evs1)
                          | Fulfilled _ =>
                              let overrides : gmap string Js.value :=
                                if truthyString product
                                then {[ "product" := Js.VStr (product ?? "") ]} else ∅ in
                              let '(asked, c3, evs2) :=
                                ask sdk (Some question) overrides c2 in
                              let w3 := {| store := <[ r := c3 ]> (store w1);
                                           manager := manager w1 |} in
                              match asked with
                              | Rejected e => (Failed 500 e, w3, evs1 ++ evs2)
                              | Fulfilled result =>
                                  (Answered (render result) (getConnectionLabel c3)
                                     (getProductFilter c3) targetName,
                                   w3, evs1 ++ evs2)
                              end
                          end
                      end
                  end
            | _ => (Threw, w, [])
            end
      end
  end.

(** Every cached reference designates an object of the store. *)
Definition cachedClientsExist (w : World) : Prop :=
  ∀ wanted r, clients (manager w) !! wanted = Some r → is_Some (store w !! r).

(** Options that ask for the transport [SSE], in capitals. *)
Definition upperSseOptions : Options :=
  {| opt_sseUrl := None; opt_streamableUrl := None; opt_apiKey := None;
     opt_toolName := None; opt_transportPreference := Some "SSE";
     opt_staticArgs := None; opt_product := None; opt_useProcessEnv := None |}.

(** A server whose default target is [A], and two request bodies: one for
    a target nobody registered, one with a product. *)
Definition twinConfig : ServerConfig :=
  {| cfg_env := empty_env; cfg_defaultTarget := "A"; cfg_product := None |}.

Definition strangerBody : AskBody :=
  {| body_question := Some (Js.VStr "how?"); body_product := None;
     body_target := Some (Js.VStr " B ") |}.

Definition productBody : AskBody :=
  {| body_question := Some (Js.VStr "how?"); body_product := Some (Js.VStr " ACI ");
     body_target := None |}.

(** The body [{"product": 5}]. *)
Definition numericProductBody : AskBody :=
  {| body_question := None; body_product := Some (Js.VNum 5); body_target := None |}.

(** ** The web server's start-up and its [GET /api/status] *)

(** [defaultEntry.options.product = defaultEntry.options.product ??
    cliOptions.product], done to the first target when the command line
    names a product. Every entry [loadTargetsFromEnv] returns has options;
    an entry without them is left alone here. *)
Definition seedProduct (cliProduct : option string) (targets : list TargetEntry)
  : list TargetEntry :=
  match truthyString cliProduct, targets with
  | true, defaultEntry :: rest =>
      match entry_options defaultEntry with
      | Some o =>
          {| entry_name := entry_name defaultEntry;
             entry_options := Some
               {| opt_sseUrl := opt_sseUrl o; opt_streamableUrl := opt_streamableUrl o;
                  opt_apiKey := opt_apiKey o; opt_toolName := opt_toolName o;
                  opt_transportPreference := opt_transportPreference o;
                  opt_staticArgs := opt_staticArgs o;
                  opt_product := opt_product o ??? cliProduct;
                  opt_useProcessEnv := opt_useProcessEnv o |};
             entry_useProcessEnv := entry_useProcessEnv defaultEntry |} :: rest
      | None => targets
      end
  | _, _ => targets
  end.

(** The top-level statements of the server script up to [createServer]:
    the targets are loaded and seeded, the registry is constructed, the
    target of the command line becomes the default (which throws when it is
    not registered) and the default is read once. *)
Definition startServer (parseProps : string → option (gmap string Js.value))
    (parsed : option (list (option RawEntry))) (processEnv : Env)
    (cliOptions : ServerCliOptions) : settled (ServerConfig * World) :=
  let targets := seedProduct (srv_product cliOptions) (loadTargetsFromEnv parseProps parsed) in
  match newChatTargetManager (Some targets) with
  | Rejected e => Rejected e
  | Fulfilled targetManager =>
      let w := {| store := []; manager := targetManager |} in
      let started :=
        match srv_target cliOptions with
        | Some target =>
            if Js.nonempty target then setDefaultTarget target w else (Fulfilled (), w)
        | None => (Fulfilled (), w)
        end in
      match started with
      | (Rejected e, _) => Rejected e
      | (Fulfilled _, w1) =>
          Fulfilled ({| cfg_env := processEnv;
                        cfg_defaultTarget := defaultTargetName (manager w1);
                        cfg_product := srv_product cliOptions |}, w1)
      end
  end.

Record StatusPayload := {
  status_connected : bool;
  status_productFilter : option string;
  status_connectionLabel : string;
  status_target : string;
  status_targets : list string
}.

(** The payload of [GET /api/status]. *)
Definition handleStatus (cfg : ServerConfig) (w : World) : StatusPayload :=
  let summary :=
    match (getTargetSummary (cfg_defaultTarget cfg) w).1 with
    | Fulfilled summary => summary
    | Rejected _ => None
    end in
  {| status_connected := (sum_connected <$> summary) ?? false;
     status_productFilter := summary ≫= sum_productFilter;
     status_connectionLabel := (sum_connectionLabel <$> summary) ?? "";
     status_target := cfg_defaultTarget cfg;
     status_targets := getTargetNames (manager w) |}.

(** ** The chatbot's commands *)

(** [s.split(/\s+/)], as the first element of the array and the others:
    the string is cut at every run of white space, so that white space at
    its start gives an empty first element. [afterSpace] tells that the
    character before [s] was white space. *)
Fixpoint splitWords (s : string) (afterSpace : bool) : string * list string :=
  match s with
  | EmptyString => (EmptyString, [])
  | String c rest =>
      let (word, words) := splitWords rest (Js.is_space c) in
      if Js.is_space c
      then if afterSpace then (word, words) else (EmptyString, word :: words)
      else (String c word, words)
  end.

(** What the chatbot writes with [console.log]. *)
Inductive Line :=
  | ProductFilterLine (target filter : string)
  | NoProductFilterLine (target : string)
  | ActiveTargetLine (target : string)
  | AvailableTargetsLine (names : list string)
  | UnknownTargetLine (target : string) (names : list string)
  | SwitchedLine (target : string).

(** [announceProductFilter(client)] with the active target of the moment. *)
Definition announceProductFilter (activeTarget : string) (client : option McpChatClient)
  : Line :=
  let filter := client ≫= getProductFilter in
  if truthyString filter then ProductFilterLine activeTarget (filter ?? "")
  else NoProductFilterLine activeTarget.

(** A command is handled or not, or it ends the process. *)
Inductive CommandResult :=
  | Handled (known : bool)
  | Exited.

(** [handleCommand(input)] of the chatbot with several targets. The module
    variable [activeTarget] is passed in and returned; the client is the
    object of the store that [getClient] designates. *)
Definition handleCommand (processEnv : Env) (input : string) (activeTarget : string)
    (w : World) : settled CommandResult * string * World * list Line :=
  let (command, rest) := splitWords (slice 1 input) false in
  let command := Js.toLowerCase command in
  if String.eqb command "product" then
    match getClient processEnv (Some activeTarget) w with
    | (Rejected e, w1) => (Rejected e, activeTarget, w1, [])
    | (Fulfilled r, w1) =>
        match rest with
        | [] =>
            (Fulfilled (Handled true), activeTarget, w1,
             [announceProductFilter activeTarget (store w1 !! r)])
        | first :: _ =>
            let value :=
              if String.eqb (Js.toLowerCase first) "clear" then ""
              else String.concat " " rest in
            let w2 := {| store := alter (λ c, (setProductFilter (Some value) c).2) r (store w1);
                         manager := manager w1 |} in
            (Fulfilled (Handled true), activeTarget, w2,
             [announceProductFilter activeTarget (store w2 !! r)])
        end
    end
  else if String.eqb command "server" || String.eqb command "target" then
    match rest with
    | [] =>
        (Fulfilled (Handled true), activeTarget, w,
         [ActiveTargetLine activeTarget; AvailableTargetsLine (getTargetNames (manager w))])
    | _ :: _ =>
        let nextTarget := String.concat " " rest in
        if negb (hasTarget (manager w) nextTarget)
        then (Fulfilled (Handled true), activeTarget, w,
              [UnknownTargetLine nextTarget (getTargetNames (manager w))])
        else
          match getClient processEnv (Some nextTarget) w with
          | (Rejected e, w1) => (Rejected e, nextTarget, w1, [])
          | (Fulfilled r, w1) =>
              (Fulfilled (Handled true), nextTarget, w1,
               [SwitchedLine nextTarget; announceProductFilter nextTarget (store w1 !! r)])
          end
    end
  else if String.eqb command "exit" || String.eqb command "quit" then
    (Fulfilled Exited, activeTarget, w, [])
  else (Fulfilled (Handled false), activeTarget, w, []).

(** Strings without white space, and strings of white space only. *)
Fixpoint spaceFree (s : string) : bool :=
  match s with
  | EmptyString => true
  | String c rest => negb (Js.is_space c) && spaceFree rest
  end.

Fixpoint allSpace (s : string) : bool :=
  match s with
  | EmptyString => true
  | String c rest => Js.is_space c && allSpace rest
  end.

(** Words, each written after some white space. *)
Fixpoint spaced (pairs : list (string * string)) : string :=
  match pairs with
  | [] => EmptyString
  | (gap, word) :: pairs => gap +:+ word +:+ spaced pairs
  end.

Definition gapAndWord (p : string * string) : bool :=
  allSpace p.1 && Js.nonempty p.1 && spaceFree p.2 && Js.nonempty p.2.

(** A word: not empty and without white space. *)
Definition isWord (word : string) : bool := spaceFree word && Js.nonempty word.

(** * Properties *)

(** ** Transport selection *)

Section TransportSelection.

Variable o : InitOptions.

Lemma forced_streamable :
  io_transportPreference o = "streamable" →
  buildTransportAttempts o = [streamableAttempt o].
Proof. intros H. unfold buildTransportAttempts. rewrite H. reflexivity. Qed.

Lemma forced_sse :
  io_transportPreference o = "sse" →
  buildTransportAttempts o = [sseAttempt o].
Proof. intros H. unfold buildTransportAttempts. rewrite H. reflexivity. Qed.

Lemma not_forced :
  io_transportPreference o ≠ "sse" →
  io_transportPreference o ≠ "streamable" →
  buildTransportAttempts o = [streamableAttempt o; sseAttempt o].
Proof.
  intros Hsse Hstr. unfold buildTransportAttempts.
  rewrite bool_decide_eq_false_2; [reflexivity |].
  rewrite !elem_of_cons, elem_of_nil. tauto.
Qed.

Lemma attempts_shape :
  buildTransportAttempts o =
    if String.eqb (io_transportPreference o) "streamable" then [streamableAttempt o]
    else if String.eqb (io_transportPreference o) "sse" then [sseAttempt o]
    else [streamableAttempt o; sseAttempt o].
Proof.
  destruct (String.eqb_spec (io_transportPreference o) "streamable") as [Hs | Hs].
  - by apply forced_streamable.
  - destruct (String.eqb_spec (io_transportPreference o) "sse") as [He | He].
    + by apply forced_sse.
    + by apply not_forced.
Qed.

Lemma attempts_nonempty : buildTransportAttempts o ≠ [].
Proof.
  rewrite attempts_shape.
  destruct (String.eqb _ "streamable"); [done |].
  by destruct (String.eqb _ "sse").
Qed.

(** C7. A forced preference ([streamable] or [sse]) yields exactly the one
    attempt of that transport, labelled with it; [auto] and every other
    string yield the streamable-HTTP attempt followed by the SSE attempt;
    the list is never empty. The streamable-HTTP attempt is labelled with
    the streamable URL and its factory parses that URL and constructs a
    streamable-HTTP transport on it with the request options; the SSE
    attempt is labelled with the SSE URL and its factory parses that URL and
    constructs an SSE transport on it with the headers and the request
    options. *)
Theorem buildTransportAttempts_by_preference :
  let streamable :=
    {| label := "streamable-http @ " +:+ io_streamableUrl o;
       create := NewStreamableHTTP (io_streamableUrl o) (io_requestInit o) |} in
  let sse :=
    {| label := "sse @ " +:+ io_sseUrl o;
       create := NewSSE (io_sseUrl o) (io_headers o) (io_requestInit o) |} in
  buildTransportAttempts o =
    (if String.eqb (io_transportPreference o) "streamable" then [streamable]
     else if String.eqb (io_transportPreference o) "sse" then [sse]
     else [streamable; sse])
  ∧ (1 ≤ length (buildTransportAttempts o) ≤ 2)%nat
  ∧ (∀ sdk,
       invoke sdk (create streamable)
       = match newURL sdk (io_streamableUrl o) with
         | Some thrown => Rejected thrown
         | None => Fulfilled (BuiltBy (NewStreamableHTTP (io_streamableUrl o)
                                         (io_requestInit o)))
         end
       ∧ invoke sdk (create sse)
         = match newURL sdk (io_sseUrl o) with
           | Some thrown => Rejected thrown
           | None => Fulfilled (BuiltBy (NewSSE (io_sseUrl o) (io_headers o)
                                           (io_requestInit o)))
           end).
Proof.
  cbv zeta. split; [exact attempts_shape |]. split.
  - rewrite attempts_shape.
    destruct (String.eqb _ "streamable"); [simpl; lia |].
    destruct (String.eqb _ "sse"); simpl; lia.
  - intros sdk. split; reflexivity.
Qed.

End TransportSelection.

(** The preference is compared as it is: another letter case is not a forced
    value. (The constructor lower-cases what it stores.) *)
Example upper_case_is_auto :
  length (buildTransportAttempts
            {| io_headers := ∅; io_requestInit := ∅; io_transportPreference := "SSE";
               io_sseUrl := "a"; io_streamableUrl := "b" |}) = 2.
Proof. reflexivity. Qed.

(** ** String helpers on samples *)

Example trim_sample : Js.trim "  What is ACI?  " = "What is ACI?".
Proof. reflexivity. Qed.

Example trim_blank : Js.trim "   " = "" ∧ trimmedOrNull "   " = None.
Proof. split; reflexivity. Qed.

Example stripSseSuffix_samples :
  stripSseSuffix "https://docs-ai.cloudapps.cisco.com/mcp/sse"
  = "https://docs-ai.cloudapps.cisco.com/mcp"
  ∧ stripSseSuffix "https://host/mcp/SSE/" = "https://host/mcp"
  ∧ stripSseSuffix "https://host/sse/v2" = "https://host/sse/v2"
  ∧ stripSseSuffix "" = "".
Proof. repeat split; reflexivity. Qed.

(** The constructor stores the preference in lower case and the filter
    trimmed. *)
Example constructor_normalises :
  let c := newMcpChatClient empty_env
             {| opt_sseUrl := None; opt_streamableUrl := None; opt_apiKey := None;
                opt_toolName := None; opt_transportPreference := Some "SSE";
                opt_staticArgs := None; opt_product := Some "  ACI ";
                opt_useProcessEnv := None |} in
  transportPreference c = "sse" ∧ productFilter c = Some "ACI"
  ∧ primaryArgKey c = "query" ∧ isConnected c = false.
Proof. cbv zeta. repeat split; reflexivity. Qed.

(** ** Primary-argument inference *)

Section Keys.

Context {A : Type}.
Implicit Types m : gmap string A.

Lemma the_only_None {B} (l : list B) : length l ≠ 1 → the_only l = None.
Proof. destruct l as [| x [| y l]]; simpl; intros; congruence. Qed.

(** [Object.keys] of an object with one property is that property. *)
Lemma only_key m k :
  size m = 1 → is_Some (m !! k) → the_only (map_to_list m).*1 = Some k.
Proof.
  intros Hsize [v Hv].
  rewrite <- length_map_to_list in Hsize.
  apply elem_of_map_to_list in Hv.
  destruct (map_to_list m) as [| [k' v'] [| ? ?]]; simplify_eq/=.
  apply list_elem_of_singleton in Hv. by simplify_eq.
Qed.

Lemma no_only_key m : size m ≠ 1 → the_only (map_to_list m).*1 = None.
Proof.
  intros Hsize. apply the_only_None.
  by rewrite length_fmap, length_map_to_list.
Qed.

End Keys.

Lemma pickPrimaryArgument_guard (schema : option Schema) :
  (∀ s, schema = Some s → schema_type s ≠ Some "object") →
  pickPrimaryArgument schema = None.
Proof.
  intros H. destruct schema as [s |]; [| done]. simpl.
  rewrite bool_decide_eq_false_2; [done | by apply H].
Qed.

(** What [#connectInternal] stores once the tool is found. *)
Lemma afterListTools_found sdk h this tools tool :
  listTools sdk h = Fulfilled tools →
  findTool tools (toolName this) = Some tool →
  afterListTools sdk h this =
    (Fulfilled (),
     set_connectPromise None
       (set_primaryArgKey (pickPrimaryArgument (inputSchema tool) ?? primaryArgKey this)
          (set_selectedTool (Some tool) this))).
Proof. intros Hl Hf. unfold afterListTools. rewrite Hl. simpl. by rewrite Hf. Qed.




(** ** Arguments of a tool call *)

Section Arguments.

Variables (this : McpChatClient) (trimmed : string) (argOverrides : gmap string Js.value).

(** The object after [args[this.primaryArgKey] = trimmed]. *)
Lemma merged_lookup k :
  <[ primaryArgKey this := Js.VStr trimmed ]> (argOverrides ∪ staticArgs this) !! k
  = mergedArg this trimmed argOverrides k.
Proof.
  unfold mergedArg. destruct (decide (k = primaryArgKey this)) as [-> | Hk].
  - by rewrite lookup_insert_eq.
  - rewrite lookup_insert_ne by done. rewrite lookup_union.
    by destruct (argOverrides !! k), (staticArgs this !! k).
Qed.

Lemma buildArgs_lookup k :
  buildArgs this trimmed argOverrides !! k =
    match productFilter this with
    | Some filter =>
        if decide (k = "product") then
          if Js.nonempty filter && negb (Js.truthy_opt (mergedArg this trimmed argOverrides k))
          then Some (Js.VStr filter)
          else mergedArg this trimmed argOverrides k
        else mergedArg this trimmed argOverrides k
    | None => mergedArg this trimmed argOverrides k
    end.
Proof.
  unfold buildArgs, Js.truthy_at. rewrite merged_lookup.
  destruct (productFilter this) as [filter |]; [| apply merged_lookup].
  destruct (decide (k = "product")) as [-> | Hk].
  - destruct (Js.nonempty filter && _).
    + by rewrite lookup_insert_eq.
    + apply merged_lookup.
  - destruct (Js.nonempty filter && _).
    + rewrite lookup_insert_ne by done. apply merged_lookup.
    + apply merged_lookup.
Qed.

End Arguments.

(** An unset filter is what a blank value leaves behind. *)
Lemma setProductFilter_blank this value :
  Js.trim value = "" → setProductFilter (Some value) this = (None, set_productFilter None this).
Proof. intros H. unfold setProductFilter, trimmedOrNull. by rewrite H. Qed.

(** A stored filter is never the empty string when it went through
    [setProductFilter]. *)
Lemma setProductFilter_nonempty this value f :
  (setProductFilter value this).1 = Some f → Js.nonempty f = true.
Proof.
  unfold setProductFilter, trimmedOrNull. destruct value as [v |]; simpl; [| done].
  destruct (Js.nonempty (Js.trim v)) eqn:E; intros; by simplify_eq.
Qed.

(** [ask] with a proper question, once the client holds a connection and a
    tool: either it did already, or the [connect] run first provided them. *)
Lemma ask_calls_tool sdk this question argOverrides this1 evs h tool :
  Js.nonempty (Js.trim question) = true →
  ensureConnected sdk this = (Fulfilled (), this1, evs) →
  client this1 = Some h →
  selectedTool this1 = Some tool →
  let request := {| call_name := toolName this1;
                    call_arguments := buildArgs this1 (Js.trim question) argOverrides |} in
  ask sdk (Some question) argOverrides this
  = (callTool sdk h request, this1, evs ++ [EvCallTool h request]).
Proof.
  intros Hq Hconn Hc1 Ht1. unfold ask. simpl. rewrite Hq. simpl.
  rewrite Hconn. by rewrite Hc1, Ht1.
Qed.

Lemma ensureConnected_connected sdk this h :
  client this = Some h → ensureConnected sdk this = (Fulfilled (), this, []).
Proof.
  intros Hc. unfold ensureConnected, isConnected.
  rewrite Hc. by rewrite bool_decide_eq_true_2.
Qed.




(** ** The fallback sequence *)

Section Fallback.

Variable sdk : Sdk.

Lemma attemptResult_builds a :
  builds sdk a → attemptResult sdk a = clientConnect sdk (BuiltBy (create a)).
Proof. unfold builds, attemptResult, invoke. by intros ->. Qed.

(** The sequence itself never starts another sequence. *)
Lemma tryAttempts_no_sequence attempts lastError :
  sequences (tryAttempts sdk attempts lastError).2 = 0.
Proof.
  revert lastError. induction attempts as [| a rest IH]; intros lastError; [done |].
  simpl. destruct (invoke sdk (create a)) as [t | e]; [| done].
  destruct (clientConnect sdk t) as [[] | err]; [done |].
  specialize (IH (Some err)).
  destruct (tryAttempts sdk rest (Some err)) as [r evs]. exact IH.
Qed.

(** When no attempt succeeds the loop ends by throwing: the error of the
    last attempt it ran, which is the last of the list unless a factory
    threw on the way. *)
Lemma tryAttempts_all_fail attempts lastError :
  attempts ≠ [] →
  Forall (fails sdk) attempts →
  ∃ a e,
    a ∈ attempts
    ∧ attemptResult sdk a = Rejected e
    ∧ (tryAttempts sdk attempts lastError).1 = Rejected e
    ∧ last (created (tryAttempts sdk attempts lastError).2) = Some (label a)
    ∧ (Forall (builds sdk) attempts → last attempts = Some a).
Proof.
  revert lastError. induction attempts as [| a rest IH]; intros lastError Hne Hall; [done |].
  apply Forall_cons in Hall as [Ha Hrest]. unfold fails in Ha.
  simpl. destruct (invoke sdk (create a)) as [t | thrown] eqn:Hinv.
  - assert (Hres : attemptResult sdk a = clientConnect sdk t).
    { unfold attemptResult. by rewrite Hinv. }
    rewrite Hres in Ha.
    destruct (clientConnect sdk t) as [[] | err] eqn:Hconn; [done |].
    destruct rest as [| b rest'].
    + exists a, err. simpl. repeat split; try done. apply list_elem_of_here.
    + destruct (IH (Some err)) as (a' & e & Hin & Hres' & Hr & Hlast & Hbuilt); [done | done |].
      destruct (tryAttempts sdk (b :: rest') (Some err)) as [r evs] eqn:Htry.
      exists a', e. simpl in *. repeat split; try done.
      * by apply list_elem_of_further.
      * destruct (created evs); [done |]. exact Hlast.
      * intros Hb. apply Forall_cons in Hb as [_ Hb]. by apply Hbuilt.
  - exists a, thrown. simpl. repeat split.
    + apply list_elem_of_here.
    + unfold attemptResult. by rewrite Hinv.
    + intros Hb. apply Forall_cons in Hb as [Hb _].
      unfold builds, invoke in *. by rewrite Hb in Hinv.
Qed.

(** Attempts whose connect is rejected are warned about and torn down, in
    order, and the first attempt that connects gives the connection its
    handles and its label. *)
Lemma tryAttempts_first_success pre a post lastError :
  Forall (λ x, builds sdk x ∧ fails sdk x) pre →
  builds sdk a →
  clientConnect sdk (BuiltBy (create a)) = Fulfilled () →
  tryAttempts sdk (pre ++ a :: post) lastError
  = (Fulfilled {| conn_client := ClientFor (label a);
                  conn_transport := BuiltBy (create a);
                  conn_connectionLabel := label a |},
     concat (failureEvents sdk <$> pre) ++ [EvCreate (label a); EvConnect (label a)]).
Proof.
  intros Hpre Ha Hconn. revert lastError.
  induction Hpre as [| x pre [Hb Hf] _ IH]; intros lastError; simpl.
  - unfold invoke. unfold builds in Ha. by rewrite Ha, Hconn.
  - unfold fails in Hf. rewrite (attemptResult_builds _ Hb) in Hf.
    unfold invoke, failureEvents. unfold builds in Hb. rewrite Hb.
    destruct (clientConnect sdk (BuiltBy (create x))) as [[] | err]; [done |].
    by rewrite IH.
Qed.

End Fallback.

(** ** [connect], run to completion *)

Section Connect.

Variable sdk : Sdk.

Lemma set_connectPromise_same this p :
  connectPromise this = p → set_connectPromise p this = this.
Proof. destruct this; simpl; by intros ->. Qed.

Lemma set_connectPromise_twice this p q :
  set_connectPromise q (set_connectPromise p this) = set_connectPromise q this.
Proof. by destruct this. Qed.

Lemma isConnected_true this h : client this = Some h → isConnected this = true.
Proof. intros H. unfold isConnected. rewrite H. by apply bool_decide_eq_true_2. Qed.

Lemma isConnected_false this : client this = None → isConnected this = false.
Proof.
  intros H. unfold isConnected. rewrite H.
  apply bool_decide_eq_false_2. by intros [? ?].
Qed.

(** Already connected: nothing happens. *)
Lemma connect_connected this h :
  client this = Some h → connect sdk this = (Fulfilled (), this, []).
Proof. intros H. unfold connect. by rewrite (isConnected_true _ _ H). Qed.

(** A rejected promise left in [connectPromise] answers every later call. *)
Lemma connect_replays_rejection this e :
  client this = None →
  connectPromise this = Some (RejectedWith e) →
  connect sdk this = (Rejected e, this, []).
Proof.
  intros Hc Hp. unfold connect. rewrite (isConnected_false _ Hc), Hp.
  by rewrite set_connectPromise_same.
Qed.

(** Without a key the rejected promise is stored and stays. *)
Lemma connect_missing_key this :
  client this = None →
  connectPromise this = None →
  apiKey_missing this = true →
  connect sdk this
  = (Rejected MissingApiKey, set_connectPromise (Some (RejectedWith MissingApiKey)) this, []).
Proof.
  intros Hc Hp Hk. unfold connect, connectInternal_start.
  by rewrite (isConnected_false _ Hc), Hp, Hk.
Qed.

(** From the disconnected state with a key, [connect] is the body of
    [#connectInternal] run to its end after the sequence has been started. *)
Lemma connect_fresh this :
  client this = None →
  connectPromise this = None →
  apiKey_missing this = false →
  connect sdk this =
    let '(r, this1, evs) :=
      awaitTask sdk (AwaitFallback (initOptionsOf this))
        (set_connectPromise (Some (Pending (AwaitFallback (initOptionsOf this)))) this) in
    (r, this1, EvSequence :: evs).
Proof.
  intros Hc Hp Hk. unfold connect, connectInternal_start.
  by rewrite (isConnected_false _ Hc), Hp, Hk.
Qed.

Lemma connect_fallback_rejected this e evs :
  client this = None →
  connectPromise this = None →
  apiKey_missing this = false →
  connectWithFallback sdk (initOptionsOf this) = (Rejected e, evs) →
  connect sdk this = (Rejected e, this, EvSequence :: evs).
Proof.
  intros Hc Hp Hk Hfb. rewrite connect_fresh by done.
  unfold awaitTask, afterFallback. rewrite Hfb. simpl.
  rewrite set_connectPromise_twice. by rewrite set_connectPromise_same.
Qed.

(** The state in which [#connectInternal] is suspended on [listTools]. *)
Lemma connect_fallback_fulfilled this conn evs :
  client this = None →
  connectPromise this = None →
  apiKey_missing this = false →
  connectWithFallback sdk (initOptionsOf this) = (Fulfilled conn, evs) →
  connect sdk this =
    let '(r, this1) :=
      afterListTools sdk (conn_client conn)
        (set_connectPromise (Some (Pending (AwaitListTools (conn_client conn))))
           (set_connection (Some (conn_client conn)) (Some (conn_transport conn))
              (conn_connectionLabel conn) this)) in
    (r, this1, EvSequence :: evs ++ [EvListTools (conn_client conn)]).
Proof.
  intros Hc Hp Hk Hfb. rewrite connect_fresh by done.
  unfold awaitTask, afterFallback. rewrite Hfb.
  destruct this; simpl in *.
  by destruct (afterListTools _ _ _).
Qed.

(** The transport connected but the server does not advertise the
    configured tool: [connect] throws, and the three fields assigned before
    [listTools] keep their values. *)
Lemma connect_tool_absent this conn evs tools :
  client this = None →
  connectPromise this = None →
  apiKey_missing this = false →
  connectWithFallback sdk (initOptionsOf this) = (Fulfilled conn, evs) →
  listTools sdk (conn_client conn) = Fulfilled tools →
  findTool tools (toolName this) = None →
  connect sdk this
  = (Rejected (ToolNotExposed (toolName this)),
     set_selectedTool None
       (set_connection (Some (conn_client conn)) (Some (conn_transport conn))
          (conn_connectionLabel conn) this),
     EvSequence :: evs ++ [EvListTools (conn_client conn)]).
Proof.
  intros Hc Hp Hk Hfb Hl Hf. rewrite (connect_fallback_fulfilled _ _ _ Hc Hp Hk Hfb).
  unfold afterListTools. rewrite Hl. simpl. rewrite Hf.
  destruct this; simpl in *. by subst.
Qed.

Lemma connect_tool_found this conn evs tools tool :
  client this = None →
  connectPromise this = None →
  apiKey_missing this = false →
  connectWithFallback sdk (initOptionsOf this) = (Fulfilled conn, evs) →
  listTools sdk (conn_client conn) = Fulfilled tools →
  findTool tools (toolName this) = Some tool →
  connect sdk this
  = (Fulfilled (),
     set_primaryArgKey (pickPrimaryArgument (inputSchema tool) ?? primaryArgKey this)
       (set_selectedTool (Some tool)
          (set_connection (Some (conn_client conn)) (Some (conn_transport conn))
             (conn_connectionLabel conn) this)),
     EvSequence :: evs ++ [EvListTools (conn_client conn)]).
Proof.
  intros Hc Hp Hk Hfb Hl Hf. rewrite (connect_fallback_fulfilled _ _ _ Hc Hp Hk Hfb).
  unfold afterListTools. rewrite Hl. simpl. rewrite Hf.
  destruct this; simpl in *. by subst.
Qed.

Lemma connectWithFallback_tryAttempts initOptions :
  connectWithFallback sdk initOptions
  = tryAttempts sdk (buildTransportAttempts initOptions) None.
Proof.
  unfold connectWithFallback. rewrite bool_decide_eq_false_2; [done |].
  pose proof (attempts_nonempty initOptions).
  by destruct (buildTransportAttempts initOptions).
Qed.

End Connect.

(** C3. When no attempt of the sequence produces a connection, [connect]
    fails with the error of the last attempt that ran (the last attempt of
    the list when every factory built its transport), and the client is
    back in the disconnected state it started from, so that another
    [connect] starts a new sequence. *)
Theorem connect_all_transports_fail (sdk : Sdk) (this : McpChatClient) :
  client this = None →
  connectPromise this = None →
  apiKey_missing this = false →
  Forall (fails sdk) (buildTransportAttempts (initOptionsOf this)) →
  ∃ a e evs,
    a ∈ buildTransportAttempts (initOptionsOf this)
    ∧ attemptResult sdk a = Rejected e
    ∧ connect sdk this = (Rejected e, this, EvSequence :: evs)
    ∧ last (created evs) = Some (label a)
    ∧ (Forall (builds sdk) (buildTransportAttempts (initOptionsOf this)) →
       last (buildTransportAttempts (initOptionsOf this)) = Some a)
    ∧ isConnected (connect sdk this).1.2 = false
    ∧ connectPromise (connect sdk this).1.2 = None
    ∧ ∀ sdk', ∃ evs', (connect sdk' (connect sdk this).1.2).2 = EvSequence :: evs'.
Proof.
  intros Hc Hp Hk Hall.
  destruct (tryAttempts_all_fail sdk _ None (attempts_nonempty (initOptionsOf this)) Hall)
    as (a & e & Hin & Hres & Hr & Hlast & Hbuilt).
  destruct (tryAttempts sdk (buildTransportAttempts (initOptionsOf this)) None)
    as [r evs] eqn:Htry.
  simpl in Hr, Hlast. subst r.
  assert (Hconn : connect sdk this = (Rejected e, this, EvSequence :: evs)).
  { apply connect_fallback_rejected; try done.
    by rewrite connectWithFallback_tryAttempts. }
  exists a, e, evs. rewrite Hconn. simpl.
  repeat split; try done.
  - by apply isConnected_false.
  - intros sdk'. rewrite (connect_fresh sdk' this Hc Hp Hk).
    destruct (awaitTask _ _ _) as [[r' this'] evs']. by exists evs'.
Qed.

(** Both endpoints refuse: the error is the SSE one, the last tried. *)
Lemma connect_all_transports_fail_witness :
  Forall (fails unreachable) (buildTransportAttempts (initOptionsOf freshClient))
  ∧ (connect unreachable freshClient).1 = (Rejected (SdkError "ECONNREFUSED sse"), freshClient).
Proof.
  assert (Hall : Forall (fails unreachable) (buildTransportAttempts (initOptionsOf freshClient))).
  { repeat constructor. }
  split; [exact Hall |].
  destruct (connect_all_transports_fail unreachable freshClient eq_refl eq_refl eq_refl Hall)
    as (a & e & evs & Hin & Hres & Hconn & _ & Hlast & _).
  rewrite Hconn. simpl. f_equal. f_equal.
  assert (Ha : last (buildTransportAttempts (initOptionsOf freshClient)) = Some a).
  { apply Hlast. repeat constructor. }
  vm_compute in Ha. injection Ha as <-.
  vm_compute in Hres. congruence.
Defined.

(** C3, on the code. Both endpoints refuse the connection: what [connect]
    fails with is the very error the last attempt, the SSE one, was refused
    with, rethrown as it is; it is not the error that says that all
    transports failed, and nothing wraps it. *)
Lemma last_error_is_rethrown_unwrapped :
  Forall (fails unreachable) (buildTransportAttempts (initOptionsOf freshClient))
  ∧ last (buildTransportAttempts (initOptionsOf freshClient))
    = Some (sseAttempt (initOptionsOf freshClient))
  ∧ attemptResult unreachable (sseAttempt (initOptionsOf freshClient))
    = Rejected (SdkError "ECONNREFUSED sse")
  ∧ (connect unreachable freshClient).1.1 = Rejected (SdkError "ECONNREFUSED sse")
  ∧ (connect unreachable freshClient).1.1 ≠ Rejected AllTransportsFailed.
Proof.
  split; [repeat constructor |]. split; [reflexivity |]. split; [reflexivity |].
  split; [reflexivity | discriminate].
Qed.

(** C1, on the code. The server accepts the connection but advertises another
    tool: [connect] fails with the tool error, yet the client and transport
    handles and the label assigned before [listTools] stay in place, so
    [isConnected] answers true, a later [connect] returns at once without
    any attempt, and [ask] reports a client that is not connected. *)
Theorem tool_absent_keeps_connection :
  let sdk := reachable [otherTool] in
  let after := (connect sdk freshClient).1.2 in
  findTool [otherTool] (toolName freshClient) = None
  ∧ (connect sdk freshClient).1.1 = Rejected (ToolNotExposed DEFAULT_TOOL_NAME)
  ∧ client after = Some (ClientFor "streamable-http @ https://docs-ai.cloudapps.cisco.com/mcp")
  ∧ is_Some (transport after)
  ∧ connectionLabel after = "streamable-http @ https://docs-ai.cloudapps.cisco.com/mcp"
  ∧ isConnected after = true
  ∧ connect sdk after = (Fulfilled (), after, [])
  ∧ ask sdk (Some "how?") ∅ after = (Rejected ClientNotConnected, after, []).
Proof.
  cbv zeta.
  assert (Hconn : connect (reachable [otherTool]) freshClient
    = (Rejected (ToolNotExposed (toolName freshClient)),
       set_selectedTool None
         (set_connection
            (Some (ClientFor (label (streamableAttempt (initOptionsOf freshClient)))))
            (Some (BuiltBy (create (streamableAttempt (initOptionsOf freshClient)))))
            (label (streamableAttempt (initOptionsOf freshClient))) freshClient),
       EvSequence ::
         [EvCreate (label (streamableAttempt (initOptionsOf freshClient)));
          EvConnect (label (streamableAttempt (initOptionsOf freshClient)))]
         ++ [EvListTools (ClientFor (label (streamableAttempt (initOptionsOf freshClient))))])).
  { by apply (connect_tool_absent _ _
               {| conn_client := ClientFor (label (streamableAttempt (initOptionsOf freshClient)));
                  conn_transport := BuiltBy (create (streamableAttempt (initOptionsOf freshClient)));
                  conn_connectionLabel := label (streamableAttempt (initOptionsOf freshClient)) |}
               _ [otherTool]). }
  rewrite Hconn. simpl.
  split; [reflexivity |]. split; [reflexivity |]. split; [reflexivity |].
  split; [eexists; reflexivity |]. split; [reflexivity |]. split; [reflexivity |].
  split; reflexivity.
Qed.

(** C4, on the code. The streamable URL has no scheme, so the first factory
    throws while the SSE attempt would connect: the sequence stops there
    with the factory's error. Nothing is warned about, nothing is closed, the
    SSE factory is never called and [connect] fails. *)
Theorem factory_failure_aborts_sequence :
  let sdk := strictUrls [docsTool abSchema] in
  buildTransportAttempts (initOptionsOf schemelessClient)
  = [streamableAttempt (initOptionsOf schemelessClient);
     sseAttempt (initOptionsOf schemelessClient)]
  ∧ invoke sdk (create (streamableAttempt (initOptionsOf schemelessClient)))
    = Rejected (SdkError "Invalid URL")
  ∧ attemptResult sdk (sseAttempt (initOptionsOf schemelessClient)) = Fulfilled ()
  ∧ connect sdk schemelessClient
    = (Rejected (SdkError "Invalid URL"), schemelessClient,
       [EvSequence; EvCreate "streamable-http @ docs.example.com/mcp"])
  ∧ warned (connect sdk schemelessClient).2 = []
  ∧ created (connect sdk schemelessClient).2 = ["streamable-http @ docs.example.com/mcp"].
Proof.
  cbv zeta.
  assert (Hconn : connect (strictUrls [docsTool abSchema]) schemelessClient
    = (Rejected (SdkError "Invalid URL"), schemelessClient,
       [EvSequence; EvCreate "streamable-http @ docs.example.com/mcp"])).
  { by apply connect_fallback_rejected. }
  rewrite Hconn.
  split; [reflexivity |]. split; [reflexivity |]. split; [reflexivity |].
  split; [reflexivity |]. split; reflexivity.
Qed.

(** The same configuration against a server that answers on SSE only and
    rejects every close: the rejected connect is warned about, both
    handles of the failed attempt are closed, and the label is the SSE one. *)
Example fallback_to_sse :
  let sdk := sseOnly [docsTool abSchema] in
  let first := streamableAttempt (initOptionsOf freshClient) in
  (connect sdk freshClient).1.1 = Fulfilled ()
  ∧ getConnectionLabel (connect sdk freshClient).1.2
    = "sse @ https://docs-ai.cloudapps.cisco.com/mcp/sse"
  ∧ (connect sdk freshClient).2
    = [EvSequence;
       EvCreate (label first); EvConnect (label first);
       EvWarn (label first) (SdkError "HTTP 404");
       EvClientClose (ClientFor (label first)) (Rejected (SdkError "Not connected"));
       EvTransportClose (BuiltBy (create first)) (Rejected (SdkError "Not connected"));
       EvCreate "sse @ https://docs-ai.cloudapps.cisco.com/mcp/sse";
       EvConnect "sse @ https://docs-ai.cloudapps.cisco.com/mcp/sse";
       EvListTools (ClientFor "sse @ https://docs-ai.cloudapps.cisco.com/mcp/sse")].
Proof. cbv zeta. split; [| split]; vm_compute; reflexivity. Qed.

(** ** Interleaved [connect] calls *)

Section SingleFlight.

Variable sdk : Sdk.

Lemma run_nil rt : run sdk [] rt = rt.
Proof. reflexivity. Qed.

Lemma run_cons a schedule rt : run sdk (a :: schedule) rt = run sdk schedule (step sdk rt a).
Proof. reflexivity. Qed.

Lemma run_app s1 s2 rt : run sdk (s1 ++ s2) rt = run sdk s2 (run sdk s1 rt).
Proof. apply fold_left_app. Qed.

(** The first call on a disconnected client with a key starts the one
    sequence and waits. *)
Lemma first_call_starts this caller :
  client this = None →
  connectPromise this = None →
  apiKey_missing this = false →
  step_call caller (boot this)
  = {| this_ := set_connectPromise (Some (Pending (AwaitFallback (initOptionsOf this)))) this;
       waiting := [caller]; outcomes := []; trace := [EvSequence] |}.
Proof.
  intros Hc Hp Hk. unfold step_call, connectInternal_start. simpl.
  by rewrite (isConnected_false _ Hc), Hp, Hk.
Qed.

(** While the promise is pending and no handle is stored, every further
    call joins the waiters: no new sequence, no outcome yet. *)
Lemma calls_join callers : ∀ rt k,
  client (this_ rt) = None →
  connectPromise (this_ rt) = Some (Pending k) →
  run sdk (Call <$> callers) rt
  = {| this_ := this_ rt; waiting := waiting rt ++ callers;
       outcomes := outcomes rt; trace := trace rt |}.
Proof.
  induction callers as [| c cs IH]; intros rt k Hc Hp.
  - rewrite fmap_nil, run_nil, app_nil_r. by destruct rt.
  - rewrite fmap_cons, run_cons.
    assert (Hstep : step sdk rt (Call c)
      = {| this_ := this_ rt; waiting := waiting rt ++ [c];
           outcomes := outcomes rt; trace := trace rt |}).
    { unfold step, step_call.
      rewrite (isConnected_false _ Hc), Hp, (set_connectPromise_same _ _ Hp).
      by rewrite app_nil_r. }
    rewrite Hstep, (IH _ k) by done. simpl. by rewrite <- app_assoc.
Qed.

(** Once the handle is stored a call returns at once, whatever the
    suspended body will end with. *)
Lemma call_after_handle rt caller h :
  client (this_ rt) = Some h →
  step_call caller rt
  = {| this_ := this_ rt; waiting := waiting rt;
       outcomes := outcomes rt ++ [(caller, Fulfilled ())]; trace := trace rt |}.
Proof. intros Hc. unfold step_call. by rewrite (isConnected_true _ _ Hc). Qed.

(** Callers that all arrive before the fallback sequence has settled share
    its failure, and one sequence has run. *)
Lemma joiners_share_failure this caller callers e evs :
  client this = None →
  connectPromise this = None →
  apiKey_missing this = false →
  connectWithFallback sdk (initOptionsOf this) = (Rejected e, evs) →
  run sdk (Call caller :: (Call <$> callers) ++ [Resume]) (boot this)
  = {| this_ := this; waiting := [];
       outcomes := (λ w, (w, Rejected e)) <$> (caller :: callers);
       trace := EvSequence :: evs |}.
Proof.
  intros Hc Hp Hk Hfb. rewrite run_cons, run_app.
  unfold step at 1. rewrite (first_call_starts _ _ Hc Hp Hk).
  rewrite (calls_join callers _ (AwaitFallback (initOptionsOf this)));
    [| by destruct this | by destruct this].
  rewrite run_cons, run_nil. unfold step, step_resume. simpl.
  unfold afterFallback. rewrite Hfb. simpl.
  unfold settle_waiters. simpl.
  rewrite set_connectPromise_twice. by rewrite (set_connectPromise_same _ _ Hp).
Qed.

(** The body resumed after a fallback sequence that produced a
    connection: the handles are stored and the waiters keep waiting. *)
Lemma resume_stores_handles this callers conn evs :
  connectWithFallback sdk (initOptionsOf this) = (Fulfilled conn, evs) →
  step_resume sdk
    {| this_ := set_connectPromise (Some (Pending (AwaitFallback (initOptionsOf this)))) this;
       waiting := callers; outcomes := []; trace := [EvSequence] |}
  = {| this_ := set_connectPromise (Some (Pending (AwaitListTools (conn_client conn))))
                  (set_connection (Some (conn_client conn)) (Some (conn_transport conn))
                     (conn_connectionLabel conn) this);
       waiting := callers; outcomes := [];
       trace := EvSequence :: evs ++ [EvListTools (conn_client conn)] |}.
Proof.
  intros Hfb. unfold step_resume. simpl. unfold afterFallback. rewrite Hfb.
  by destruct this.
Qed.

(** Any number of callers before the first settlement: one sequence, all of
    them waiting on it. *)
Lemma callers_share_sequence this caller callers :
  client this = None →
  connectPromise this = None →
  apiKey_missing this = false →
  let rt := run sdk (Call caller :: (Call <$> callers)) (boot this) in
  sequences (trace rt) = 1 ∧ waiting rt = caller :: callers ∧ outcomes rt = [].
Proof.
  intros Hc Hp Hk. cbv zeta. rewrite run_cons. unfold step.
  rewrite (first_call_starts _ _ Hc Hp Hk).
  rewrite (calls_join callers _ (AwaitFallback (initOptionsOf this)));
    [done | by destruct this | by destruct this].
Qed.

(** Whatever [listTools] will answer, a caller that arrives after the
    fallback sequence produced a connection is told at once that the client
    is connected, while the first caller is still waiting. *)
Lemma late_caller_is_not_made_to_wait this first late conn evs :
  client this = None →
  connectPromise this = None →
  apiKey_missing this = false →
  connectWithFallback sdk (initOptionsOf this) = (Fulfilled conn, evs) →
  let rt := run sdk [Call first; Resume; Call late] (boot this) in
  outcomes rt = [(late, Fulfilled ())] ∧ waiting rt = [first].
Proof.
  intros Hc Hp Hk Hfb. cbv zeta. rewrite !run_cons, run_nil. unfold step.
  rewrite (first_call_starts _ _ Hc Hp Hk), (resume_stores_handles _ _ _ _ Hfb).
  by rewrite (call_after_handle _ _ (conn_client conn)).
Qed.

(** With nothing interleaved, the machine and [connect] agree. *)
Lemma connect_is_uninterleaved_run this caller :
  client this = None →
  connectPromise this = None →
  let rt := run sdk [Call caller; Resume; Resume] (boot this) in
  outcome_of caller rt = Some (connect sdk this).1.1
  ∧ this_ rt = (connect sdk this).1.2
  ∧ trace rt = (connect sdk this).2.
Proof.
  intros Hc Hp. cbv zeta.
  destruct (apiKey_missing this) eqn:Hk.
  - rewrite (connect_missing_key sdk _ Hc Hp Hk).
    assert (Hrun : run sdk [Call caller; Resume; Resume] (boot this)
      = {| this_ := set_connectPromise (Some (RejectedWith MissingApiKey)) this;
           waiting := []; outcomes := [(caller, Rejected MissingApiKey)]; trace := [] |}).
    { rewrite !run_cons, run_nil. unfold step.
      unfold step_call, connectInternal_start. simpl.
      by rewrite (isConnected_false _ Hc), Hp, Hk. }
    rewrite Hrun. unfold outcome_of. simpl. by rewrite Nat.eqb_refl.
  - destruct (connectWithFallback sdk (initOptionsOf this)) as [[conn | e] evs] eqn:Hfb.
    + rewrite (connect_fallback_fulfilled sdk _ _ _ Hc Hp Hk Hfb).
      assert (Hrun : run sdk [Call caller; Resume; Resume] (boot this)
        = step_resume sdk
            {| this_ := set_connectPromise (Some (Pending (AwaitListTools (conn_client conn))))
                          (set_connection (Some (conn_client conn))
                             (Some (conn_transport conn)) (conn_connectionLabel conn) this);
               waiting := [caller]; outcomes := [];
               trace := EvSequence :: evs ++ [EvListTools (conn_client conn)] |}).
      { rewrite !run_cons, run_nil. unfold step.
        by rewrite (first_call_starts _ _ Hc Hp Hk), (resume_stores_handles _ _ _ _ Hfb). }
      rewrite Hrun. unfold step_resume. simpl.
      destruct (afterListTools sdk (conn_client conn) _) as [r this2].
      unfold settle_waiters, outcome_of. simpl. rewrite Nat.eqb_refl.
      by rewrite app_nil_r.
    + rewrite (connect_fallback_rejected sdk _ _ _ Hc Hp Hk Hfb).
      assert (Hrun : run sdk [Call caller; Resume; Resume] (boot this)
        = {| this_ := this; waiting := []; outcomes := [(caller, Rejected e)];
             trace := EvSequence :: evs |}).
      { change [Call caller; Resume; Resume]
          with ((Call caller :: (Call <$> []) ++ [Resume]) ++ [Resume]).
        rewrite run_app, (joiners_share_failure _ _ _ _ _ Hc Hp Hk Hfb).
        rewrite run_cons, run_nil. unfold step, step_resume. simpl. by rewrite Hp. }
      rewrite Hrun. unfold outcome_of. simpl. by rewrite Nat.eqb_refl.
Qed.

End SingleFlight.

(** C2, on the code. The handle is stored before [listTools] is awaited. A
    second caller that arrives in that window finds [this.client] set and
    resolves at once, while the first caller, still waiting on the shared
    promise, is rejected because the tool is missing: one sequence ran, and
    its two callers end with different outcomes. And without a key the
    rejected promise is stored and never cleared. *)
Theorem late_caller_resolves_early :
  let sdk := reachable [otherTool] in
  let rt := run sdk [Call 1; Resume; Call 2; Resume] (boot freshClient) in
  sequences (trace rt) = 1
  ∧ waiting rt = []
  ∧ outcome_of 1 rt = Some (Rejected (ToolNotExposed DEFAULT_TOOL_NAME))
  ∧ outcome_of 2 rt = Some (Fulfilled ())
  ∧ connectPromise (this_ (run sdk [Call 1; Resume] (boot keylessClient)))
    = Some (RejectedWith MissingApiKey).
Proof.
  cbv zeta. split; [| split; [| split; [| split]]]; vm_compute; reflexivity.
Qed.

(** ** The registry *)

Section Registry.

Variable processEnv : Env.

Lemma getClient_default w :
  getClient processEnv None w
  = getClient processEnv (Some (defaultTargetName (manager w))) w.
Proof. reflexivity. Qed.

Lemma getClient_unknown w wanted :
  findTarget (manager w) wanted = None →
  getClient processEnv (Some wanted) w = (Rejected (UnknownTarget wanted), w).
Proof. intros H. unfold getClient, mbind, M_bind, getManager. simpl. by rewrite H. Qed.

Lemma getClient_cached w wanted target r :
  findTarget (manager w) wanted = Some target →
  clients (manager w) !! wanted = Some r →
  getClient processEnv (Some wanted) w = (Fulfilled r, w).
Proof.
  intros Ht Hc. unfold getClient, mbind, M_bind, getManager. simpl.
  by rewrite Ht, Hc.
Qed.

Lemma getClient_first w wanted target :
  findTarget (manager w) wanted = Some target →
  clients (manager w) !! wanted = None →
  getClient processEnv (Some wanted) w
  = (Fulfilled (length (store w)),
     {| store := store w ++ [newMcpChatClient processEnv (clientOptions target)];
        manager := {| targets := targets (manager w);
                      clients := <[ wanted := length (store w) ]> (clients (manager w));
                      defaultTargetName := defaultTargetName (manager w) |} |}).
Proof.
  intros Ht Hc. unfold getClient, mbind, M_bind, getManager. simpl.
  by rewrite Ht, Hc.
Qed.

(** Whatever [getClient] answers, it leaves the targets alone and only adds
    to the Map. *)
Lemma getClient_extends w targetName wanted r :
  clients (manager w) !! wanted = Some r →
  targets (manager (getClient processEnv targetName w).2) = targets (manager w)
  ∧ clients (manager (getClient processEnv targetName w).2) !! wanted = Some r.
Proof.
  intros Hc.
  set (asked := targetName ?? defaultTargetName (manager w)).
  assert (E : getClient processEnv targetName w = getClient processEnv (Some asked) w).
  { by destruct targetName. }
  rewrite E. destruct (findTarget (manager w) asked) as [t |] eqn:Ht.
  - destruct (clients (manager w) !! asked) as [r' |] eqn:Hasked.
    + by rewrite (getClient_cached _ _ _ _ Ht Hasked).
    + rewrite (getClient_first _ _ _ Ht Hasked). simpl. split; [done |].
      rewrite lookup_insert_ne; [done | congruence].
  - by rewrite (getClient_unknown _ _ Ht).
Qed.

Lemma setDefaultTarget_frame w wanted :
  targets (manager (setDefaultTarget wanted w).2) = targets (manager w)
  ∧ clients (manager (setDefaultTarget wanted w).2) = clients (manager w)
  ∧ store (setDefaultTarget wanted w).2 = store w.
Proof.
  unfold setDefaultTarget, mbind, M_bind, getManager. simpl.
  by destruct (hasTarget (manager w) wanted).
Qed.

(** The summary is a read. *)
Lemma getTargetSummary_frame w wanted : (getTargetSummary wanted w).2 = w.
Proof.
  unfold getTargetSummary, mbind, M_bind, getManager. simpl.
  destruct (findTarget (manager w) wanted); [| done].
  by destruct (clients (manager w) !! wanted).
Qed.

(** One step that is not [closeAll] keeps the targets and every cached
    reference. *)
Lemma execRegistry_keeps w o wanted r :
  isCloseAll o = false →
  clients (manager w) !! wanted = Some r →
  targets (manager (execRegistry processEnv w o)) = targets (manager w)
  ∧ clients (manager (execRegistry processEnv w o)) !! wanted = Some r.
Proof.
  intros Ho Hc. destruct o as [tn | d | sn | r' change | sdk]; simpl in *.
  - by apply getClient_extends.
  - destruct (setDefaultTarget_frame w d) as (-> & -> & _). done.
  - by rewrite getTargetSummary_frame.
  - done.
  - done.
Qed.

Lemma runRegistry_keeps ops : ∀ w wanted r,
  Forall (λ o, isCloseAll o = false) ops →
  clients (manager w) !! wanted = Some r →
  targets (manager (runRegistry processEnv ops w)) = targets (manager w)
  ∧ clients (manager (runRegistry processEnv ops w)) !! wanted = Some r.
Proof.
  induction ops as [| o ops IH]; intros w wanted r Hops Hc; [done |].
  apply Forall_cons in Hops as [Ho Hops].
  destruct (execRegistry_keeps w o wanted r Ho Hc) as [Ht Hc'].
  unfold runRegistry in *. simpl.
  destruct (IH _ _ _ Hops Hc') as [Ht' Hc'']. split; [congruence | done].
Qed.

(** Every construction adds a name to the Map: without [closeAll] there are
    as many client objects as cached names. *)
Lemma execRegistry_count w o :
  isCloseAll o = false →
  size (clients (manager w)) = length (store w) →
  size (clients (manager (execRegistry processEnv w o)))
  = length (store (execRegistry processEnv w o)).
Proof.
  intros Ho Hsize. destruct o as [tn | d | sn | r' change | sdk]; simpl in *.
  - set (asked := tn ?? defaultTargetName (manager w)).
    assert (E : getClient processEnv tn w = getClient processEnv (Some asked) w).
    { by destruct tn. }
    rewrite E. destruct (findTarget (manager w) asked) as [t |] eqn:Ht.
    + destruct (clients (manager w) !! asked) as [r |] eqn:Hasked.
      * by rewrite (getClient_cached _ _ _ _ Ht Hasked).
      * rewrite (getClient_first _ _ _ Ht Hasked). simpl.
        rewrite map_size_insert_None by done.
        rewrite length_app. simpl. lia.
    + by rewrite (getClient_unknown _ _ Ht).
  - destruct (setDefaultTarget_frame w d) as (_ & -> & ->). done.
  - by rewrite getTargetSummary_frame.
  - destruct (store w !! r'); [| done]. by rewrite length_insert.
  - done.
Qed.

Lemma runRegistry_count ops : ∀ w,
  Forall (λ o, isCloseAll o = false) ops →
  size (clients (manager w)) = length (store w) →
  size (clients (manager (runRegistry processEnv ops w)))
  = length (store (runRegistry processEnv ops w)).
Proof.
  induction ops as [| o ops IH]; intros w Hops Hsize; [done |].
  apply Forall_cons in Hops as [Ho Hops].
  unfold runRegistry in *. simpl. apply IH; [done |].
  by apply execRegistry_count.
Qed.

Lemma findTarget_targets m m' wanted :
  targets m' = targets m → findTarget m' wanted = findTarget m wanted.
Proof. unfold findTarget. by intros ->. Qed.

End Registry.

(** C8. [getClient] without a name asks for the default target; with an
    unregistered name it fails with the unknown-target error and changes
    nothing; for a registered name the first call constructs the client and
    stores it in the Map, and after any further use of the registry that
    does not go through [closeAll] (other [getClient] calls, a new default,
    summaries, any change to the state of a client such as a failed
    connect) the same call returns the same object without constructing
    another: there are as many client objects as cached names. [closeAll]
    empties the Map, and the [getClient] that follows it constructs a new
    client object for the name. *)
Theorem getClient_memoized (processEnv : Env) (ops : list registryOp) (w : World)
    (wanted : string) (target : Target) :
  Forall (λ o, isCloseAll o = false) ops →
  findTarget (manager w) wanted = Some target →
  let w1 := (getClient processEnv (Some wanted) w).2 in
  let w2 := runRegistry processEnv ops w1 in
  ∃ r,
    getClient processEnv (Some wanted) w = (Fulfilled r, w1)
    ∧ (clients (manager w) !! wanted = None →
       r = length (store w)
       ∧ store w1 = store w ++ [newMcpChatClient processEnv (clientOptions target)])
    ∧ (is_Some (clients (manager w) !! wanted) → w1 = w)
    ∧ clients (manager w1) !! wanted = Some r
    ∧ getClient processEnv (Some wanted) w2 = (Fulfilled r, w2)
    ∧ (size (clients (manager w)) = length (store w) →
       size (clients (manager w2)) = length (store w2))
    ∧ getClient processEnv None w
      = getClient processEnv (Some (defaultTargetName (manager w))) w
    ∧ (∀ unknown, findTarget (manager w) unknown = None →
         getClient processEnv (Some unknown) w = (Rejected (UnknownTarget unknown), w))
    ∧ (∀ sdk,
         let w3 := (closeAll sdk w2).2 in
         clients (manager w3) = ∅
         ∧ (getClient processEnv (Some wanted) w3).1 = Fulfilled (length (store w3))
         ∧ store (getClient processEnv (Some wanted) w3).2
           = store w3 ++ [newMcpChatClient processEnv (clientOptions target)]).
Proof.
  intros Hops Ht w1 w2.
  assert (Hfirst : ∃ r, getClient processEnv (Some wanted) w = (Fulfilled r, w1)
                        ∧ clients (manager w1) !! wanted = Some r
                        ∧ targets (manager w1) = targets (manager w)
                        ∧ (size (clients (manager w)) = length (store w) →
                           size (clients (manager w1)) = length (store w1))
                        ∧ (clients (manager w) !! wanted = None →
                           r = length (store w)
                           ∧ store w1 = store w
                               ++ [newMcpChatClient processEnv (clientOptions target)])
                        ∧ (is_Some (clients (manager w) !! wanted) → w1 = w)).
  { subst w1. destruct (clients (manager w) !! wanted) as [r |] eqn:Hc.
    - rewrite (getClient_cached _ _ _ _ _ Ht Hc). exists r. simpl.
      split; [done |]. split; [done |]. split; [done |]. split; [done |].
      split; [done | by intros _].
    - rewrite (getClient_first _ _ _ _ Ht Hc). exists (length (store w)). simpl.
      split; [done |]. split; [by rewrite lookup_insert_eq |]. split; [done |].
      split; [| split; [done | by intros [? ?]]].
      intros Hsize. rewrite map_size_insert_None by done.
      rewrite length_app. simpl. lia. }
  destruct Hfirst as (r & Hget & Hcached & Htargets & Hsize1 & Hnew & Hold).
  exists r. split; [exact Hget |]. split; [exact Hnew |]. split; [exact Hold |].
  split; [exact Hcached |].
  destruct (runRegistry_keeps processEnv ops w1 wanted r Hops Hcached) as [Ht2 Hc2].
  split.
  - apply (getClient_cached _ _ _ target); [| exact Hc2].
    rewrite (findTarget_targets (manager w) (manager w2)); [done |].
    unfold w2. by rewrite Ht2.
  - split; [intros Hsize; apply runRegistry_count; [done | by apply Hsize1] |].
    split; [reflexivity |]. split; [intros unknown; apply getClient_unknown |].
    intros sdk w3.
    assert (Ht3 : findTarget (manager w3) wanted = Some target).
    { rewrite (findTarget_targets (manager w) (manager w3)); [done |].
      change (targets (manager w3)) with (targets (manager w2)).
      unfold w2. by rewrite Ht2. }
    assert (Hc3 : clients (manager w3) !! wanted = None) by apply lookup_empty.
    split; [done |]. by rewrite (getClient_first _ _ _ _ Ht3 Hc3).
Qed.

(** The target is listed twice; the client fails to connect, the default
    target is asked for, set and summarised: [getClient('A')] still returns
    the object constructed first, and it is the only one. *)
Lemma getClient_memoized_witness :
  let ops := [OpOnClient 0 (λ c, (connect unreachable c).1.2); OpGetClient None;
              OpSetDefaultTarget "A"; OpGetTargetSummary "A"] in
  let w1 := (getClient empty_env (Some "A") twinWorld).2 in
  let w2 := runRegistry empty_env ops w1 in
  Forall (λ o, isCloseAll o = false) ops
  ∧ length (targets (manager twinWorld)) = 2
  ∧ (getClient empty_env (Some "A") twinWorld).1 = Fulfilled 0
  ∧ (getClient empty_env (Some "A") w2).1 = Fulfilled 0
  ∧ length (store w2) = 1.
Proof.
  cbv zeta.
  assert (Hops : Forall (λ o, isCloseAll o = false)
                   [OpOnClient 0 (λ c, (connect unreachable c).1.2); OpGetClient None;
                    OpSetDefaultTarget "A"; OpGetTargetSummary "A"]).
  { repeat constructor. }
  split; [exact Hops |]. split; [reflexivity |].
  destruct (getClient_memoized empty_env _ twinWorld "A"
              {| name := "A"; options := withKey; useProcessEnv := false |}
              Hops eq_refl)
    as (r & Hget & Hnew & _ & Hcached & Hagain & Hcount & _).
  destruct (Hnew eq_refl) as [-> _].
  split; [by rewrite Hget |]. split; [by rewrite Hagain |].
  rewrite <- (Hcount eq_refl). reflexivity.
Defined.

(** ** The summary of a target *)




(** ** [close] and the primary key *)

Section Close.

Lemma close_fields sdk this :
  client (close sdk this).1 = None
  ∧ transport (close sdk this).1 = None
  ∧ selectedTool (close sdk this).1 = None
  ∧ connectionLabel (close sdk this).1 = ""
  ∧ primaryArgKey (close sdk this).1 = primaryArgKey this.
Proof. by destruct this. Qed.

Lemma close_keeps_configuration sdk this :
  connectPromise (close sdk this).1 = connectPromise this
  ∧ apiKey (close sdk this).1 = apiKey this
  ∧ toolName (close sdk this).1 = toolName this
  ∧ productFilter (close sdk this).1 = productFilter this
  ∧ staticArgs (close sdk this).1 = staticArgs this.
Proof. by destruct this. Qed.

(** A [connect] that runs to its end leaves no promise behind when a key is
    configured, whatever the servers answered. *)
Lemma connect_clears_promise sdk this :
  connectPromise this = None →
  apiKey_missing this = false →
  connectPromise (connect sdk this).1.2 = None
  ∧ apiKey_missing (connect sdk this).1.2 = false.
Proof.
  intros Hp Hk. destruct (client this) as [h |] eqn:Hc.
  - by rewrite (connect_connected sdk _ _ Hc).
  - destruct (connectWithFallback sdk (initOptionsOf this)) as [[conn | e] evs] eqn:Hfb.
    + rewrite (connect_fallback_fulfilled sdk _ _ _ Hc Hp Hk Hfb).
      unfold afterListTools. unfold apiKey_missing in *.
      destruct (listTools sdk (conn_client conn)) as [tools | e]; simpl.
      * destruct (findTool tools (toolName this)); by destruct this.
      * by destruct this.
    + by rewrite (connect_fallback_rejected sdk _ _ _ Hc Hp Hk Hfb).
Qed.

Lemma runSession_clears_promise ops : ∀ this,
  connectPromise this = None →
  apiKey_missing this = false →
  connectPromise (runSession ops this) = None
  ∧ apiKey_missing (runSession ops this) = false.
Proof.
  induction ops as [| o ops IH]; intros this Hp Hk; [done |].
  unfold runSession in *. simpl. destruct o as [sdk | sdk]; simpl.
  - destruct (connect_clears_promise sdk this Hp Hk) as [Hp' Hk']. by apply IH.
  - apply IH.
    + by destruct this.
    + unfold apiKey_missing in *. by destruct this.
Qed.

End Close.

(** C10. After any sequence of connects and closes on a client with a key,
    [close] resets the client handle, the transport handle, the selected
    tool and the label, and leaves the primary key as it was. The next
    connection that finds the tool infers from its schema with that key as
    the fallback: when the schema allows no inference the key of the
    previous connection stays, it does not go back to [query]. *)
Theorem close_keeps_primary_key (sdk sdk' : Sdk) (ops : list sessionOp)
    (this0 : McpChatClient) (conn : Connection) (evs : list event)
    (tools : list Tool) (tool : Tool) :
  connectPromise this0 = None →
  apiKey_missing this0 = false →
  let this := runSession ops this0 in
  let closed := (close sdk this).1 in
  connectWithFallback sdk' (initOptionsOf closed) = (Fulfilled conn, evs) →
  listTools sdk' (conn_client conn) = Fulfilled tools →
  findTool tools (toolName closed) = Some tool →
  client closed = None
  ∧ transport closed = None
  ∧ selectedTool closed = None
  ∧ connectionLabel closed = ""
  ∧ isConnected closed = false
  ∧ primaryArgKey closed = primaryArgKey this
  ∧ (connect sdk' closed).1.1 = Fulfilled ()
  ∧ primaryArgKey (connect sdk' closed).1.2
    = pickPrimaryArgument (inputSchema tool) ?? primaryArgKey this
  ∧ (pickPrimaryArgument (inputSchema tool) = None →
     primaryArgKey (connect sdk' closed).1.2 = primaryArgKey this).
Proof.
  intros Hp Hk this closed Hfb Hl Hf.
  destruct (runSession_clears_promise ops this0 Hp Hk) as [Hp1 Hk1].
  destruct (close_fields sdk this) as (Hc & Ht & Hs & Hlab & Hkey).
  destruct (close_keeps_configuration sdk this) as (Hp2 & Hk2 & _).
  fold closed in Hc, Ht, Hs, Hlab, Hkey, Hp2, Hk2.
  assert (Hp3 : connectPromise closed = None) by (by rewrite Hp2).
  assert (Hk3 : apiKey_missing closed = false).
  { unfold apiKey_missing in *. by rewrite Hk2. }
  assert (Hconn := connect_tool_found sdk' closed conn evs tools tool Hc Hp3 Hk3 Hfb Hl Hf).
  assert (Hres : (connect sdk' closed).1.1 = Fulfilled ()) by (by rewrite Hconn).
  assert (Hinferred : primaryArgKey (connect sdk' closed).1.2
                      = pickPrimaryArgument (inputSchema tool) ?? primaryArgKey this).
  { rewrite Hconn, <- Hkey. reflexivity. }
  split; [done |]. split; [done |]. split; [done |]. split; [done |].
  split; [by apply isConnected_false |]. split; [done |]. split; [done |].
  split; [done |]. intros Hnone. by rewrite Hinferred, Hnone.
Qed.

(** A first server offers the tool with the single property [topic]; after
    [close], a second server offers it with two numeric properties: the key
    is still [topic]. *)
Lemma close_keeps_primary_key_witness :
  let this := runSession [DoConnect (reachable [docsTool topicSchema])] freshClient in
  let closed := (close (reachable []) this).1 in
  primaryArgKey this = "topic"
  ∧ pickPrimaryArgument (Some numbersSchema) = None
  ∧ isConnected closed = false
  ∧ (connect (reachable [docsTool numbersSchema]) closed).1.1 = Fulfilled ()
  ∧ primaryArgKey (connect (reachable [docsTool numbersSchema]) closed).1.2 = "topic".
Proof.
  cbv zeta.
  destruct (close_keeps_primary_key (reachable []) (reachable [docsTool numbersSchema])
              [DoConnect (reachable [docsTool topicSchema])] freshClient
              {| conn_client := ClientFor (label (streamableAttempt (initOptionsOf freshClient)));
                 conn_transport := BuiltBy (create (streamableAttempt (initOptionsOf freshClient)));
                 conn_connectionLabel := label (streamableAttempt (initOptionsOf freshClient)) |}
              [EvCreate (label (streamableAttempt (initOptionsOf freshClient)));
               EvConnect (label (streamableAttempt (initOptionsOf freshClient)))]
              [docsTool numbersSchema] (docsTool numbersSchema)
              eq_refl eq_refl eq_refl eq_refl eq_refl)
    as (_ & _ & _ & _ & Hdis & _ & Hok & _ & Hkeep).
  split; [reflexivity |]. split; [reflexivity |]. split; [exact Hdis |].
  split; [exact Hok |]. rewrite (Hkeep eq_refl). reflexivity.
Defined.

(** C8, on the code. [closeAll] empties the Map: the [getClient] that
    follows it constructs a second client object for the same name and
    returns that one, not the instance returned before. *)
Example closeAll_forgets :
  let w1 := (getClient empty_env (Some "A") twinWorld).2 in
  let w2 := (closeAll (reachable []) w1).2 in
  let w3 := (getClient empty_env (Some "A") w2).2 in
  (getClient empty_env (Some "A") twinWorld).1 = Fulfilled 0
  ∧ (getClient empty_env (Some "A") w1).1 = Fulfilled 0
  ∧ clients (manager w2) = ∅
  ∧ (getClient empty_env (Some "A") w2).1 = Fulfilled 1
  ∧ length (store w3) = 2.
Proof. cbv zeta. split; [| split; [| split; [| split]]]; reflexivity. Qed.

(** * Further properties of the code *)

(** ** Strings *)

Section Strings.

Lemma trim_start_head s a r : Js.trim_start s = String a r → Js.is_space a = false.
Proof.
  induction s as [| b s IH]; simpl; [done |].
  destruct (Js.is_space b) eqn:Hb; [exact IH |]. by intros [= <- <-].
Qed.

Lemma trim_start_kept a r : Js.is_space a = false → Js.trim_start (String a r) = String a r.
Proof. simpl. by intros ->. Qed.

Lemma trim_end_kept a r :
  Js.is_space a = false → Js.trim_end (String a r) = String a (Js.trim_end r).
Proof. simpl. intros ->. by destruct (Js.trim_end r). Qed.

Lemma trim_end_idemp s : Js.trim_end (Js.trim_end s) = Js.trim_end s.
Proof.
  induction s as [| a s IH]; [done |]. simpl.
  destruct (Js.trim_end s) as [| b kept] eqn:Hend.
  - destruct (Js.is_space a) eqn:Ha; [done |]. simpl. by rewrite Ha.
  - change (Js.trim_end (String a (String b kept))) with
      (match Js.trim_end (String b kept) with
       | EmptyString => if Js.is_space a then EmptyString else String a EmptyString
       | kept' => String a kept'
       end).
    by rewrite IH.
Qed.

Lemma trim_idemp s : Js.trim (Js.trim s) = Js.trim s.
Proof.
  unfold Js.trim. destruct (Js.trim_start s) as [| a r] eqn:Hstart; [done |].
  pose proof (trim_start_head _ _ _ Hstart) as Ha.
  rewrite (trim_end_kept _ _ Ha), (trim_start_kept _ _ Ha), <- (trim_end_kept _ _ Ha).
  apply trim_end_idemp.
Qed.

Lemma toLowerCase_length s : String.length (Js.toLowerCase s) = String.length s.
Proof. induction s as [| a s IH]; simpl; [done | by rewrite IH]. Qed.

Lemma toLowerCase_app s1 s2 :
  Js.toLowerCase (s1 +:+ s2) = Js.toLowerCase s1 +:+ Js.toLowerCase s2.
Proof. induction s1 as [| a s1 IH]; simpl; [done | by rewrite IH]. Qed.

Lemma lower_ascii_idemp a : Js.lower_ascii (Js.lower_ascii a) = Js.lower_ascii a.
Proof.
  unfold Js.lower_ascii.
  destruct ((65 <=? nat_of_ascii a) && (nat_of_ascii a <=? 90))%nat eqn:Hup; [| by rewrite Hup].
  apply andb_true_iff in Hup as [H1%Nat.leb_le H2%Nat.leb_le].
  rewrite nat_ascii_embedding by lia.
  rewrite (proj2 (andb_false_iff _ _)); [done |].
  right. apply Nat.leb_gt. lia.
Qed.

Lemma toLowerCase_idemp s : Js.toLowerCase (Js.toLowerCase s) = Js.toLowerCase s.
Proof. induction s; simpl; [done |]. by rewrite lower_ascii_idemp, IHs. Qed.

End Strings.

(** ** The product filter *)

Lemma nonempty_false s : Js.nonempty s = false ↔ s = "".
Proof.
  unfold Js.nonempty. destruct (String.eqb_spec s ""); simpl; split; congruence.
Qed.

Lemma trim_start_ascii s : isAscii s = true → isAscii (Js.trim_start s) = true.
Proof.
  induction s as [| a s IH]; [done |]. intros Hs. cbn [Js.trim_start].
  destruct (Js.is_space a); [| done].
  cbn [isAscii] in Hs. apply andb_true_iff in Hs as [_ Hs]. by apply IH.
Qed.

Lemma trim_end_ascii s : isAscii s = true → isAscii (Js.trim_end s) = true.
Proof.
  induction s as [| a s IH]; [done |]. intros Hs.
  cbn [isAscii] in Hs. apply andb_true_iff in Hs as [Ha Hs].
  specialize (IH Hs). cbn [Js.trim_end].
  destruct (Js.trim_end s) as [| b kept].
  - destruct (Js.is_space a); [done |]. cbn [isAscii]. by rewrite Ha.
  - cbn [isAscii] in *. by rewrite Ha, IH.
Qed.

(** X1. For a value of ASCII characters, what [setProductFilter] stores and
    returns is what [getProductFilter] reads afterwards; it is null exactly
    when the value is missing or blank, and otherwise it is the trimmed
    value: of ASCII characters, non-empty, unchanged by another trim, and
    stored again as it is. *)
Theorem setProductFilter_normalises (value : option string) (this : McpChatClient) :
  (∀ v, value = Some v → isAscii v = true) →
  getProductFilter (setProductFilter value this).2 = (setProductFilter value this).1
  ∧ ((setProductFilter value this).1 = None ↔ ∀ v, value = Some v → Js.trim v = "")
  ∧ (∀ f, (setProductFilter value this).1 = Some f →
       (∃ v, value = Some v ∧ f = Js.trim v)
       ∧ isAscii f = true
       ∧ Js.nonempty f = true
       ∧ Js.trim f = f
       ∧ setProductFilter (Some f) (setProductFilter value this).2
         = (Some f, (setProductFilter value this).2))
  ∧ client (setProductFilter value this).2 = client this
  ∧ primaryArgKey (setProductFilter value this).2 = primaryArgKey this.
Proof.
  intros Hascii. unfold setProductFilter, trimmedOrNull, getProductFilter.
  destruct value as [v |]; simpl.
  - destruct (Js.nonempty (Js.trim v)) eqn:Hne; simpl.
    + split; [done |]. split.
      { split; [done |]. intros Hblank. rewrite (Hblank v eq_refl) in Hne. done. }
      split; [| done].
      intros f [= <-]. split; [by exists v |].
      split; [by apply trim_end_ascii, trim_start_ascii, Hascii |]. split; [done |].
      split; [apply trim_idemp |].
      rewrite trim_idemp, Hne. by destruct this.
    + split; [done |]. split.
      { split; [| done]. intros _ v' [= <-]. by apply nonempty_false. }
      split; [| done]. by intros f.
  - split; [done |]. split; [by split |]. split; [by intros f |]. done.
Qed.

(** [' Cisco ACI '] is stored as ['Cisco ACI']. *)
Lemma setProductFilter_normalises_witness :
  isAscii " Cisco ACI " = true
  ∧ (setProductFilter (Some " Cisco ACI ") freshClient).1 = Some "Cisco ACI"
  ∧ Js.trim "Cisco ACI" = "Cisco ACI".
Proof.
  split; [reflexivity |]. split; [reflexivity |].
  assert (Hascii : ∀ v, Some " Cisco ACI " = Some v → isAscii v = true)
    by (by intros v [= <-]).
  exact (proj1 (proj2 (proj2 (proj2 (proj1 (proj2 (proj2
           (setProductFilter_normalises (Some " Cisco ACI ") freshClient Hascii)))
           "Cisco ACI" eq_refl))))).
Defined.

(** ** The streamable URL derived from the SSE URL *)

Section SseSuffix.

Lemma string_app_length s1 s2 :
  String.length (s1 +:+ s2) = String.length s1 + String.length s2.
Proof. induction s1 as [| a s1 IH]; simpl; [done | by rewrite IH]. Qed.

Lemma dropSseSuffix_step c t :
  Js.toLowerCase (String c t) ≠ "/sse" →
  Js.toLowerCase (String c t) ≠ "/sse/" →
  dropSseSuffix (String c t) = String c (dropSseSuffix t).
Proof.
  intros H1 H2. change (dropSseSuffix (String c t)) with
    (if String.eqb (Js.toLowerCase (String c t)) "/sse"
        || String.eqb (Js.toLowerCase (String c t)) "/sse/"
     then EmptyString else String c (dropSseSuffix t)).
  by rewrite (proj2 (String.eqb_neq _ _) H1), (proj2 (String.eqb_neq _ _) H2).
Qed.

Lemma dropSseSuffix_match sfx : isSseSuffix sfx → dropSseSuffix sfx = "".
Proof.
  intros Hs. destruct sfx as [| c t]; [done |].
  change (dropSseSuffix (String c t)) with
    (if String.eqb (Js.toLowerCase (String c t)) "/sse"
        || String.eqb (Js.toLowerCase (String c t)) "/sse/"
     then EmptyString else String c (dropSseSuffix t)).
  destruct Hs as [-> | ->]; reflexivity.
Qed.

Lemma isSseSuffix_length sfx :
  isSseSuffix sfx → String.length sfx = 4 ∨ String.length sfx = 5.
Proof.
  intros [H | H]; apply (f_equal String.length) in H;
    rewrite toLowerCase_length in H; simpl in H; auto.
Qed.

(** Nothing longer than the suffix is itself matched from its start. *)
Lemma longer_is_no_match c u sfx :
  isSseSuffix sfx →
  Js.toLowerCase (String c (u +:+ sfx)) ≠ "/sse"
  ∧ Js.toLowerCase (String c (u +:+ sfx)) ≠ "/sse/".
Proof.
  intros Hs. pose proof (isSseSuffix_length _ Hs) as Hlen.
  split; intros H.
  - apply (f_equal String.length) in H.
    rewrite toLowerCase_length in H. simpl in H. rewrite string_app_length in H. lia.
  - pose proof (f_equal String.length H) as Hl.
    rewrite toLowerCase_length in Hl. simpl in Hl. rewrite string_app_length in Hl.
    assert (u = "") as -> by (destruct u; [done | simpl in Hl; lia]).
    simpl in Hl.
    assert (H' : String (Js.lower_ascii c) (Js.toLowerCase sfx) = "/sse/") by exact H.
    injection H' as _ H'.
    destruct Hs as [Hs | Hs].
    + rewrite Hs in H'. discriminate.
    + apply (f_equal String.length) in Hs. rewrite toLowerCase_length in Hs.
      simpl in Hs. lia.
Qed.

Lemma dropSseSuffix_app u sfx : isSseSuffix sfx → dropSseSuffix (u +:+ sfx) = u.
Proof.
  intros Hs. induction u as [| c u IH].
  - by apply dropSseSuffix_match.
  - destruct (longer_is_no_match c u sfx Hs) as [H1 H2].
    change (String c u +:+ sfx) with (String c (u +:+ sfx)).
    rewrite dropSseSuffix_step by done. by rewrite IH.
Qed.

Lemma dropSseSuffix_none s :
  (∀ u sfx, s = u +:+ sfx → ¬ isSseSuffix sfx) → dropSseSuffix s = s.
Proof.
  induction s as [| c s IH]; intros Hno; [done |].
  rewrite dropSseSuffix_step.
  - rewrite IH; [done |]. intros u sfx -> Hs. by apply (Hno (String c u) sfx).
  - intros H. apply (Hno "" (String c s)); [done | by left].
  - intros H. apply (Hno "" (String c s)); [done | by right].
Qed.

End SseSuffix.

(** X2. [stripSseSuffix] removes one trailing [/sse] or [/sse/], in any
    letter case, and nothing else: a URL that ends in neither is returned
    unchanged, and so is the empty string. *)
Theorem stripSseSuffix_removes_suffix (u sfx : string) :
  isSseSuffix sfx →
  stripSseSuffix (u +:+ sfx) = u
  ∧ (∀ s, (∀ u' sfx', s = u' +:+ sfx' → ¬ isSseSuffix sfx') → stripSseSuffix s = s).
Proof.
  intros Hs. split.
  - unfold stripSseSuffix.
    assert (Hne : Js.nonempty (u +:+ sfx) = true).
    { destruct (Js.nonempty (u +:+ sfx)) eqn:E; [done |].
      apply nonempty_false in E. apply (f_equal String.length) in E.
      rewrite string_app_length in E. simpl in E.
      destruct (isSseSuffix_length _ Hs); lia. }
    rewrite Hne. simpl. by apply dropSseSuffix_app.
  - intros s Hno. unfold stripSseSuffix.
    destruct (Js.nonempty s); simpl; [by apply dropSseSuffix_none | done].
Qed.

Lemma stripSseSuffix_removes_suffix_witness :
  isSseSuffix "/SSE/"
  ∧ stripSseSuffix ("https://host/mcp" +:+ "/SSE/") = "https://host/mcp".
Proof.
  assert (H : isSseSuffix "/SSE/") by (by right).
  split; [exact H |].
  exact (proj1 (stripSseSuffix_removes_suffix "https://host/mcp" "/SSE/" H)).
Defined.

(** ** More on the fallback sequence *)

Section FallbackTrace.

Variable sdk : Sdk.

Lemma tryAttempts_fulfilled_inv attempts : ∀ lastError conn,
  (tryAttempts sdk attempts lastError).1 = Fulfilled conn →
  ∃ a, a ∈ attempts
       ∧ conn = {| conn_client := ClientFor (label a);
                   conn_transport := BuiltBy (create a);
                   conn_connectionLabel := label a |}
       ∧ builds sdk a
       ∧ clientConnect sdk (BuiltBy (create a)) = Fulfilled ().
Proof.
  induction attempts as [| a rest IH]; intros lastError conn; simpl; [done |].
  unfold invoke, builds.
  destruct (newURL sdk (factory_url (create a))) as [e |] eqn:Hurl; [done |].
  destruct (clientConnect sdk (BuiltBy (create a))) as [[] | err] eqn:Hconn.
  - simpl. intros [= <-]. exists a. split; [apply list_elem_of_here | done].
  - specialize (IH (Some err) conn).
    destruct (tryAttempts sdk rest (Some err)) as [r evs]. simpl in *.
    intros Hr. destruct (IH Hr) as (b & Hin & Hb). exists b.
    split; [by apply list_elem_of_further | done].
Qed.

(** X3. Every run of the fallback loop splits the attempt list in the
    attempts that failed to connect and the rest: the failed ones are the
    ones warned about, in order, and the clients and the transports closed
    are exactly theirs, the client made for each and the transport its own
    factory built. The factories called are those of the failed attempts
    and, unless the list is exhausted, of the attempt that follows them:
    either it connected, and the connection returned carries its label, its
    client and the transport its factory built, or its factory threw, and
    that error ends the loop. When the list is exhausted the error is the
    one the last attempt was refused with. *)
Theorem fallback_trace_shape (attempts : list Attempt) (lastError : option error) :
  let r := tryAttempts sdk attempts lastError in
  ∃ failed rest,
    attempts = failed ++ rest
    ∧ Forall (λ a, builds sdk a
                   ∧ is_fulfilled (clientConnect sdk (BuiltBy (create a))) = false) failed
    ∧ warned r.2 = label <$> failed
    ∧ closedClients r.2 = (λ a, ClientFor (label a)) <$> failed
    ∧ closedTransports r.2 = (λ a, BuiltBy (create a)) <$> failed
    ∧ match r.1, rest with
      | Fulfilled conn, a :: _ =>
          created r.2 = label <$> failed ++ [a]
          ∧ conn = {| conn_client := ClientFor (label a);
                      conn_transport := BuiltBy (create a);
                      conn_connectionLabel := label a |}
          ∧ clientConnect sdk (BuiltBy (create a)) = Fulfilled ()
      | Rejected e, a :: _ =>
          created r.2 = label <$> failed ++ [a]
          ∧ invoke sdk (create a) = Rejected e
      | Rejected e, [] =>
          created r.2 = label <$> failed
          ∧ match last failed with
            | Some a => clientConnect sdk (BuiltBy (create a)) = Rejected e
            | None => e = lastError ?? AllTransportsFailed
            end
      | Fulfilled _, [] => False
      end.
Proof.
  cbv zeta. revert lastError.
  induction attempts as [| a rest IH]; intros lastError.
  - exists [], []. cbn. split; [done |]. split; [constructor | done].
  - cbn [tryAttempts].
    destruct (invoke sdk (create a)) as [t | thrown] eqn:Hinv.
    + assert (Hbuilt : t = BuiltBy (create a) ∧ builds sdk a).
      { unfold invoke, builds in *.
        destruct (newURL sdk (factory_url (create a))); [done |]. by injection Hinv as <-. }
      destruct Hbuilt as [-> Hbuilds].
      destruct (clientConnect sdk (BuiltBy (create a))) as [[] | err] eqn:Hconn.
      * exists [], (a :: rest). cbn. split; [done |]. split; [constructor | done].
      * destruct (IH (Some err)) as (failed & rest' & Hsplit & Hfailed & Hw & Hcc & Hct & Hres).
        destruct (tryAttempts sdk rest (Some err)) as [r evs]. cbn [fst snd] in *.
        exists (a :: failed), rest'.
        split; [by rewrite Hsplit |].
        split; [apply Forall_cons; split; [| done]; by rewrite Hconn |].
        split; [cbn; by rewrite <- Hw |].
        split; [cbn; by rewrite <- Hcc |].
        split; [cbn; by rewrite <- Hct |].
        destruct r as [conn | e]; destruct rest' as [| b rest'']; try done.
        -- destruct Hres as (Hcr & Hconn' & Hok). split; [| done].
           cbn. by rewrite <- Hcr.
        -- destruct Hres as [Hcr Hlast]. split; [cbn; by rewrite <- Hcr |].
           rewrite last_cons. destruct (last failed) as [b |] eqn:Hl; [done |].
           subst e. done.
        -- destruct Hres as [Hcr Hthrown]. split; [| done].
           cbn. by rewrite <- Hcr.
    + exists [], (a :: rest). cbn. split; [done |]. split; [constructor | done].
Qed.

End FallbackTrace.

(** ** What a successful [connect] leaves *)

Section ConnectSuccess.

Variable sdk : Sdk.

Lemma findTool_some tools wanted tool :
  findTool tools wanted = Some tool → tool ∈ tools ∧ tool_name tool = wanted.
Proof.
  unfold findTool. intros H. apply find_some in H as [Hin Heq].
  split; [by apply list_elem_of_In | by apply String.eqb_eq].
Qed.

Lemma connect_listTools_rejected this conn evs e :
  client this = None →
  connectPromise this = None →
  apiKey_missing this = false →
  connectWithFallback sdk (initOptionsOf this) = (Fulfilled conn, evs) →
  listTools sdk (conn_client conn) = Rejected e →
  (connect sdk this).1.1 = Rejected e.
Proof.
  intros Hc Hp Hk Hfb Hl. rewrite (connect_fallback_fulfilled sdk _ _ _ Hc Hp Hk Hfb).
  unfold afterListTools. by rewrite Hl.
Qed.

(** A [connect] that succeeds from the disconnected state went through
    every stage. *)
Lemma connect_fulfilled_inv this :
  client this = None →
  connectPromise this = None →
  (connect sdk this).1.1 = Fulfilled () →
  apiKey_missing this = false
  ∧ ∃ conn evs tools tool,
      connectWithFallback sdk (initOptionsOf this) = (Fulfilled conn, evs)
      ∧ listTools sdk (conn_client conn) = Fulfilled tools
      ∧ findTool tools (toolName this) = Some tool.
Proof.
  intros Hc Hp Hok.
  destruct (apiKey_missing this) eqn:Hk.
  { by rewrite (connect_missing_key sdk _ Hc Hp Hk) in Hok. }
  split; [done |].
  destruct (connectWithFallback sdk (initOptionsOf this)) as [[conn | e] evs] eqn:Hfb.
  2:{ by rewrite (connect_fallback_rejected sdk _ _ _ Hc Hp Hk Hfb) in Hok. }
  destruct (listTools sdk (conn_client conn)) as [tools | e] eqn:Hl.
  2:{ by rewrite (connect_listTools_rejected _ _ _ _ Hc Hp Hk Hfb Hl) in Hok. }
  destruct (findTool tools (toolName this)) as [tool |] eqn:Hf.
  2:{ by rewrite (connect_tool_absent sdk _ _ _ _ Hc Hp Hk Hfb Hl Hf) in Hok. }
  by exists conn, evs, tools, tool.
Qed.

End ConnectSuccess.

(** X4. A [connect] that resolves on a disconnected client leaves a usable
    session: a key was configured, the selected tool is one the server
    listed and bears the configured name, the label and both handles are
    those of one attempt of the list whose transport connected, no promise
    is left behind, and [isConnected] is true. *)
Theorem connect_success_state (sdk : Sdk) (this : McpChatClient) :
  client this = None →
  connectPromise this = None →
  (connect sdk this).1.1 = Fulfilled () →
  let after := (connect sdk this).1.2 in
  apiKey_missing this = false
  ∧ isConnected after = true
  ∧ connectPromise after = None
  ∧ (∃ tools tool,
       listTools sdk (ClientFor (connectionLabel after)) = Fulfilled tools
       ∧ tool ∈ tools
       ∧ tool_name tool = toolName this
       ∧ selectedTool after = Some tool
       ∧ primaryArgKey after
         = pickPrimaryArgument (inputSchema tool) ?? primaryArgKey this)
  ∧ (∃ a, a ∈ buildTransportAttempts (initOptionsOf this)
          ∧ connectionLabel after = label a
          ∧ client after = Some (ClientFor (label a))
          ∧ transport after = Some (BuiltBy (create a))
          ∧ clientConnect sdk (BuiltBy (create a)) = Fulfilled ()).
Proof.
  intros Hc Hp Hok after.
  destruct (connect_fulfilled_inv sdk this Hc Hp Hok)
    as (Hk & conn & evs & tools & tool & Hfb & Hl & Hf).
  assert (Hconn := connect_tool_found sdk this conn evs tools tool Hc Hp Hk Hfb Hl Hf).
  assert (Hafter : after
    = set_primaryArgKey (pickPrimaryArgument (inputSchema tool) ?? primaryArgKey this)
        (set_selectedTool (Some tool)
           (set_connection (Some (conn_client conn)) (Some (conn_transport conn))
              (conn_connectionLabel conn) this))).
  { unfold after. by rewrite Hconn. }
  rewrite connectWithFallback_tryAttempts in Hfb.
  destruct (tryAttempts_fulfilled_inv sdk
              (buildTransportAttempts (initOptionsOf this)) None conn)
    as (a & Hin & -> & Hb & Hcon).
  { by rewrite Hfb. }
  destruct (findTool_some _ _ _ Hf) as [Htin Hname].
  rewrite Hafter. simpl in *.
  split; [done |]. split; [by apply (isConnected_true _ (ClientFor (label a))) |].
  split; [done |]. split.
  - by exists tools, tool.
  - by exists a.
Qed.

(** The default client against a server that answers on SSE only. *)
Lemma connect_success_state_witness :
  let sdk := sseOnly [docsTool topicSchema] in
  (connect sdk freshClient).1.1 = Fulfilled ()
  ∧ isConnected (connect sdk freshClient).1.2 = true
  ∧ connectPromise (connect sdk freshClient).1.2 = None.
Proof.
  cbv zeta.
  destruct (connect_success_state (sseOnly [docsTool topicSchema]) freshClient
              eq_refl eq_refl eq_refl) as (_ & Hconn & Hp & _).
  split; [reflexivity |]. split; [exact Hconn | exact Hp].
Defined.

(** ** [close], then [connect] again *)

Section Reconnect.

Lemma nullish_twice {A} (o : option A) (d : A) : o ?? (o ?? d) = o ?? d.
Proof. by destruct o. Qed.

Lemma close_twice sdk sdk' this :
  close sdk' (close sdk this).1 = ((close sdk this).1, []).
Proof. by destruct this. Qed.

End Reconnect.

(** X5. After a [connect] that resolved the client holds a client handle
    and a transport, and [close] calls [close] on that handle and then on
    that transport, and on nothing else; a second [close] calls nothing and
    changes nothing. Closing and connecting again to a server that answers
    the same brings back the very same connected state, through the same
    events. *)
Theorem close_then_connect_restores (sdk sdk' : Sdk) (this : McpChatClient) :
  client this = None →
  connectPromise this = None →
  (connect sdk this).1.1 = Fulfilled () →
  let connected := (connect sdk this).1.2 in
  (∃ h t, client connected = Some h
          ∧ transport connected = Some t
          ∧ (close sdk' connected).2
            = [EvClientClose h (clientClose sdk' h);
               EvTransportClose t (transportClose sdk' t)]
          ∧ closedClients (close sdk' connected).2 = [h]
          ∧ closedTransports (close sdk' connected).2 = [t])
  ∧ close sdk' (close sdk' connected).1 = ((close sdk' connected).1, [])
  ∧ isConnected (close sdk' connected).1 = false
  ∧ connect sdk (close sdk' connected).1 = (Fulfilled (), connected, (connect sdk this).2).
Proof.
  intros Hc Hp Hok connected.
  destruct (connect_fulfilled_inv sdk this Hc Hp Hok)
    as (Hk & conn & evs & tools & tool & Hfb & Hl & Hf).
  assert (Hconn := connect_tool_found sdk this conn evs tools tool Hc Hp Hk Hfb Hl Hf).
  assert (Hconnected : connected
    = set_primaryArgKey (pickPrimaryArgument (inputSchema tool) ?? primaryArgKey this)
        (set_selectedTool (Some tool)
           (set_connection (Some (conn_client conn)) (Some (conn_transport conn))
              (conn_connectionLabel conn) this))).
  { unfold connected. by rewrite Hconn. }
  set (closed := (close sdk' connected).1).
  assert (Hclosed : closed
    = set_primaryArgKey (pickPrimaryArgument (inputSchema tool) ?? primaryArgKey this)
        (set_selectedTool None (set_connection None None "" this))).
  { unfold closed. rewrite Hconnected. by destruct this. }
  split; [exists (conn_client conn), (conn_transport conn); by rewrite Hconnected |].
  split; [apply close_twice |].
  split; [rewrite Hclosed; apply isConnected_false; by destruct this |].
  assert (Hinit : initOptionsOf closed = initOptionsOf this).
  { rewrite Hclosed. by destruct this. }
  rewrite (connect_tool_found sdk closed conn evs tools tool).
  - rewrite Hconn, Hconnected, Hclosed. simpl. rewrite nullish_twice. by destruct this.
  - rewrite Hclosed. by destruct this.
  - rewrite Hclosed. by destruct this.
  - rewrite Hclosed. unfold apiKey_missing in *. by destruct this.
  - by rewrite Hinit.
  - done.
  - rewrite Hclosed. by destruct this.
Qed.

Lemma close_then_connect_restores_witness :
  let sdk := reachable [docsTool topicSchema] in
  let connected := (connect sdk freshClient).1.2 in
  (connect sdk freshClient).1.1 = Fulfilled ()
  ∧ isConnected (close unreachable connected).1 = false
  ∧ (connect sdk (close unreachable connected).1).1 = (Fulfilled (), connected).
Proof.
  cbv zeta.
  destruct (close_then_connect_restores (reachable [docsTool topicSchema]) unreachable
              freshClient eq_refl eq_refl eq_refl) as (_ & _ & Hdis & Hre).
  split; [reflexivity |]. split; [exact Hdis |]. by rewrite Hre.
Defined.

(** ** When [ask] calls the tool *)

Section AskCalls.

Variable sdk : Sdk.

Lemma toolCalls_app evs1 evs2 : toolCalls (evs1 ++ evs2) = toolCalls evs1 ++ toolCalls evs2.
Proof. apply omap_app. Qed.

Lemma tryAttempts_no_call attempts : ∀ lastError,
  toolCalls (tryAttempts sdk attempts lastError).2 = [].
Proof.
  induction attempts as [| a rest IH]; intros lastError; simpl; [done |].
  destruct (invoke sdk (create a)) as [t | thrown]; [| done].
  destruct (clientConnect sdk t) as [[] | err]; [done |].
  specialize (IH (Some err)).
  by destruct (tryAttempts sdk rest (Some err)) as [r evs].
Qed.

Lemma connectWithFallback_no_call initOptions :
  toolCalls (connectWithFallback sdk initOptions).2 = [].
Proof.
  unfold connectWithFallback. case_bool_decide; [done |]. apply tryAttempts_no_call.
Qed.

Lemma awaitTask_no_call k this : toolCalls (awaitTask sdk k this).2 = [].
Proof.
  destruct k as [initOptions | h]; simpl; [| done].
  unfold afterFallback.
  pose proof (connectWithFallback_no_call initOptions) as Hno.
  destruct (connectWithFallback sdk initOptions) as [[conn | e] evs]; simpl in *.
  - rewrite toolCalls_app, Hno. done.
  - done.
Qed.

(** [connect] never calls a tool. *)
Lemma connect_no_call this : toolCalls (connect sdk this).2 = [].
Proof.
  unfold connect. destruct (isConnected this); [done |].
  destruct (connectPromise this) as [[k | e] |]; simpl.
  - pose proof (awaitTask_no_call k (set_connectPromise (Some (Pending k)) this)) as Hno.
    by destruct (awaitTask sdk k _) as [[r this1] evs].
  - done.
  - unfold connectInternal_start. destruct (apiKey_missing this); [done |].
    pose proof (awaitTask_no_call (AwaitFallback (initOptionsOf this))
                  (set_connectPromise (Some (Pending (AwaitFallback (initOptionsOf this))))
                     this)) as Hno.
    by destruct (awaitTask sdk _ _) as [[r this1] evs].
Qed.

Lemma ensureConnected_no_call this : toolCalls (ensureConnected sdk this).2 = [].
Proof. unfold ensureConnected. destruct (isConnected this); [done | apply connect_no_call]. Qed.

End AskCalls.





(** ** Every [connect()] call settles *)

Section Settling.

Variable sdk : Sdk.

Lemma afterFallback_suspended initOptions this h this1 evs :
  afterFallback sdk initOptions this = (inr h, this1, evs) →
  connectPromise this1 = Some (Pending (AwaitListTools h)).
Proof.
  unfold afterFallback.
  destruct (connectWithFallback sdk initOptions) as [[conn | e] evs']; simpl;
    intros [= <- <- <-]; by destruct this.
Qed.

Lemma connectPromise_set p this : connectPromise (set_connectPromise p this) = p.
Proof. by destruct this. Qed.

Lemma step_keeps_body rt a : waitersHaveBody rt → waitersHaveBody (step sdk rt a).
Proof.
  intros Hinv. destruct a as [caller |]; simpl.
  - unfold step_call. destruct (isConnected (this_ rt)); [exact Hinv |].
    destruct (connectPromise (this_ rt)) as [[k | e] |] eqn:Hp; simpl.
    + right. exists k. reflexivity.
    + destruct Hinv as [Hw | [k Hk]]; [by left | congruence].
    + unfold connectInternal_start. destruct (apiKey_missing (this_ rt)); simpl.
      * destruct Hinv as [Hw | [k Hk]]; [by left | congruence].
      * right. eexists. reflexivity.
  - unfold step_resume.
    destruct (connectPromise (this_ rt)) as [[[initOptions | h] | e] |] eqn:Hp;
      try exact Hinv.
    + destruct (afterFallback sdk initOptions (this_ rt)) as [[[r | h] this1] evs] eqn:Hfb.
      * by left.
      * right. exists (AwaitListTools h). simpl.
        by apply (afterFallback_suspended _ _ _ _ _ Hfb).
    + destruct (afterListTools sdk h (this_ rt)) as [r this1]. by left.
Qed.

Lemma run_keeps_body schedule : ∀ rt,
  waitersHaveBody rt → waitersHaveBody (run sdk schedule rt).
Proof.
  induction schedule as [| a schedule IH]; intros rt Hinv; [done |].
  rewrite run_cons. by apply IH, step_keeps_body.
Qed.

(** Two resumptions end any suspended body. *)
Lemma two_resumes_settle rt :
  waitersHaveBody rt → waiting (run sdk [Resume; Resume] rt) = [].
Proof.
  intros Hinv. rewrite !run_cons, run_nil. unfold step.
  destruct Hinv as [Hw | [k Hk]].
  - assert (Hkeep : ∀ rt', waiting rt' = [] → waiting (step_resume sdk rt') = []).
    { intros rt' Hw'. unfold step_resume.
      destruct (connectPromise (this_ rt')) as [[[initOptions | h] | e] |]; try done.
      - by destruct (afterFallback sdk initOptions (this_ rt')) as [[[r | h] this1] evs].
      - by destruct (afterListTools sdk h (this_ rt')) as [r this1]. }
    by apply Hkeep, Hkeep.
  - unfold step_resume at 2. rewrite Hk. destruct k as [initOptions | h].
    + destruct (afterFallback sdk initOptions (this_ rt)) as [[[r | h] this1] evs] eqn:Hfb.
      * unfold step_resume, settle_waiters. simpl.
        destruct (connectPromise this1) as [[[initOptions' | h'] | e] |]; try done.
        -- by destruct (afterFallback sdk initOptions' this1) as [[[r' | h''] this2] evs'].
        -- by destruct (afterListTools sdk h' this1) as [r' this2].
      * unfold step_resume. simpl.
        rewrite (afterFallback_suspended _ _ _ _ _ Hfb).
        by destruct (afterListTools sdk h this1) as [r this2].
    + destruct (afterListTools sdk h (this_ rt)) as [r this1].
      unfold step_resume, settle_waiters. simpl.
      destruct (connectPromise this1) as [[[initOptions' | h'] | e] |]; try done.
      * by destruct (afterFallback sdk initOptions' this1) as [[[r' | h''] this2] evs'].
      * by destruct (afterListTools sdk h' this1) as [r' this2].
Qed.

Lemma settled_callers (r : settled unit) (l : list nat) :
  ((λ w, (w, r)) <$> l).*1 = l.
Proof. induction l as [| w l IH]; csimpl; [done | by rewrite IH]. Qed.

(** No call is lost or answered twice: the callers with an outcome, followed
    by those still waiting, are the callers of the schedule. *)
Lemma step_accounts rt a :
  (outcomes (step sdk rt a)).*1 ++ waiting (step sdk rt a)
  ≡ₚ ((outcomes rt).*1 ++ waiting rt) ++ callersOf [a].
Proof.
  destruct a as [caller |]; simpl.
  - unfold step_call. destruct (isConnected (this_ rt)); simpl.
    + rewrite fmap_app. simpl. rewrite <- !app_assoc. apply Permutation_app_head.
      apply Permutation_app_comm.
    + destruct (connectPromise (this_ rt)) as [[k | e] |]; simpl.
      * by rewrite app_assoc.
      * rewrite fmap_app. simpl. rewrite <- !app_assoc. apply Permutation_app_head.
        apply Permutation_app_comm.
      * unfold connectInternal_start. destruct (apiKey_missing (this_ rt)); simpl.
        -- rewrite fmap_app. simpl. rewrite <- !app_assoc. apply Permutation_app_head.
           apply Permutation_app_comm.
        -- by rewrite app_assoc.
  - rewrite app_nil_r. unfold step_resume.
    destruct (connectPromise (this_ rt)) as [[[initOptions | h] | e] |]; try done.
    + destruct (afterFallback sdk initOptions (this_ rt)) as [[[r | h] this1] evs];
        simpl; [| done].
      by rewrite fmap_app, settled_callers, app_nil_r.
    + destruct (afterListTools sdk h (this_ rt)) as [r this1]. simpl.
      by rewrite fmap_app, settled_callers, app_nil_r.
Qed.

Lemma run_accounts schedule : ∀ rt,
  (outcomes (run sdk schedule rt)).*1 ++ waiting (run sdk schedule rt)
  ≡ₚ ((outcomes rt).*1 ++ waiting rt) ++ callersOf schedule.
Proof.
  induction schedule as [| a schedule IH]; intros rt.
  - by rewrite run_nil, app_nil_r.
  - rewrite run_cons, IH, step_accounts.
    change (callersOf (a :: schedule)) with (callersOf ([a] ++ schedule)).
    unfold callersOf. rewrite omap_app. by rewrite <- app_assoc.
Qed.

End Settling.

(** X8. Whatever the client's state, whatever the servers answer and however
    [connect()] calls and resumptions are interleaved, once the suspended
    body has been resumed twice more no caller is left waiting, and the
    callers that received an outcome are exactly the callers of the
    schedule, each as often as it called. *)
Theorem every_connect_call_settles (sdk : Sdk) (schedule : list action)
    (this : McpChatClient) :
  let rt := run sdk (schedule ++ [Resume; Resume]) (boot this) in
  waiting rt = [] ∧ (outcomes rt).*1 ≡ₚ callersOf schedule.
Proof.
  cbv zeta.
  assert (Hw : waiting (run sdk (schedule ++ [Resume; Resume]) (boot this)) = []).
  { rewrite run_app. apply two_resumes_settle, run_keeps_body. by left. }
  split; [exact Hw |].
  pose proof (run_accounts sdk (schedule ++ [Resume; Resume]) (boot this)) as Hacc.
  rewrite Hw, app_nil_r in Hacc. simpl in Hacc.
  unfold callersOf in *. rewrite omap_app in Hacc. simpl in Hacc.
  by rewrite app_nil_r in Hacc.
Qed.

(** ** Names the registry serves *)

Section RegistryNames.

Lemma findTarget_hasTarget m wanted :
  hasTarget m wanted = bool_decide (is_Some (findTarget m wanted)).
Proof.
  unfold hasTarget, findTarget. induction (targets m) as [| t ts IH]; simpl.
  - reflexivity.
  - destruct (String.eqb (name t) wanted); simpl; [reflexivity | exact IH].
Qed.

Lemma hasTarget_names m wanted : hasTarget m wanted = true ↔ wanted ∈ getTargetNames m.
Proof.
  unfold hasTarget, getTargetNames. rewrite existsb_exists, list_elem_of_fmap.
  split.
  - intros (t & Hin & Heq). exists t. split; [symmetry; by apply String.eqb_eq |].
    by apply list_elem_of_In.
  - intros (t & -> & Hin). exists t. split; [by apply list_elem_of_In |].
    apply String.eqb_refl.
Qed.

Lemma findTarget_name m wanted t : findTarget m wanted = Some t → name t = wanted.
Proof. unfold findTarget. intros H. apply find_some in H as [_ H]. by apply String.eqb_eq. Qed.

End RegistryNames.

(** X9. The names [getTargetNames] lists are exactly the names [hasTarget]
    accepts, the names for which [getClient] returns a client, and the names
    for which [getTargetSummary] returns a summary; for any other name
    [getClient] throws the unknown-target error and the summary is null, and
    neither changes anything. *)
Theorem registered_names_are_served (processEnv : Env) (w : World) (wanted : string) :
  (hasTarget (manager w) wanted = true ↔ wanted ∈ getTargetNames (manager w))
  ∧ (if hasTarget (manager w) wanted
     then (∃ r, (getClient processEnv (Some wanted) w).1 = Fulfilled r
                ∧ clients (manager (getClient processEnv (Some wanted) w).2) !! wanted = Some r)
          ∧ (∃ summary, getTargetSummary wanted w = (Fulfilled (Some summary), w)
                        ∧ sum_name summary = wanted)
     else getClient processEnv (Some wanted) w = (Rejected (UnknownTarget wanted), w)
          ∧ getTargetSummary wanted w = (Fulfilled None, w)).
Proof.
  split; [apply hasTarget_names |].
  rewrite findTarget_hasTarget.
  destruct (findTarget (manager w) wanted) as [t |] eqn:Ht.
  - rewrite bool_decide_eq_true_2 by eauto. split.
    + destruct (clients (manager w) !! wanted) as [r |] eqn:Hc.
      * rewrite (getClient_cached _ _ _ _ _ Ht Hc). by exists r.
      * rewrite (getClient_first _ _ _ _ Ht Hc). eexists. split; [done |].
        simpl. by rewrite lookup_insert_eq.
    + unfold getTargetSummary, mbind, M_bind, getManager, readClient. simpl. rewrite Ht.
      destruct (clients (manager w) !! wanted); simpl; by eexists.
  - rewrite bool_decide_eq_false_2 by (by intros [? ?]). split.
    + by apply getClient_unknown.
    + unfold getTargetSummary, mbind, M_bind, getManager. simpl. by rewrite Ht.
Qed.

Lemma registered_names_are_served_witness :
  "A" ∈ getTargetNames (manager twinWorld)
  ∧ getClient empty_env (Some "B") twinWorld = (Rejected (UnknownTarget "B"), twinWorld).
Proof.
  destruct (registered_names_are_served empty_env twinWorld "A") as [Hnames _].
  destruct (registered_names_are_served empty_env twinWorld "B") as [_ Hunknown].
  split; [apply Hnames; reflexivity | exact (proj1 Hunknown)].
Defined.

(** ** The default target *)

Section DefaultTarget.

Variable processEnv : Env.

Lemma closeAll_manager sdk w :
  targets (manager (closeAll sdk w).2) = targets (manager w)
  ∧ defaultTargetName (manager (closeAll sdk w).2) = defaultTargetName (manager w)
  ∧ clients (manager (closeAll sdk w).2) = ∅.
Proof. done. Qed.

Lemma getClient_manager w targetName :
  targets (manager (getClient processEnv targetName w).2) = targets (manager w)
  ∧ defaultTargetName (manager (getClient processEnv targetName w).2)
    = defaultTargetName (manager w).
Proof.
  set (asked := targetName ?? defaultTargetName (manager w)).
  assert (E : getClient processEnv targetName w = getClient processEnv (Some asked) w).
  { by destruct targetName. }
  rewrite E. destruct (findTarget (manager w) asked) as [t |] eqn:Ht.
  - destruct (clients (manager w) !! asked) as [r |] eqn:Hc.
    + by rewrite (getClient_cached _ _ _ _ _ Ht Hc).
    + by rewrite (getClient_first _ _ _ _ Ht Hc).
  - by rewrite (getClient_unknown _ _ _ Ht).
Qed.

(** Every operation keeps the target list, and the default stays one of
    its names. *)
Lemma execRegistry_default w o :
  hasTarget (manager w) (defaultTargetName (manager w)) = true →
  targets (manager (execRegistry processEnv w o)) = targets (manager w)
  ∧ hasTarget (manager (execRegistry processEnv w o))
      (defaultTargetName (manager (execRegistry processEnv w o))) = true.
Proof.
  intros Hdef.
  assert (Hsame : ∀ m', targets m' = targets (manager w) →
                        defaultTargetName m' = defaultTargetName (manager w) →
                        hasTarget m' (defaultTargetName m') = true).
  { intros m' Ht Hd. unfold hasTarget in *. by rewrite Ht, Hd. }
  destruct o as [tn | d | sn | r change | sdk]; simpl.
  - destruct (getClient_manager w tn) as [Ht Hd]. split; [done | by apply Hsame].
  - unfold setDefaultTarget, mbind, M_bind, getManager. simpl.
    destruct (hasTarget (manager w) d) eqn:Hd; simpl; [| done].
    split; [done |]. exact Hd.
  - by rewrite getTargetSummary_frame.
  - done.
  - done.
Qed.

Lemma runRegistry_default ops : ∀ w,
  hasTarget (manager w) (defaultTargetName (manager w)) = true →
  targets (manager (runRegistry processEnv ops w)) = targets (manager w)
  ∧ hasTarget (manager (runRegistry processEnv ops w))
      (defaultTargetName (manager (runRegistry processEnv ops w))) = true.
Proof.
  induction ops as [| o ops IH]; intros w Hdef; [done |].
  destruct (execRegistry_default w o Hdef) as [Ht Hd].
  unfold runRegistry in *. simpl. destruct (IH _ Hd) as [Ht' Hd'].
  split; [congruence | done].
Qed.

End DefaultTarget.

(** X10. A registry can be constructed from every non-empty list of entries
    and from nothing else. It starts with no client, the names in the order
    given and the first name as default; and after any use whatsoever,
    [closeAll] included, the target list is the same and the default is
    still one of its names, so that [getClient()] without a name never
    fails with the unknown-target error. *)
Theorem default_target_is_always_registered (processEnv : Env)
    (entries : list TargetEntry) (ops : list registryOp) :
  entries ≠ [] →
  ∃ m,
    newChatTargetManager (Some entries) = Fulfilled m
    ∧ clients m = ∅
    ∧ getTargetNames m = entry_name <$> entries
    ∧ head (getTargetNames m) = Some (defaultTargetName m)
    ∧ let w := runRegistry processEnv ops {| store := []; manager := m |} in
      getTargetNames (manager w) = entry_name <$> entries
      ∧ hasTarget (manager w) (defaultTargetName (manager w)) = true
      ∧ is_fulfilled (getClient processEnv None w).1 = true.
Proof.
  intros Hne. destruct entries as [| first rest]; [done |].
  eexists. split; [reflexivity |]. split; [done |].
  assert (Hnames : ∀ l : list TargetEntry,
    name <$> ((λ target, {| name := entry_name target;
                            options := entry_options target ?? no_options;
                            useProcessEnv := entry_useProcessEnv target ?? false |}) <$> l)
    = entry_name <$> l).
  { intros l. rewrite <- list_fmap_compose. by apply list_fmap_ext. }
  split; [apply (Hnames (first :: rest)) |]. split; [done |].
  cbv zeta.
  match goal with |- context [runRegistry _ _ ?w0] => set (w0' := w0) end.
  assert (Hdef0 : hasTarget (manager w0') (defaultTargetName (manager w0')) = true).
  { unfold hasTarget. simpl. by rewrite String.eqb_refl. }
  destruct (runRegistry_default processEnv ops w0' Hdef0) as [Ht Hd].
  split; [unfold getTargetNames; rewrite Ht; apply (Hnames (first :: rest)) |].
  split; [exact Hd |].
  rewrite getClient_default.
  pose proof (registered_names_lemma := findTarget_hasTarget
    (manager (runRegistry processEnv ops w0'))
    (defaultTargetName (manager (runRegistry processEnv ops w0')))).
  rewrite Hd in registered_names_lemma. symmetry in registered_names_lemma.
  apply bool_decide_eq_true_1 in registered_names_lemma as [t Hfind].
  destruct (clients (manager (runRegistry processEnv ops w0'))
              !! defaultTargetName (manager (runRegistry processEnv ops w0'))) eqn:Hc.
  - by rewrite (getClient_cached _ _ _ _ _ Hfind Hc).
  - by rewrite (getClient_first _ _ _ _ Hfind Hc).
Qed.

Lemma default_target_is_always_registered_witness :
  twinEntries ≠ []
  ∧ is_fulfilled
      (getClient empty_env None
         (runRegistry empty_env
            [OpGetClient None; OpCloseAll (reachable []); OpSetDefaultTarget "B"]
            twinWorld)).1 = true.
Proof.
  assert (Hne : twinEntries ≠ []) by done.
  split; [exact Hne |].
  destruct (default_target_is_always_registered empty_env twinEntries
              [OpGetClient None; OpCloseAll (reachable []); OpSetDefaultTarget "B"] Hne)
    as (m & Hm & _ & _ & _ & _ & _ & Hget).
  injection Hm as <-. exact Hget.
Defined.

(** The empty list and a missing list are refused. *)
Example no_targets_refused :
  newChatTargetManager None = Rejected NoTargetConfigured
  ∧ newChatTargetManager (Some []) = Rejected NoTargetConfigured.
Proof. split; reflexivity. Qed.

(** ** [closeAll] *)

Section CloseAll.

Variable sdk : Sdk.

Lemma close_state_idemp sdk' c : (close sdk' (close sdk c).1).1 = (close sdk c).1.
Proof. by destruct c. Qed.

(** The loop over the cached clients, seen from one object of the store. *)
Lemma close_each refs : ∀ (h : list McpChatClient) r c,
  h !! r = Some c →
  fold_left (λ h r, match h !! r with
                    | Some c => <[ r := (close sdk c).1 ]> h
                    | None => h
                    end) refs h !! r
  = Some (if bool_decide (r ∈ refs) then (close sdk c).1 else c).
Proof.
  induction refs as [| r0 refs IH]; intros h r c Hr; [done |]. simpl.
  destruct (decide (r0 = r)) as [-> | Hne].
  - rewrite Hr. rewrite (IH _ r (close sdk c).1).
    + rewrite (bool_decide_eq_true_2 (r ∈ r :: refs)) by apply list_elem_of_here.
      destruct (bool_decide (r ∈ refs)); [by rewrite close_state_idemp | done].
    + apply list_lookup_insert_eq. by apply lookup_lt_Some in Hr.
  - assert (Hmem : bool_decide (r ∈ r0 :: refs) = bool_decide (r ∈ refs)).
    { apply bool_decide_ext. rewrite elem_of_cons.
      split; [intros [Heq | Hin]; [congruence | done] | by right]. }
    rewrite Hmem. destruct (h !! r0) as [c0 |] eqn:H0.
    + apply IH. by rewrite list_lookup_insert_ne.
    + by apply IH.
Qed.

Lemma close_each_length refs : ∀ (h : list McpChatClient),
  length (fold_left (λ h r, match h !! r with
                            | Some c => <[ r := (close sdk c).1 ]> h
                            | None => h
                            end) refs h) = length h.
Proof.
  induction refs as [| r0 refs IH]; intros h; [done |]. simpl.
  rewrite IH. destruct (h !! r0); [apply length_insert | done].
Qed.

End CloseAll.

(** X11. [closeAll] closes every client object the Map refers to and no
    other, keeps every object in place, empties the Map and leaves targets
    and default as they are; afterwards every registered target is
    summarised as not connected, with an empty label. *)
Theorem closeAll_closes_cached_clients (sdk : Sdk) (w : World) :
  let w' := (closeAll sdk w).2 in
  (closeAll sdk w).1 = Fulfilled ()
  ∧ clients (manager w') = ∅
  ∧ targets (manager w') = targets (manager w)
  ∧ defaultTargetName (manager w') = defaultTargetName (manager w)
  ∧ length (store w') = length (store w)
  ∧ (∀ r c wanted, store w !! r = Some c →
       clients (manager w) !! wanted = Some r →
       store w' !! r = Some (close sdk c).1)
  ∧ (∀ r c, store w !! r = Some c →
       (∀ wanted, clients (manager w) !! wanted ≠ Some r) →
       store w' !! r = Some c)
  ∧ (∀ wanted target, findTarget (manager w) wanted = Some target →
       (getTargetSummary wanted w').1
       = Fulfilled (Some {| sum_name := wanted;
                            sum_productFilter := opt_product (options target);
                            sum_connected := false;
                            sum_connectionLabel := "" |})).
Proof.
  cbv zeta. unfold closeAll. simpl.
  split; [done |]. split; [done |]. split; [done |]. split; [done |].
  split; [apply (close_each_length sdk) |].
  assert (Hiff : ∀ r, r ∈ (map_to_list (clients (manager w))).*2
                      ↔ ∃ n, clients (manager w) !! n = Some r).
  { intros r. rewrite list_elem_of_fmap. split.
    - intros ([n r'] & -> & Hin). exists n. by apply elem_of_map_to_list.
    - intros [n Hn]. exists (n, r). split; [done |]. by apply elem_of_map_to_list. }
  split; [| split].
  - intros r c wanted Hr Hc. rewrite (close_each sdk _ _ _ _ Hr).
    rewrite bool_decide_eq_true_2; [done |]. apply Hiff. by exists wanted.
  - intros r c Hr Hno. rewrite (close_each sdk _ _ _ _ Hr).
    rewrite bool_decide_eq_false_2; [done |]. rewrite Hiff. intros [n Hn]. by apply (Hno n).
  - intros wanted target Ht.
    unfold getTargetSummary, mbind, M_bind, getManager. simpl.
    unfold findTarget in *. simpl. by rewrite Ht.
Qed.

Lemma closeAll_closes_cached_clients_witness :
  let w := runRegistry empty_env
             [OpGetClient (Some "A");
              OpOnClient 0 (λ c, (connect (reachable [docsTool topicSchema]) c).1.2)]
             twinWorld in
  (isConnected <$> store w !! 0) = Some true
  ∧ (isConnected <$> store (closeAll unreachable w).2 !! 0) = Some false.
Proof.
  cbv zeta. split; [reflexivity |].
  set (w := runRegistry empty_env _ twinWorld).
  destruct (closeAll_closes_cached_clients unreachable w) as (_ & _ & _ & _ & _ & Hc & _).
  destruct (store w !! 0) as [c |] eqn:H0; [| done].
  rewrite (Hc 0 c "A" H0 eq_refl).
  simpl. by destruct c.
Defined.

(** ** Formatting *)

Section Formatting.

Variable stringify : Js.value → string.

Lemma renderChunk_blank chunk : blankText chunk = true → renderChunk stringify chunk = [].
Proof.
  unfold blankText, renderChunk.
  destruct (chunk_type chunk) as [t |]; [| done].
  destruct (String.eqb t "text"); simpl; [| done].
  destruct (chunk_text chunk) as [text |]; simpl; [| done].
  by destruct (Js.nonempty (Js.trim text)).
Qed.

Lemma renderChunk_other chunk :
  blankText chunk = false → ∃ section, renderChunk stringify chunk = [section].
Proof.
  unfold blankText, renderChunk.
  destruct (chunk_type chunk) as [t |]; [| by eexists].
  destruct (String.eqb t "text"); simpl.
  - destruct (chunk_text chunk) as [text |]; simpl; [| done].
    destruct (Js.nonempty (Js.trim text)); [by eexists | done].
  - destruct (String.eqb t "object"); by eexists.
Qed.

Lemma renderContent_app a b :
  renderContent stringify (a ++ b) = renderContent stringify a ++ renderContent stringify b.
Proof. unfold renderContent. by rewrite fmap_app, concat_app. Qed.

Lemma renderContent_cons c content :
  renderContent stringify (c :: content)
  = renderChunk stringify c ++ renderContent stringify content.
Proof. reflexivity. Qed.

Lemma renderContent_filter content :
  renderContent stringify (filter (λ c, blankText c = false) content)
  = renderContent stringify content.
Proof.
  induction content as [| c content IH]; [done |].
  destruct (blankText c) eqn:Hb.
  - rewrite filter_cons_False by (by rewrite Hb).
    by rewrite renderContent_cons, (renderChunk_blank _ Hb), IH.
  - rewrite filter_cons_True by done. by rewrite !renderContent_cons, IH.
Qed.

Lemma renderContent_blank content :
  Forall (λ c, blankText c = true) content → renderContent stringify content = [].
Proof.
  induction 1 as [| c content Hc _ IH]; [done |].
  by rewrite renderContent_cons, (renderChunk_blank _ Hc), IH.
Qed.

Lemma renderContent_some content :
  Exists (λ c, blankText c = false) content → renderContent stringify content ≠ [].
Proof.
  induction 1 as [c content Hc | c content _ IH]; rewrite renderContent_cons.
  - destruct (renderChunk_other _ Hc) as [section ->]. done.
  - intros H. apply app_eq_nil in H as [_ H]. by apply IH.
Qed.

Lemma string_app_assoc (s1 s2 s3 : string) : (s1 +:+ s2) +:+ s3 = s1 +:+ (s2 +:+ s3).
Proof.
  induction s1 as [| c s1 IH]; [done |].
  change (String c ((s1 +:+ s2) +:+ s3) = String c (s1 +:+ s2 +:+ s3)).
  by rewrite IH.
Qed.

(** [join] of two non-empty arrays put end to end. *)
Lemma join_app sep l1 l2 :
  l1 ≠ [] → l2 ≠ [] →
  String.concat sep (l1 ++ l2) = String.concat sep l1 +:+ sep +:+ String.concat sep l2.
Proof.
  intros H1 H2. induction l1 as [| x l1 IH]; [done |].
  destruct l1 as [| y l1].
  - simpl. destruct l2; [done | done].
  - change ((x :: y :: l1) ++ l2) with (x :: (y :: l1) ++ l2).
    change (String.concat sep (x :: (y :: l1) ++ l2))
      with (x +:+ sep +:+ String.concat sep ((y :: l1) ++ l2)).
    rewrite IH by done.
    change (String.concat sep (x :: y :: l1))
      with (x +:+ sep +:+ String.concat sep (y :: l1)).
    by rewrite !string_app_assoc.
Qed.

Lemma format_sections content value :
  renderContent stringify content ≠ [] →
  formatResultContent stringify (Some {| fr_content := Some content; fr_value := value |})
  = String.concat blankLine (renderContent stringify content).
Proof.
  intros Hne. unfold formatResultContent. simpl.
  by destruct (renderContent stringify content).
Qed.

End Formatting.





(** ** Command lines *)

Section CommandLines.

Lemma plainWord_tests arg :
  plainWord arg = true →
  isOneOf ["--product"; "-p"] arg = false
  ∧ String.prefix "--product=" arg = false
  ∧ isOneOf ["--server"; "--target"; "-s"] arg = false
  ∧ (String.prefix "--server=" arg || String.prefix "--target=" arg) = false.
Proof.
  unfold plainWord. rewrite !andb_true_iff, !negb_true_iff. tauto.
Qed.

(** Words of the question are moved to [remaining], in order. *)
Lemma parseCliArgs_loop_plain words : ∀ rest remaining productValue targetValue,
  Forall (λ arg, plainWord arg = true) words →
  parseCliArgs_loop (words ++ rest) remaining productValue targetValue
  = parseCliArgs_loop rest (remaining ++ words) productValue targetValue.
Proof.
  induction words as [| arg words IH]; intros rest remaining productValue targetValue Hplain.
  - by rewrite app_nil_r.
  - apply Forall_cons in Hplain as [Harg Hwords].
    destruct (plainWord_tests _ Harg) as (H1 & H2 & H3 & H4).
    change ((arg :: words) ++ rest) with (arg :: (words ++ rest)).
    cbn [parseCliArgs_loop]. rewrite H1, H2, H3, H4.
    rewrite IH by done. by rewrite <- app_assoc.
Qed.

Lemma parseCliArgs_loop_end remaining productValue targetValue :
  parseCliArgs_loop [] remaining productValue targetValue
  = (remaining, productValue, targetValue).
Proof. reflexivity. Qed.

Lemma noServerFlag_tests arg :
  noServerFlag arg = true →
  isOneOf ["--port"; "-P"] arg = false
  ∧ String.prefix "--port=" arg = false
  ∧ isOneOf ["--product"; "-p"] arg = false
  ∧ String.prefix "--product=" arg = false
  ∧ isOneOf ["--server"; "--target"; "-s"] arg = false
  ∧ (String.prefix "--server=" arg || String.prefix "--target=" arg) = false.
Proof.
  unfold noServerFlag. rewrite !andb_true_iff, !negb_true_iff. tauto.
Qed.

Lemma parseServerCliArgs_loop_skip words : ∀ rest port product target,
  Forall (λ arg, noServerFlag arg = true) words →
  parseServerCliArgs_loop (words ++ rest) port product target
  = parseServerCliArgs_loop rest port product target.
Proof.
  induction words as [| arg words IH]; intros rest port product target Hplain; [done |].
  apply Forall_cons in Hplain as [Harg Hwords].
  destruct (noServerFlag_tests _ Harg) as (H1 & H2 & H3 & H4 & H5 & H6).
  change ((arg :: words) ++ rest) with (arg :: (words ++ rest)).
  cbn [parseServerCliArgs_loop]. rewrite H1, H2, H3, H4, H5, H6.
  by apply IH.
Qed.

Lemma trimmedOrNull_some value f :
  trimmedOrNull value = Some f → f = Js.trim value ∧ Js.nonempty f = true ∧ Js.trim f = f.
Proof.
  unfold trimmedOrNull. destruct (Js.nonempty (Js.trim value)) eqn:Hne; [| done].
  intros [= <-]. split; [done |]. split; [done | apply trim_idemp].
Qed.

End CommandLines.

Lemma last_cons_nullish {A} (x : A) (l : list A) (d : option A) :
  last (x :: l) ??? d = last l ??? Some x.
Proof. rewrite last_cons. by destruct (last l). Qed.

Lemma productEquals_tests value :
  isOneOf ["--product"; "-p"] ("--product=" +:+ value) = false
  ∧ String.prefix "--product=" ("--product=" +:+ value) = true
  ∧ slice 10 ("--product=" +:+ value) = value.
Proof.
  split; [| split; [by destruct value | reflexivity]].
  apply bool_decide_eq_false_2. rewrite !elem_of_cons, elem_of_nil.
  intros [H | [H | []]]; discriminate H.
Qed.

Lemma targetEquals_tests flag value :
  isOneOf ["--server"; "--target"] flag = true →
  isOneOf ["--product"; "-p"] (flag +:+ "=" +:+ value) = false
  ∧ String.prefix "--product=" (flag +:+ "=" +:+ value) = false
  ∧ isOneOf ["--server"; "--target"; "-s"] (flag +:+ "=" +:+ value) = false
  ∧ (String.prefix "--server=" (flag +:+ "=" +:+ value)
     || String.prefix "--target=" (flag +:+ "=" +:+ value)) = true
  ∧ afterFirstEquals (flag +:+ "=" +:+ value) = value.
Proof.
  intros Hflag. apply bool_decide_eq_true_1 in Hflag.
  rewrite !elem_of_cons, elem_of_nil in Hflag.
  destruct Hflag as [-> | [-> | []]].
  - split; [| split; [reflexivity | split; [| split; [by destruct value | reflexivity]]]];
      apply bool_decide_eq_false_2; rewrite !elem_of_cons, elem_of_nil;
      intros H; repeat destruct H as [H | H]; try discriminate H; done.
  - split; [| split; [reflexivity | split; [| split; [by destruct value | reflexivity]]]];
      apply bool_decide_eq_false_2; rewrite !elem_of_cons, elem_of_nil;
      intros H; repeat destruct H as [H | H]; try discriminate H; done.
Qed.

Lemma targetFlag_tests flag :
  isOneOf ["--server"; "--target"; "-s"] flag = true →
  isOneOf ["--product"; "-p"] flag = false
  ∧ String.prefix "--product=" flag = false.
Proof.
  intros Hflag. apply bool_decide_eq_true_1 in Hflag.
  rewrite !elem_of_cons, elem_of_nil in Hflag.
  by destruct Hflag as [-> | [-> | [-> | []]]].
Qed.

(** The loop of [parseCliArgs] over a line of pieces: the words are moved
    to [remaining] in order, and each flag overwrites its variable. *)
Lemma parseCliArgs_loop_items items : ∀ rest remaining productValue targetValue,
  forallb cliItemOk items = true →
  parseCliArgs_loop ((items ≫= cliElements) ++ rest) remaining productValue targetValue
  = parseCliArgs_loop rest (remaining ++ cliWords items)
      (last (cliProducts items) ??? productValue)
      (last (cliTargets items) ??? targetValue).
Proof.
  induction items as [| item items IH]; intros rest remaining productValue targetValue Hok.
  - cbn. by rewrite app_nil_r.
  - cbn [forallb] in Hok. apply andb_true_iff in Hok as [Hitem Hok].
    rewrite bind_cons, <- app_assoc.
    destruct item as [word | flag value | value | flag value | flag value];
      cbn [cliItemOk] in Hitem; cbn [cliElements].
    + destruct (plainWord_tests _ Hitem) as (H1 & H2 & H3 & H4).
      change ([word] ++ (items ≫= cliElements) ++ rest)
        with (word :: ((items ≫= cliElements) ++ rest)).
      cbn [parseCliArgs_loop]. rewrite H1, H2, H3, H4.
      rewrite IH by done. cbn [cliWords cliProducts cliTargets omap list_omap].
      by rewrite <- app_assoc.
    + change ([flag; value] ++ (items ≫= cliElements) ++ rest)
        with (flag :: value :: ((items ≫= cliElements) ++ rest)).
      cbn [parseCliArgs_loop]. rewrite Hitem.
      rewrite IH by done. cbn [cliWords cliProducts cliTargets omap list_omap].
      by rewrite last_cons_nullish.
    + destruct (productEquals_tests value) as (H1 & H2 & H3).
      change (["--product=" +:+ value] ++ (items ≫= cliElements) ++ rest)
        with (("--product=" +:+ value) :: ((items ≫= cliElements) ++ rest)).
      cbn [parseCliArgs_loop]. rewrite H1, H2, H3.
      rewrite IH by done. cbn [cliWords cliProducts cliTargets omap list_omap].
      by rewrite last_cons_nullish.
    + destruct (targetFlag_tests _ Hitem) as (H1 & H2).
      change ([flag; value] ++ (items ≫= cliElements) ++ rest)
        with (flag :: value :: ((items ≫= cliElements) ++ rest)).
      cbn [parseCliArgs_loop]. rewrite H1, H2, Hitem.
      rewrite IH by done. cbn [cliWords cliProducts cliTargets omap list_omap].
      by rewrite last_cons_nullish.
    + destruct (targetEquals_tests _ value Hitem) as (H1 & H2 & H3 & H4 & H5).
      change ([flag +:+ "=" +:+ value] ++ (items ≫= cliElements) ++ rest)
        with ((flag +:+ "=" +:+ value) :: ((items ≫= cliElements) ++ rest)).
      cbn [parseCliArgs_loop]. rewrite H1, H2, H3, H4, H5.
      rewrite IH by done. cbn [cliWords cliProducts cliTargets omap list_omap].
      by rewrite last_cons_nullish.
Qed.

Lemma nullish_opt_none {A} (o : option A) : o ??? None = o.
Proof. by destruct o. Qed.



(** X15. The web server's command line never yields a blank product or
    target: each is either absent or non-empty and trimmed, and a flag whose
    value is missing or blank leaves it absent. Elements that are no flag
    are passed over wherever a flag may start. *)
Theorem parseServerCliArgs_never_blank (words rawArgs : list string) :
  Forall (λ arg, noServerFlag arg = true) words →
  (∀ p, srv_product (parseServerCliArgs rawArgs) = Some p →
        Js.nonempty p = true ∧ Js.trim p = p)
  ∧ (∀ t, srv_target (parseServerCliArgs rawArgs) = Some t →
          Js.nonempty t = true ∧ Js.trim t = t)
  ∧ parseServerCliArgs (words ++ rawArgs) = parseServerCliArgs rawArgs
  ∧ srv_product (parseServerCliArgs (words ++ ["--product"])) = None
  ∧ srv_product (parseServerCliArgs (words ++ ["--product"; "  "])) = None
  ∧ srv_port (parseServerCliArgs (words ++ ["--port"])) = None.
Proof.
  intros Hwords.
  split; [| split; [| split; [| split; [| split]]]].
  - unfold parseServerCliArgs.
    destruct (parseServerCliArgs_loop rawArgs None None None) as [[port product] target].
    simpl. intros p Hp. destruct product as [v |]; [| done]. simpl in Hp.
    by destruct (trimmedOrNull_some _ _ Hp) as (_ & ? & ?).
  - unfold parseServerCliArgs.
    destruct (parseServerCliArgs_loop rawArgs None None None) as [[port product] target].
    simpl. intros t Ht. destruct target as [v |]; [| done]. simpl in Ht.
    by destruct (trimmedOrNull_some _ _ Ht) as (_ & ? & ?).
  - unfold parseServerCliArgs. by rewrite parseServerCliArgs_loop_skip.
  - unfold parseServerCliArgs. by rewrite parseServerCliArgs_loop_skip.
  - unfold parseServerCliArgs. by rewrite parseServerCliArgs_loop_skip.
  - unfold parseServerCliArgs. by rewrite parseServerCliArgs_loop_skip.
Qed.

Lemma parseServerCliArgs_never_blank_witness :
  parseServerCliArgs ["serve"; "--product"; "  "; "--target=CDETs"; "--port"; "5000"]
  = {| srv_port := Some "5000"; srv_product := None; srv_target := Some "CDETs" |}.
Proof.
  assert (Hw : Forall (λ arg, noServerFlag arg = true) ["serve"]) by (by repeat constructor).
  change ["serve"; "--product"; "  "; "--target=CDETs"; "--port"; "5000"]
    with (["serve"] ++ ["--product"; "  "; "--target=CDETs"; "--port"; "5000"]).
  rewrite (proj1 (proj2 (proj2 (parseServerCliArgs_never_blank ["serve"]
             ["--product"; "  "; "--target=CDETs"; "--port"; "5000"] Hw)))).
  reflexivity.
Defined.

(** ** Targets from the environment *)

Section LoadTargets.

Variable parseProps : string → option (gmap string Js.value).

Lemma generatedName_nonempty index : Js.nonempty (generatedName index) = true.
Proof. reflexivity. Qed.

Lemma normalize_shape entry index t :
  normalizeTargetEntry parseProps entry index = Some t →
  Js.nonempty (entry_name t) = true
  ∧ entry_useProcessEnv t = Some false
  ∧ ∃ raw, entry = Some raw
           ∧ entry_name t = (raw_name raw ≫= trimmedOrNull) ?? generatedName index
           ∧ (opt_apiKey <$> entry_options t) = Some (raw_apiKey raw)
           ∧ (opt_sseUrl <$> entry_options t) = Some (raw_sseUrl raw ??? raw_serverUrl raw)
           ∧ (opt_product <$> entry_options t) = Some (raw_product raw)
           ∧ (opt_useProcessEnv <$> entry_options t) = Some None.
Proof.
  unfold normalizeTargetEntry. destruct entry as [raw |]; [| done].
  intros [= <-]. simpl. split; [| split; [done | by exists raw]].
  destruct (raw_name raw) as [n |]; simpl; [| done].
  destruct (trimmedOrNull n) as [f |] eqn:Hf; simpl; [| done].
  by destruct (trimmedOrNull_some _ _ Hf) as (_ & ? & _).
Qed.

(** The entries kept by [.filter(Boolean)], with their positions. *)
Lemma normalized_elem entries : ∀ (from : nat) t,
  t ∈ omap id (imap (λ idx entry, normalizeTargetEntry parseProps entry (from + idx)) entries)
  ↔ ∃ i, normalizeTargetEntry parseProps (entries !! i ≫= id) (from + i) = Some t
         ∧ is_Some (entries !! i).
Proof.
  intros from t. rewrite list_elem_of_omap. split.
  - intros (o & Hin & Ho). apply elem_of_lookup_imap_1 in Hin as (i & entry & -> & Hi).
    exists i. rewrite Hi. simpl in *. by split; [| eauto].
  - intros (i & Hn & [entry Hi]). rewrite Hi in Hn. simpl in Hn.
    exists (Some t). split; [| done].
    rewrite <- Hn. by apply (elem_of_lookup_imap_2 (λ idx e, normalizeTargetEntry parseProps e (from + idx))).
Qed.

Lemma normalized_cons entry entries (from : nat) :
  imap (λ idx e, normalizeTargetEntry parseProps e (from + idx)) (entry :: entries)
  = normalizeTargetEntry parseProps entry from
    :: imap (λ idx e, normalizeTargetEntry parseProps e (S from + idx)) entries.
Proof.
  rewrite imap_cons. f_equal; [by rewrite Nat.add_0_r |].
  apply imap_ext. intros i e _. simpl. f_equal. lia.
Qed.

Lemma normalized_length entries : ∀ from : nat,
  length (omap id (imap (λ idx e, normalizeTargetEntry parseProps e (from + idx)) entries))
  = length (omap id entries).
Proof.
  induction entries as [| [raw |] entries IH]; intros from; [done | |];
    rewrite normalized_cons.
  - change (omap id (Some raw :: entries)) with (raw :: omap id entries).
    unfold normalizeTargetEntry at 1.
    match goal with
    | |- length (omap id (Some ?t :: ?l)) = _ =>
        change (omap id (Some t :: l)) with (t :: omap id l)
    end.
    cbn [length]. f_equal. apply IH.
  - change (omap id (None :: entries)) with (omap id entries).
    unfold normalizeTargetEntry at 1.
    match goal with
    | |- length (omap id (None :: ?l)) = _ =>
        change (omap id (None :: l)) with (omap id l)
    end.
    apply IH.
Qed.

Lemma normalized_objects entries : ∀ from : nat,
  Forall2 loadedFrom
    (omap id (imap (λ idx e, normalizeTargetEntry parseProps e (from + idx)) entries))
    (omap id entries).
Proof.
  induction entries as [| [raw |] entries IH]; intros from; [constructor | |];
    rewrite normalized_cons.
  - change (omap id (Some raw :: entries)) with (raw :: omap id entries).
    unfold normalizeTargetEntry at 1.
    match goal with
    | |- Forall2 _ (omap id (Some ?t :: ?l)) _ =>
        change (omap id (Some t :: l)) with (t :: omap id l)
    end.
    constructor; [| apply IH].
    unfold loadedFrom. cbn [entry_name entry_options entry_useProcessEnv].
    split; [done |]. split; [by intros n -> |]. split; [intros ->; by exists from |].
    eexists. split; [reflexivity |]. done.
  - change (omap id (None :: entries)) with (omap id entries).
    unfold normalizeTargetEntry at 1.
    match goal with
    | |- Forall2 _ (omap id (None :: ?l)) _ => change (omap id (None :: l)) with (omap id l)
    end.
    apply IH.
Qed.

End LoadTargets.





(** ** Clients and the process environment *)

(** X18. A target that is marked as not using the process environment gets
    a client built from its own options alone: [getClient] does the same
    under every environment, the client's key is the target's key, and a
    target without a key of its own cannot connect, whatever key the
    environment holds. *)
Theorem isolated_target_ignores_environment (processEnv : Env) (sdk : Sdk) (w : World)
    (wanted : string) (target : Target) :
  findTarget (manager w) wanted = Some target →
  useProcessEnv target = false →
  clients (manager w) !! wanted = None →
  getClient processEnv (Some wanted) w = getClient empty_env (Some wanted) w
  ∧ ∃ c, store (getClient processEnv (Some wanted) w).2 !! length (store w) = Some c
         ∧ (getClient processEnv (Some wanted) w).1 = Fulfilled (length (store w))
         ∧ apiKey c = opt_apiKey (options target)
         ∧ isConnected c = false
         ∧ (opt_apiKey (options target) = None →
            connect sdk c
            = (Rejected MissingApiKey,
               set_connectPromise (Some (RejectedWith MissingApiKey)) c, [])).
Proof.
  intros Ht Hiso Hc.
  rewrite !(getClient_first _ _ _ _ Ht Hc).
  assert (Hnew : newMcpChatClient processEnv (clientOptions target)
                 = newMcpChatClient empty_env (clientOptions target)).
  { unfold newMcpChatClient, clientOptions. simpl. by rewrite Hiso. }
  rewrite Hnew. split; [done |].
  exists (newMcpChatClient empty_env (clientOptions target)). simpl.
  split; [by rewrite lookup_app_r, Nat.sub_diag |]. split; [done |].
  assert (Hkey : apiKey (newMcpChatClient empty_env (clientOptions target))
                 = opt_apiKey (options target)).
  { unfold newMcpChatClient, clientOptions. simpl. rewrite Hiso. simpl.
    by destruct (opt_apiKey (options target)). }
  split; [exact Hkey |]. split; [done |].
  intros Hnone. apply connect_missing_key; [done | done |].
  unfold apiKey_missing. by rewrite Hkey, Hnone.
Qed.

Lemma isolated_target_ignores_environment_witness :
  let env := {| MCP_SSE_URL := None; MCP_SERVER_URL := None; MCP_STREAMABLE_URL := None;
                MCP_API_KEY := Some "ambient"; CISCO_DOCS_API_KEY := None;
                X_API_KEY := None; MCP_TOOL_NAME := None; MCP_TRANSPORT := None;
                MCP_EXTRA_ARGS := None; MCP_PRODUCT := Some "ACI"; DOCS_PRODUCT := None |} in
  useProcessEnv {| name := "A"; options := withKey; useProcessEnv := false |} = false
  ∧ getClient env (Some "A") twinWorld = getClient empty_env (Some "A") twinWorld.
Proof.
  cbv zeta. split; [reflexivity |].
  exact (proj1 (isolated_target_ignores_environment _ unreachable twinWorld "A"
                  {| name := "A"; options := withKey; useProcessEnv := false |}
                  eq_refl eq_refl eq_refl)).
Defined.

(** X19. The transport preference given to the constructor is compared
    without regard to letter case: the client stores it in lower case, so a
    preference that lower-cases to [sse] or [streamable] forces that one
    attempt, and any other yields both attempts, streamable first. *)
Theorem preference_is_case_insensitive (processEnv : Env) (options : Options)
    (preference : string) :
  opt_transportPreference options = Some preference →
  let c := newMcpChatClient processEnv options in
  transportPreference c = Js.toLowerCase preference
  ∧ Js.toLowerCase (transportPreference c) = transportPreference c
  ∧ (Js.toLowerCase preference = "sse" →
     buildTransportAttempts (initOptionsOf c) = [sseAttempt (initOptionsOf c)])
  ∧ (Js.toLowerCase preference = "streamable" →
     buildTransportAttempts (initOptionsOf c) = [streamableAttempt (initOptionsOf c)])
  ∧ (Js.toLowerCase preference ≠ "sse" → Js.toLowerCase preference ≠ "streamable" →
     buildTransportAttempts (initOptionsOf c)
     = [streamableAttempt (initOptionsOf c); sseAttempt (initOptionsOf c)]).
Proof.
  intros Hpref c.
  assert (Hstored : transportPreference c = Js.toLowerCase preference).
  { unfold c, newMcpChatClient. simpl. by rewrite Hpref. }
  split; [exact Hstored |]. split; [rewrite Hstored; apply toLowerCase_idemp |].
  split; [| split].
  - intros Hsse. apply forced_sse.
    change (transportPreference c = "sse"). by rewrite Hstored.
  - intros Hstr. apply forced_streamable.
    change (transportPreference c = "streamable"). by rewrite Hstored.
  - intros Hsse Hstr. apply not_forced.
    + change (transportPreference c ≠ "sse"). by rewrite Hstored.
    + change (transportPreference c ≠ "streamable"). by rewrite Hstored.
Qed.

Lemma preference_is_case_insensitive_witness :
  opt_transportPreference upperSseOptions = Some "SSE"
  ∧ label <$> buildTransportAttempts
                (initOptionsOf (newMcpChatClient empty_env upperSseOptions))
    = ["sse @ https://docs-ai.cloudapps.cisco.com/mcp/sse"].
Proof.
  split; [reflexivity |].
  rewrite (proj1 (proj2 (proj2
             (preference_is_case_insensitive empty_env upperSseOptions "SSE" eq_refl)))
             eq_refl).
  reflexivity.
Defined.

(** ** The handler of [POST /api/ask] *)

Section HandleAsk.

Variables (cfg : ServerConfig) (sdk : Sdk) (render : ToolResult → string).

Lemma afterListTools_keeps_filter h c :
  productFilter (afterListTools sdk h c).2 = productFilter c.
Proof.
  unfold afterListTools. destruct (listTools sdk h) as [tools | e]; simpl.
  - destruct (findTool tools (toolName c)); by destruct c.
  - by destruct c.
Qed.

Lemma awaitTask_keeps_filter k c :
  productFilter (awaitTask sdk k c).1.2 = productFilter c.
Proof.
  destruct k as [initOptions | h]; simpl.
  - unfold afterFallback.
    destruct (connectWithFallback sdk initOptions) as [[conn | e] evs]; simpl.
    + rewrite afterListTools_keeps_filter. by destruct c.
    + by destruct c.
  - apply afterListTools_keeps_filter.
Qed.

(** Connecting never touches the product filter. *)
Lemma connect_keeps_filter c : productFilter (connect sdk c).1.2 = productFilter c.
Proof.
  unfold connect. destruct (isConnected c); [done |].
  destruct (connectPromise c) as [[k | e] |]; simpl.
  - pose proof (awaitTask_keeps_filter k (set_connectPromise (Some (Pending k)) c)) as H.
    destruct (awaitTask sdk k _) as [[r c1] evs]. simpl in *. rewrite H. by destruct c.
  - by destruct c.
  - unfold connectInternal_start. destruct (apiKey_missing c); [by destruct c |].
    pose proof (awaitTask_keeps_filter (AwaitFallback (initOptionsOf c))
                  (set_connectPromise (Some (Pending (AwaitFallback (initOptionsOf c)))) c))
      as H.
    destruct (awaitTask sdk _ _) as [[r c1] evs]. simpl in *. rewrite H. by destruct c.
Qed.

Lemma ask_keeps_filter question overrides c :
  productFilter (ask sdk question overrides c).1.2 = productFilter c.
Proof.
  unfold ask. destruct question as [q |]; simpl; [| done].
  destruct (Js.nonempty (Js.trim q)); simpl; [| done].
  assert (H : productFilter (ensureConnected sdk c).1.2 = productFilter c).
  { unfold ensureConnected. destruct (isConnected c); [done | apply connect_keeps_filter]. }
  destruct (ensureConnected sdk c) as [[[[] | e] c1] evs]; simpl in *; [| done].
  destruct (client c1); [| done]. by destruct (selectedTool c1).
Qed.

Lemma getClient_designates w wanted r :
  cachedClientsExist w →
  (getClient (cfg_env cfg) (Some wanted) w).1 = Fulfilled r →
  is_Some (store (getClient (cfg_env cfg) (Some wanted) w).2 !! r)
  ∧ clients (manager (getClient (cfg_env cfg) (Some wanted) w).2) !! wanted = Some r.
Proof.
  intros Hwf. destruct (findTarget (manager w) wanted) as [t |] eqn:Ht.
  - destruct (clients (manager w) !! wanted) as [r' |] eqn:Hc.
    + rewrite (getClient_cached _ _ _ _ _ Ht Hc). simpl. intros [= <-].
      split; [by apply (Hwf wanted) | done].
    + rewrite (getClient_first _ _ _ _ Ht Hc). simpl. intros [= <-].
      split; [| by rewrite lookup_insert_eq].
      rewrite lookup_app_r, Nat.sub_diag by done. by eexists.
  - by rewrite (getClient_unknown _ _ _ Ht).
Qed.

End HandleAsk.





(** ** The web server's start-up *)

Lemma loaded_first (parseProps : string → option (gmap string Js.value))
    (parsed : option (list (option RawEntry))) :
  ∃ first rest o, loadTargetsFromEnv parseProps parsed = first :: rest
                  ∧ entry_options first = Some o.
Proof.
  unfold loadTargetsFromEnv.
  destruct (match parsed with
            | Some entries =>
                omap id (imap (λ idx entry, normalizeTargetEntry parseProps entry idx) entries)
            | None => []
            end) as [| t ts] eqn:Htargets.
  - by eexists _, _, _.
  - assert (Ht : ∃ entries, parsed = Some entries
                 ∧ t ∈ omap id (imap (λ idx entry,
                                  normalizeTargetEntry parseProps entry (0 + idx)) entries)).
    { destruct parsed as [entries |]; [| done]. exists entries. split; [done |].
      simpl. rewrite Htargets. apply list_elem_of_here. }
    destruct Ht as (entries & _ & Ht).
    apply normalized_elem in Ht as (i & Hn & _).
    unfold normalizeTargetEntry in Hn.
    destruct (entries !! i ≫= id) as [raw |]; [| done].
    injection Hn as <-. by eexists _, _, _.
Qed.

Lemma seedProduct_first cliProduct first rest o :
  entry_options first = Some o →
  ∃ first', seedProduct cliProduct (first :: rest) = first' :: rest
            ∧ entry_name first' = entry_name first
            ∧ (entry_options first' ≫= opt_product)
              = (opt_product o ??? (if truthyString cliProduct then cliProduct else None)).
Proof.
  intros Ho. unfold seedProduct. destruct (truthyString cliProduct).
  - rewrite Ho. by eexists.
  - exists first. rewrite Ho. split; [done |]. split; [done |]. simpl.
    by destruct (opt_product o).
Qed.

Lemma handleStatus_no_client cfg w :
  clients (manager w) !! cfg_defaultTarget cfg = None →
  handleStatus cfg w
  = {| status_connected := false;
       status_productFilter :=
         findTarget (manager w) (cfg_defaultTarget cfg) ≫= λ t, opt_product (options t);
       status_connectionLabel := "";
       status_target := cfg_defaultTarget cfg;
       status_targets := getTargetNames (manager w) |}.
Proof.
  intros Hnone. unfold handleStatus, getTargetSummary, mbind, M_bind, getManager.
  simpl. rewrite Hnone. by destruct (findTarget (manager w) (cfg_defaultTarget cfg)).
Qed.

(** X22. The web server starts unless the command line names a target that
    is not loaded, in which case [setDefaultTarget] throws the unknown-target
    error. Once started no client exists, the default target is the one of
    the command line or else the first loaded one and it is registered, and
    [/api/status] reports it as not connected with an empty label; when the
    default is the first loaded target, the product reported is that
    target's own product or else the product of the command line. *)
Theorem server_start_state (parseProps : string → option (gmap string Js.value))
    (parsed : option (list (option RawEntry))) (processEnv : Env)
    (cliOptions : ServerCliOptions) :
  let loaded := loadTargetsFromEnv parseProps parsed in
  let names := entry_name <$> loaded in
  match startServer parseProps parsed processEnv cliOptions with
  | Rejected e =>
      ∃ target, srv_target cliOptions = Some target ∧ Js.nonempty target = true
                ∧ (target ∉ names) ∧ e = UnknownTarget target
  | Fulfilled (cfg, w) =>
      store w = [] ∧ clients (manager w) = ∅
      ∧ getTargetNames (manager w) = names
      ∧ hasTarget (manager w) (cfg_defaultTarget cfg) = true
      ∧ (if truthyString (srv_target cliOptions)
         then srv_target cliOptions = Some (cfg_defaultTarget cfg)
         else head names = Some (cfg_defaultTarget cfg))
      ∧ cfg_product cfg = srv_product cliOptions
      ∧ status_connected (handleStatus cfg w) = false
      ∧ status_connectionLabel (handleStatus cfg w) = ""
      ∧ status_target (handleStatus cfg w) = cfg_defaultTarget cfg
      ∧ status_targets (handleStatus cfg w) = names
      ∧ (head names = Some (cfg_defaultTarget cfg) →
         status_productFilter (handleStatus cfg w)
         = (((head loaded ≫= entry_options) ≫= opt_product)
            ??? (if truthyString (srv_product cliOptions)
                 then srv_product cliOptions else None)))
  end.
Proof.
  cbv zeta. unfold startServer.
  destruct (loaded_first parseProps parsed) as (first & rest & o & -> & Ho).
  destruct (seedProduct_first (srv_product cliOptions) first rest o Ho)
    as (first' & -> & Hname & Hproduct).
  cbn [newChatTargetManager].
  set (m := {| targets := _; clients := ∅; defaultTargetName := entry_name first' |}).
  assert (Hnames : getTargetNames m = entry_name <$> first :: rest).
  { unfold getTargetNames, m. cbn [targets]. rewrite !fmap_cons, Hname. cbn [name].
    f_equal. rewrite <- list_fmap_compose. by apply list_fmap_ext. }
  assert (Hfirst : findTarget m (entry_name first)
                   = Some {| name := entry_name first';
                             options := entry_options first' ?? no_options;
                             useProcessEnv := entry_useProcessEnv first' ?? false |}).
  { unfold findTarget, m. cbn [targets]. rewrite fmap_cons. cbn [find name].
    by rewrite Hname, String.eqb_refl. }
  assert (Hown : hasTarget m (entry_name first') = true).
  { rewrite findTarget_hasTarget, Hname, Hfirst. reflexivity. }
  assert (Hstatus : ∀ d,
            let w := {| store := [];
                        manager := {| targets := targets m; clients := ∅;
                                      defaultTargetName := d |} |} in
            let cfg := {| cfg_env := processEnv; cfg_defaultTarget := d;
                          cfg_product := srv_product cliOptions |} in
            status_connected (handleStatus cfg w) = false
            ∧ status_connectionLabel (handleStatus cfg w) = ""
            ∧ status_target (handleStatus cfg w) = d
            ∧ status_targets (handleStatus cfg w) = entry_name <$> first :: rest
            ∧ (head (entry_name <$> first :: rest) = Some d →
               status_productFilter (handleStatus cfg w)
               = (((head (first :: rest) ≫= entry_options) ≫= opt_product)
                  ??? (if truthyString (srv_product cliOptions)
                       then srv_product cliOptions else None)))).
  { intros d w cfg. rewrite handleStatus_no_client by apply lookup_empty.
    cbn [status_connected status_connectionLabel status_target status_targets
         status_productFilter cfg_defaultTarget].
    split; [done |]. split; [done |]. split; [done |]. split; [exact Hnames |].
    change (findTarget (manager w) (cfg_defaultTarget cfg)) with (findTarget m d).
    intros [= Hd]. rewrite <- Hd, Hfirst. cbn [head mbind option_bind options]. rewrite Ho.
    cbn [mbind option_bind]. rewrite <- Hproduct.
    by destruct (entry_options first'). }
  destruct (srv_target cliOptions) as [target |] eqn:Htarget; cbn [truthyString].
  - destruct (Js.nonempty target) eqn:Hne.
    + unfold setDefaultTarget, mbind, M_bind, getManager. cbn [manager].
      destruct (hasTarget m target) eqn:Hhas; cbn [negb].
      * cbn. split; [done |]. split; [done |]. split; [exact Hnames |].
        split; [exact Hhas |]. split; [done |]. split; [done |]. apply Hstatus.
      * assert (Hnot : target ∉ entry_name <$> first :: rest).
        { rewrite <- Hnames, <- hasTarget_names, Hhas. done. }
        exists target. split; [done |]. split; [done |]. split; [exact Hnot | done].
    + cbn. split; [done |]. split; [done |]. split; [exact Hnames |].
      split; [exact Hown |]. split; [by rewrite Hname |]. split; [done |].
      apply (Hstatus (entry_name first')).
  - cbn. split; [done |]. split; [done |]. split; [exact Hnames |].
    split; [exact Hown |]. split; [by rewrite Hname |]. split; [done |].
    apply (Hstatus (entry_name first')).
Qed.

Lemma server_start_state_witness :
  ∃ cfg w,
    startServer (λ _, None) None empty_env (parseServerCliArgs ["--product"; " ACI "])
    = Fulfilled (cfg, w)
    ∧ status_productFilter (handleStatus cfg w) = Some "ACI".
Proof.
  pose proof (server_start_state (λ _, None) None empty_env
                (parseServerCliArgs ["--product"; " ACI "])) as H.
  cbv zeta in H.
  destruct (startServer (λ _, None) None empty_env
              (parseServerCliArgs ["--product"; " ACI "])) as [[cfg w] | e].
  - destruct H as (_ & _ & _ & _ & Hdefault & _ & _ & _ & _ & _ & Hproduct).
    exists cfg, w. split; [reflexivity |].
    rewrite (Hproduct Hdefault). reflexivity.
  - destruct H as (target & Htarget & _). vm_compute in Htarget. discriminate Htarget.
Defined.

(** ** The chatbot's commands *)

Section Commands.

Variable processEnv : Env.

Lemma string_app_empty (s : string) : s +:+ "" = s.
Proof.
  induction s as [| c s IH]; [done |].
  change (String c (s +:+ "") = String c s). by rewrite IH.
Qed.

Lemma splitWords_word (word s : string) (afterSpace : bool) :
  spaceFree word = true → word ≠ "" ∨ afterSpace = false →
  splitWords (word +:+ s) afterSpace
  = (word +:+ (splitWords s false).1, (splitWords s false).2).
Proof.
  revert afterSpace. induction word as [| c word IH]; intros afterSpace Hfree Hor.
  - destruct Hor as [? | ->]; [done |].
    change ("" +:+ s) with s. by destruct (splitWords s false).
  - cbn [spaceFree] in Hfree. apply andb_true_iff in Hfree as [Hc Hfree].
    apply negb_true_iff in Hc.
    change (String c word +:+ s) with (String c (word +:+ s)).
    cbn [splitWords]. rewrite Hc, (IH false Hfree) by (by right).
    reflexivity.
Qed.

Lemma splitWords_gap (gap s : string) :
  allSpace gap = true → splitWords (gap +:+ s) true = splitWords s true.
Proof.
  induction gap as [| c gap IH]; intros Hgap; [done |].
  cbn [allSpace] in Hgap. apply andb_true_iff in Hgap as [Hc Hgap].
  change (String c gap +:+ s) with (String c (gap +:+ s)).
  cbn [splitWords]. rewrite Hc, (IH Hgap). by destruct (splitWords s true).
Qed.

Lemma gapAndWord_inv gap word :
  gapAndWord (gap, word) = true →
  allSpace gap = true ∧ gap ≠ "" ∧ spaceFree word = true ∧ word ≠ "".
Proof.
  unfold gapAndWord. cbn [fst snd]. rewrite !andb_true_iff.
  intros [[[Hgap Hg] Hword] Hw]. split; [done |].
  split; [by intros -> |]. split; [done | by intros ->].
Qed.

Lemma splitWords_spaced pairs :
  forallb gapAndWord pairs = true →
  splitWords (spaced pairs) false = ("", pairs.*2).
Proof.
  induction pairs as [| [gap word] pairs IH]; intros Hall; [done |].
  cbn [forallb] in Hall. apply andb_true_iff in Hall as [Hp Hall].
  apply gapAndWord_inv in Hp as (Hgap & Hg & Hword & Hw).
  cbn [spaced]. destruct gap as [| c gap]; [done |].
  cbn [allSpace] in Hgap. apply andb_true_iff in Hgap as [Hc Hgap].
  change (String c gap +:+ word +:+ spaced pairs)
    with (String c (gap +:+ word +:+ spaced pairs)).
  cbn [splitWords]. rewrite Hc, (splitWords_gap _ _ Hgap).
  rewrite (splitWords_word _ _ _ Hword) by (by left).
  rewrite (IH Hall). cbn [fst snd]. by rewrite string_app_empty.
Qed.

Lemma is_space_lower c : Js.is_space (Js.lower_ascii c) = Js.is_space c.
Proof. by destruct c as [[] [] [] [] [] [] [] []]. Qed.

Lemma spaceFree_lower s : spaceFree (Js.toLowerCase s) = spaceFree s.
Proof.
  induction s as [| c s IH]; [done |]. cbn [Js.toLowerCase spaceFree].
  by rewrite is_space_lower, IH.
Qed.

Lemma toLowerCase_nonempty s : Js.toLowerCase s ≠ "" → s ≠ "".
Proof. by intros H ->. Qed.

(** The command and its words, as [handleCommand] cuts them out. *)
Lemma command_words (cmd : string) pairs :
  spaceFree (Js.toLowerCase cmd) = true → Js.toLowerCase cmd ≠ "" →
  forallb gapAndWord pairs = true →
  splitWords (slice 1 ("/" +:+ cmd +:+ spaced pairs)) false = (cmd, pairs.*2).
Proof.
  intros Hfree Hne Hall. rewrite spaceFree_lower in Hfree.
  change (slice 1 ("/" +:+ cmd +:+ spaced pairs)) with (cmd +:+ spaced pairs).
  rewrite (splitWords_word _ _ _ Hfree) by (by right).
  rewrite (splitWords_spaced _ Hall). cbn [fst snd]. by rewrite string_app_empty.
Qed.

Lemma trim_end_spaceFree word : spaceFree word = true → Js.trim_end word = word.
Proof.
  induction word as [| c word IH]; intros Hfree; [done |].
  cbn [spaceFree] in Hfree. apply andb_true_iff in Hfree as [Hc Hfree].
  apply negb_true_iff in Hc. by rewrite (trim_end_kept _ _ Hc), (IH Hfree).
Qed.

Lemma trim_end_app (p s : string) :
  Js.trim_end s ≠ "" → Js.trim_end (p +:+ s) = p +:+ Js.trim_end s.
Proof.
  intros Hs. induction p as [| c p IH]; [done |].
  change (String c p +:+ s) with (String c (p +:+ s)).
  change (String c p +:+ Js.trim_end s) with (String c (p +:+ Js.trim_end s)).
  cbn [Js.trim_end]. rewrite IH.
  destruct (p +:+ Js.trim_end s) as [| d rest] eqn:Happ; [| done].
  destruct p; [| done]. by destruct Hs.
Qed.

Lemma joined_trim_end words :
  words ≠ [] → forallb isWord words = true →
  Js.trim_end (String.concat " " words) = String.concat " " words
  ∧ String.concat " " words ≠ "".
Proof.
  induction words as [| word words IH]; intros Hne Hall; [done |].
  cbn [forallb] in Hall. apply andb_true_iff in Hall as [Hword Hall].
  apply andb_true_iff in Hword as [Hfree Hw].
  assert (Hword : word ≠ "") by (by intros ->).
  destruct words as [| word' words].
  - cbn [String.concat]. by rewrite (trim_end_spaceFree _ Hfree).
  - destruct (IH ltac:(done) Hall) as [IHtrim IHne].
    change (String.concat " " (word :: word' :: words))
      with (word +:+ " " +:+ String.concat " " (word' :: words)).
    rewrite <- string_app_assoc, trim_end_app, IHtrim by (by rewrite IHtrim).
    split; [done |]. by destruct word.
Qed.

Lemma joined_trim words :
  words ≠ [] → forallb isWord words = true →
  trimmedOrNull (String.concat " " words) = Some (String.concat " " words).
Proof.
  intros Hne Hall. destruct (joined_trim_end words Hne Hall) as [Hend Hjoined].
  assert (Hstart : Js.trim_start (String.concat " " words) = String.concat " " words).
  { destruct words as [| word words]; [done |].
    cbn [forallb] in Hall. apply andb_true_iff in Hall as [Hword _].
    apply andb_true_iff in Hword as [Hfree Hw].
    destruct word as [| c word]; [done |].
    cbn [spaceFree] in Hfree. apply andb_true_iff in Hfree as [Hc _].
    apply negb_true_iff in Hc.
    destruct words as [| word' words]; cbn [String.concat].
    - by apply trim_start_kept.
    - change (String c word +:+ " " +:+ String.concat " " (word' :: words))
        with (String c (word +:+ " " +:+ String.concat " " (word' :: words))).
      by apply trim_start_kept. }
  unfold trimmedOrNull, Js.trim. rewrite Hstart, Hend.
  unfold Js.nonempty. destruct (String.eqb_spec (String.concat " " words) ""); done.
Qed.

Lemma words_of_pairs pairs :
  forallb gapAndWord pairs = true → forallb isWord pairs.*2 = true.
Proof.
  induction pairs as [| [gap word] pairs IH]; [done |].
  cbn [forallb fmap list_fmap snd]. rewrite !andb_true_iff. intros [Hp Hall].
  split; [| by apply IH].
  unfold gapAndWord in Hp. cbn [fst snd] in Hp. unfold isWord.
  rewrite !andb_true_iff in Hp. rewrite andb_true_iff. tauto.
Qed.

(** [getClient] on a registered name. *)
Lemma getClient_registered w wanted :
  hasTarget (manager w) wanted = true → cachedClientsExist w →
  ∃ r c w1, getClient processEnv (Some wanted) w = (Fulfilled r, w1)
            ∧ store w1 !! r = Some c
            ∧ clients (manager w1) !! wanted = Some r
            ∧ targets (manager w1) = targets (manager w)
            ∧ defaultTargetName (manager w1) = defaultTargetName (manager w)
            ∧ cachedClientsExist w1
            ∧ store w `prefix_of` store w1.
Proof.
  intros Hhas Hwf. rewrite findTarget_hasTarget in Hhas.
  apply bool_decide_eq_true_1 in Hhas as [t Ht].
  destruct (clients (manager w) !! wanted) as [r |] eqn:Hc.
  - destruct (Hwf _ _ Hc) as [c Hr]. exists r, c, w.
    rewrite (getClient_cached _ _ _ _ _ Ht Hc). done.
  - eexists _, _, _. rewrite (getClient_first _ _ _ _ Ht Hc).
    split; [reflexivity |]. cbn [store manager clients targets defaultTargetName].
    split; [by rewrite lookup_app_r, Nat.sub_diag |].
    split; [by rewrite lookup_insert_eq |]. split; [done |]. split; [done |].
    split; [| by apply prefix_app_r].
    intros name r Hr. cbn [store manager clients] in *.
    destruct (decide (name = wanted)) as [-> | Hneq].
    + rewrite lookup_insert_eq in Hr. injection Hr as <-.
      by rewrite lookup_app_r, Nat.sub_diag.
    + rewrite lookup_insert_ne in Hr by done.
      destruct (Hwf _ _ Hr) as [c Hc']. exists c. by apply lookup_app_l_Some.
Qed.

End Commands.





Lemma hasTarget_targets m m' wanted :
  targets m' = targets m → hasTarget m' wanted = hasTarget m wanted.
Proof. unfold hasTarget. by intros ->. Qed.

Lemma alter_keeps_cached (f : McpChatClient → McpChatClient) ref w :
  cachedClientsExist w →
  cachedClientsExist {| store := alter f ref (store w); manager := manager w |}.
Proof.
  intros Hwf name r Hr. cbn [store manager] in *.
  apply lookup_lt_is_Some. rewrite length_alter. apply lookup_lt_is_Some.
  by apply (Hwf name).
Qed.

(** X25. Whatever is typed, a command of the chatbot whose active target is
    registered does not throw, and afterwards the active target is again a
    registered one: the targets and the default target are the same, no
    client is removed and every cached reference still designates a client.
    A command that is not known, and [/exit], change nothing and write
    nothing. *)
Theorem commands_keep_active_registered (processEnv : Env) (input : string)
    (activeTarget : string) (w : World) :
  hasTarget (manager w) activeTarget = true →
  cachedClientsExist w →
  let r := handleCommand processEnv input activeTarget w in
  (∃ outcome, r.1.1.1 = Fulfilled outcome
              ∧ (outcome ≠ Handled true → r = (Fulfilled outcome, activeTarget, w, [])))
  ∧ hasTarget (manager r.1.2) r.1.1.2 = true
  ∧ cachedClientsExist r.1.2
  ∧ targets (manager r.1.2) = targets (manager w)
  ∧ defaultTargetName (manager r.1.2) = defaultTargetName (manager w)
  ∧ (length (store w) ≤ length (store r.1.2))%nat.
Proof.
  intros Hhas Hwf r. subst r. unfold handleCommand.
  destruct (splitWords (slice 1 input) false) as [command rest].
  destruct (String.eqb (Js.toLowerCase command) "product").
  - destruct (getClient_registered processEnv w activeTarget Hhas Hwf)
      as (ref & c & w1 & -> & Hc & Href & Htargets & Hdefault & Hwf1 & Hprefix).
    apply prefix_length in Hprefix.
    destruct rest as [| first rest]; cbn [fst snd store manager].
    + split; [by exists (Handled true) |].
      split; [by rewrite (hasTarget_targets _ _ _ Htargets) |]. done.
    + split; [by exists (Handled true) |].
      split; [by rewrite (hasTarget_targets _ _ _ Htargets) |].
      split; [by apply alter_keeps_cached |]. split; [done |]. split; [done |].
      by rewrite length_alter.
  - destruct (String.eqb (Js.toLowerCase command) "server"
              || String.eqb (Js.toLowerCase command) "target").
    + destruct rest as [| first rest].
      * cbn [fst snd]. split; [by exists (Handled true) | done].
      * destruct (hasTarget (manager w) (String.concat " " (first :: rest))) eqn:Hnext;
          cbn [negb].
        -- destruct (getClient_registered processEnv w _ Hnext Hwf)
             as (ref & c & w1 & -> & Hc & Href & Htargets & Hdefault & Hwf1 & Hprefix).
           apply prefix_length in Hprefix. cbn [fst snd].
           split; [by exists (Handled true) |].
           split; [by rewrite (hasTarget_targets _ _ _ Htargets) |]. done.
        -- cbn [fst snd]. split; [by exists (Handled true) | done].
    + destruct (String.eqb (Js.toLowerCase command) "exit"
                || String.eqb (Js.toLowerCase command) "quit"); cbn [fst snd].
      * split; [by exists Exited | done].
      * split; [by exists (Handled false) | done].
Qed.

Lemma commands_keep_active_registered_witness :
  let r := handleCommand empty_env "/server B" "A" twinWorld in
  r.1.1.2 = "A" ∧ hasTarget (manager r.1.2) r.1.1.2 = true.
Proof.
  pose proof (commands_keep_active_registered empty_env "/server B" "A" twinWorld eq_refl
                ltac:(intros ? ? H; vm_compute in H; discriminate H)) as H.
  cbv zeta in H. destruct H as (_ & Hactive & _).
  split; [reflexivity | exact Hactive].
Defined.
